(** * WebRTC leak demo: the client script [script.js]

    A shallow embedding of [src/webrtc-leak-demo-js/script.js]: the two
    address regular expressions with the backtracking matcher that runs
    them, [getGeoData], [isPrivateIP], the candidate handler and the
    report assembly of [runLeakTest].

    Scope of the model.  A JavaScript string is a sequence of 16-bit code
    units; here a string is a [string] of 8-bit characters, so the model
    covers the strings whose code units are below U+0100 (candidate lines
    and address literals are ASCII).  Console output is not modelled.
    Every network call is answered by an oracle of the environment, so a
    call that never settles is outside the model.  Setting up the
    connection (the constructor, [addEventListener], [createDataChannel])
    stands outside any [try]: the environment says whether it throws, and
    then the run ends there.  The timer fires once, after the candidate
    events of the run, and what its callback reads of the page outside a
    [try] (the media devices, the date, [JSON.stringify]) returns
    normally.

    The development also covers [src/unnamed/part_000]: the handler of
    the log server that receives the report, and the earlier variant of
    the client kept beside it.  Of the server, a post is modelled from
    the parsed body on (a body within the size limit of the parser), and
    an append that fails leaves the log file as it was. *)

From Stdlib Require Import Bool Arith List Lia ZArith.
From Stdlib Require Import Ascii String DecimalString.
Import ListNotations.
Local Open Scope string_scope.
Local Open Scope list_scope.
Local Open Scope nat_scope.

Set Implicit Arguments.
Set Warnings "-register-all".

(* ================================================================== *)
(** * Characters and strings as the script uses them *)

Module Js.

Definition code (c : ascii) : nat := nat_of_ascii c.

Definition in_range (lo hi c : ascii) : bool :=
  (code lo <=? code c) && (code c <=? code hi).

Definition is_digit (c : ascii) : bool := in_range "0" "9" c.
Definition is_lower (c : ascii) : bool := in_range "a" "z" c.
Definition is_upper (c : ascii) : bool := in_range "A" "Z" c.

(** [\w] of a regular expression without the [u] flag: [[A-Za-z0-9_]]. *)
Definition is_word (c : ascii) : bool :=
  is_lower c || is_upper c || is_digit c || (code c =? 95).

(** White space and line terminators below U+0100: TAB, LF, VT, FF, CR,
    SP and NBSP.  It is the set of [\s] and the set [parseInt] skips. *)
Definition is_space (c : ascii) : bool :=
  let n := code c in
  ((9 <=? n) && (n <=? 13)) || (n =? 32) || (n =? 160).

(** [Canonicalize] of the [i] flag on an ASCII letter is its upper case;
    a code unit from U+0080 on is never identified with an ASCII one, and
    the patterns of the script hold ASCII characters only. *)
Definition canonicalize (c : ascii) : ascii :=
  if is_lower c then ascii_of_nat (code c - 32) else c.

(** [toLowerCase] of one code unit below U+0100: A-Z, and the Latin-1
    capitals U+00C0..U+00DE without the multiplication sign U+00D7. *)
Definition lower_char (c : ascii) : ascii :=
  let n := code c in
  if is_upper c then ascii_of_nat (n + 32)
  else if (192 <=? n) && (n <=? 222) && negb (n =? 215)
       then ascii_of_nat (n + 32)
       else c.

Fixpoint toLowerCase (s : string) : string :=
  match s with
  | EmptyString => EmptyString
  | String c t => String (lower_char c) (toLowerCase t)
  end.

Fixpoint startsWith (s p : string) : bool :=
  match p, s with
  | EmptyString, _ => true
  | String a p', String b s' => Ascii.eqb a b && startsWith s' p'
  | String _ _, EmptyString => false
  end.

(** [s.includes(needle)] *)
Fixpoint includes (s needle : string) : bool :=
  startsWith s needle ||
  match s with
  | EmptyString => false
  | String _ t => includes t needle
  end.

(** [s.split(sep)] for a one-character separator. *)
Fixpoint split_go (sep : ascii) (cur : string) (s : string) : list string :=
  match s with
  | EmptyString => [cur]
  | String c t =>
      if Ascii.eqb c sep then cur :: split_go sep EmptyString t
      else split_go sep (cur ++ String c EmptyString) t
  end.

Definition split (sep : ascii) (s : string) : list string :=
  split_go sep EmptyString s.

Fixpoint join (sep : string) (l : list string) : string :=
  match l with
  | [] => EmptyString
  | [x] => x
  | x :: t => x ++ sep ++ join sep t
  end.

Fixpoint skip_space (s : string) : string :=
  match s with
  | String c t => if is_space c then skip_space t else s
  | EmptyString => s
  end.

Fixpoint digits_go (acc : Z) (seen : bool) (s : string) : option Z :=
  match s with
  | String c t =>
      if is_digit c
      then digits_go (10 * acc + Z.of_nat (code c - 48)) true t
      else if seen then Some acc else None
  | EmptyString => if seen then Some acc else None
  end.

(** [parseInt(s, 10)]: leading white space, an optional sign, then the
    longest run of decimal digits; [None] is [NaN].  The script compares
    the result with constants below 256 only, on which the double that
    [parseInt] returns and the exact integer agree. *)
Definition parseInt10 (s : string) : option Z :=
  match skip_space s with
  | String "-" t => option_map Z.opp (digits_go 0 false t)
  | String "+" t => digits_go 0 false t
  | t => digits_go 0 false t
  end.

Fixpoint string_forall (p : ascii -> bool) (s : string) : bool :=
  match s with
  | EmptyString => true
  | String c t => p c && string_forall p t
  end.

(** Number to string, for the counts and the status codes the script
    prints. *)
Definition nat_to_string (n : nat) : string :=
  NilZero.string_of_uint (Nat.to_uint n).

End Js.

(* ================================================================== *)
(** * Regular expressions and the backtracking matcher *)

Module Regex.

(** The syntax the script's patterns use.  A group whose capture the
    script never reads is plain grouping of the syntax tree; [Cap n r] is
    a group whose capture is read ([typeMatch[1]], [hostnameMatch[1]]). *)
Inductive regex : Type :=
| Chr (c : ascii)                         (* a pattern character *)
| Cls (ranges : list (ascii * ascii))     (* [a-f0-9-] *)
| Space                                   (* \s *)
| WordB                                   (* \b *)
| Seq (r1 r2 : regex)
| Alt (r1 r2 : regex)
| Rep (r : regex) (min : nat) (max : option nat)   (* greedy {min,max} *)
| Cap (n : nat) (r : regex)
| Look (r : regex).                       (* (?=r) *)

(** A matcher state: the input before the current position (last
    character first), the input from it on, and the captures so far. *)
Record mstate : Type := MState {
  consumed : string;
  remaining : string;
  groups : list (nat * string)
}.

Definition cont : Type := mstate -> option mstate.

Definition advance (c : ascii) (t : string) (s : mstate) : mstate :=
  MState (String c (consumed s)) t (groups s).

Definition char_eq (ic : bool) (a b : ascii) : bool :=
  if ic then Ascii.eqb (Js.canonicalize a) (Js.canonicalize b)
  else Ascii.eqb a b.

Definition class_mem (ranges : list (ascii * ascii)) (c : ascii) : bool :=
  existsb (fun lh => Js.in_range (fst lh) (snd lh) c) ranges.

(** With the [i] flag a class holds [c] when it holds a character with
    the canonical form of [c]; for the ASCII classes of the script these
    are [c] itself and its other case. *)
Definition class_match (ic : bool) (ranges : list (ascii * ascii))
           (c : ascii) : bool :=
  class_mem ranges c ||
  (ic && (class_mem ranges (Js.canonicalize c) ||
          class_mem ranges (Js.lower_char c) && Js.is_upper c)).

Definition step_if (b : ascii -> bool) (k : cont) (s : mstate)
  : option mstate :=
  match remaining s with
  | String c t => if b c then k (advance c t s) else None
  | EmptyString => None
  end.

Definition word_before (s : mstate) : bool :=
  match consumed s with String c _ => Js.is_word c | EmptyString => false end.

Definition word_after (s : mstate) : bool :=
  match remaining s with String c _ => Js.is_word c | EmptyString => false end.

Definition same_index (x y : mstate) : bool :=
  String.length (remaining x) =? String.length (remaining y).

Fixpoint rev_append (a b : string) : string :=
  match a with
  | EmptyString => b
  | String c t => rev_append t (String c b)
  end.

Fixpoint take (n : nat) (s : string) : string :=
  match n, s with
  | S n', String c t => String c (take n' t)
  | _, _ => EmptyString
  end.

(** The input between two states of one run, [x] the earlier one. *)
Definition between (x y : mstate) : string :=
  rev_append
    (take (String.length (consumed y) - String.length (consumed x))
          (consumed y))
    EmptyString.

Fixpoint set_group (n : nat) (w : string) (g : list (nat * string))
  : list (nat * string) :=
  match g with
  | [] => [(n, w)]
  | (i, v) :: t => if i =? n then (n, w) :: t else (i, v) :: set_group n w t
  end.

Fixpoint get_group (n : nat) (g : list (nat * string)) : option string :=
  match g with
  | [] => None
  | (i, v) :: t => if i =? n then Some v else get_group n t
  end.

(** RepeatMatcher of the language specification, for the matcher [mr]
    of the repeated atom: greedy, and once [min] is reached an iteration
    that consumes nothing is refused.  [fuel] bounds the iterations left. *)
Fixpoint repeat (mr : cont -> cont) (k : cont) (fuel min : nat) (x : mstate)
         {struct fuel} : option mstate :=
  match fuel with
  | 0 => k x
  | S fuel' =>
      let d := fun y =>
        if (min =? 0) && same_index y x then None
        else repeat mr k fuel' (Nat.pred min) y in
      if min =? 0
      then match mr d x with
           | Some z => Some z
           | None => k x
           end
      else mr d x
  end.

(** The iterations a quantifier allows: its [max]; without one, [min]
    plus the length of the remaining input, which the refusal of empty
    iterations makes an upper bound ([repeat_enough] below). *)
Definition iterations (min : nat) (max : option nat) (x : mstate) : nat :=
  match max with
  | Some n => n
  | None => min + String.length (remaining x)
  end.

(** The matcher of the language specification, in continuation-passing
    style: [m ic r k x] matches [r] at [x] and hands each way of
    matching it, in priority order, to [k] until [k] accepts one.  A
    lookahead is matched on its own and is not re-entered. *)
Fixpoint m (ic : bool) (r : regex) (k : cont) (x : mstate) {struct r}
  : option mstate :=
  match r with
  | Chr c => step_if (fun a => char_eq ic a c) k x
  | Cls ranges => step_if (class_match ic ranges) k x
  | Space => step_if Js.is_space k x
  | WordB => if xorb (word_before x) (word_after x) then k x else None
  | Seq r1 r2 => m ic r1 (m ic r2 k) x
  | Alt r1 r2 =>
      match m ic r1 k x with
      | Some z => Some z
      | None => m ic r2 k x
      end
  | Rep r1 min max => repeat (m ic r1) k (iterations min max x) min x
  | Cap n r1 =>
      m ic r1 (fun y => k (MState (consumed y) (remaining y)
                                  (set_group n (between x y) (groups y)))) x
  | Look r1 =>
      match m ic r1 Some x with
      | Some y => k (MState (consumed x) (remaining x) (groups y))
      | None => None
      end
  end.

(** A regular expression object: its source and its [i] flag.  The [g]
    flag is in the operation applied ([exec_from], [match_all]). *)
Record regexp : Type := RegExp {
  source : regex;
  ignoreCase : bool
}.

Definition match_at (re : regexp) (before after : string) : option mstate :=
  m (ignoreCase re) (source re) Some (MState before after []).

(** The first position from the current one where the pattern matches:
    the start state and the end state of the match. *)
Fixpoint search (re : regexp) (before after : string) {struct after}
  : option (mstate * mstate) :=
  match match_at re before after with
  | Some e => Some (MState before after [], e)
  | None =>
      match after with
      | EmptyString => None
      | String c t => search re (String c before) t
      end
  end.

Fixpoint drop_to (n : nat) (before after : string) : option (string * string) :=
  match n, after with
  | 0, _ => Some (before, after)
  | S n', String c t => drop_to n' (String c before) t
  | S _, EmptyString => None
  end.

(** [re.exec(s)] of a regular expression without [g], and of one with
    [g] whose [lastIndex] is [lastIndex]. *)
Definition exec (re : regexp) (s : string) : option (mstate * mstate) :=
  search re EmptyString s.

Definition exec_from (re : regexp) (lastIndex : nat) (s : string)
  : option (mstate * mstate) :=
  match drop_to lastIndex EmptyString s with
  | Some (b, a) => search re b a
  | None => None
  end.

Definition test (re : regexp) (s : string) : bool :=
  match exec re s with Some _ => true | None => false end.

Definition test_from (re : regexp) (lastIndex : nat) (s : string) : bool :=
  match exec_from re lastIndex s with Some _ => true | None => false end.

(** [s.match(re)] with the [g] flag: every match from left to right, the
    search resuming where the last match ended (one character further
    after an empty match).  [skip] counts the characters of the last
    match still to step over.  [None] is the [null] of no match. *)
Fixpoint scan (re : regexp) (skip : nat) (before after : string)
         {struct after} : list string :=
  match skip with
  | S n =>
      match after with
      | String c t => scan re n (String c before) t
      | EmptyString => []
      end
  | 0 =>
      match match_at re before after with
      | Some e =>
          let w := between (MState before after []) e in
          w :: match after with
               | String c t => scan re (Nat.pred (String.length w))
                                    (String c before) t
               | EmptyString => []
               end
      | None =>
          match after with
          | String c t => scan re 0 (String c before) t
          | EmptyString => []
          end
      end
  end.

Definition match_all (re : regexp) (s : string) : option (list string) :=
  match scan re 0 EmptyString s with
  | [] => None
  | l => Some l
  end.

(** Building blocks for writing a pattern as it reads: an alternation
    and a sequence nest to the right, as the grammar of patterns does. *)
Fixpoint alts (r : regex) (l : list regex) : regex :=
  match l with
  | [] => r
  | r' :: t => Alt r (alts r' t)
  end.

Fixpoint seqs (r : regex) (l : list regex) : regex :=
  match l with
  | [] => r
  | r' :: t => Seq r (seqs r' t)
  end.

Fixpoint chars (s : string) : list regex :=
  match s with
  | EmptyString => []
  | String c t => Chr c :: chars t
  end.

Definition opt (r : regex) : regex := Rep r 0 (Some 1).
Definition plus (r : regex) : regex := Rep r 1 None.
Definition times (r : regex) (lo hi : nat) : regex := Rep r lo (Some hi).

(** Two static readings of a pattern, for reasoning about what it can
    match: whether it can match the empty string, and which characters a
    match that is not empty can start with (both from above). *)
Fixpoint nullable (r : regex) : bool :=
  match r with
  | Chr _ | Cls _ | Space => false
  | WordB | Look _ => true
  | Seq r1 r2 => nullable r1 && nullable r2
  | Alt r1 r2 => nullable r1 || nullable r2
  | Rep r1 min max =>
      (min =? 0) || nullable r1
      || match max with Some 0 => true | _ => false end
  | Cap _ r1 => nullable r1
  end.

Fixpoint first (ic : bool) (r : regex) (c : ascii) : bool :=
  match r with
  | Chr a => char_eq ic c a
  | Cls ranges => class_match ic ranges c
  | Space => Js.is_space c
  | WordB | Look _ => false
  | Seq r1 r2 => first ic r1 c || (nullable r1 && first ic r2 c)
  | Alt r1 r2 => first ic r1 c || first ic r2 c
  | Rep r1 _ _ => first ic r1 c
  | Cap _ r1 => first ic r1 c
  end.

(** The characters a match can hold (from above). *)
Fixpoint alphabet (ic : bool) (r : regex) (c : ascii) : bool :=
  match r with
  | Chr a => char_eq ic c a
  | Cls ranges => class_match ic ranges c
  | Space => Js.is_space c
  | WordB | Look _ => false
  | Seq r1 r2 | Alt r1 r2 => alphabet ic r1 c || alphabet ic r2 c
  | Rep r1 _ _ => alphabet ic r1 c
  | Cap _ r1 => alphabet ic r1 c
  end.

(** [y] is reached from [x] by reading [w]. *)
Definition reads (x : mstate) (w : string) (y : mstate) : Prop :=
  remaining x = (w ++ remaining y)%string
  /\ consumed y = rev_append w (consumed x).

(** The strings a pattern can match, read off its syntax: an assertion
    matches the empty string, whatever the context. *)
Fixpoint pow (P : string -> Prop) (n : nat) (w : string) : Prop :=
  match n with
  | 0 => w = EmptyString
  | S n' => exists u v, w = (u ++ v)%string /\ P u /\ pow P n' v
  end.

Definition count_ok (min : nat) (max : option nat) (n : nat) : Prop :=
  match max with
  | Some h => Nat.min min h <= n <= h
  | None => min <= n
  end.

Fixpoint language (ic : bool) (r : regex) (w : string) : Prop :=
  match r with
  | Chr c => exists a, w = String a EmptyString /\ char_eq ic a c = true
  | Cls ranges =>
      exists a, w = String a EmptyString /\ class_match ic ranges a = true
  | Space => exists a, w = String a EmptyString /\ Js.is_space a = true
  | WordB | Look _ => w = EmptyString
  | Seq r1 r2 =>
      exists u v, w = (u ++ v)%string /\ language ic r1 u /\ language ic r2 v
  | Alt r1 r2 => language ic r1 w \/ language ic r2 w
  | Rep r1 min max =>
      exists n, count_ok min max n /\ pow (language ic r1) n w
  | Cap _ r1 => language ic r1 w
  end.

(** What a successful run of a matcher tells: the continuation accepted
    a state reached by reading some [w] of [P]. *)
Definition accepts (P : string -> Prop) (k : cont) (x z : mstate) : Prop :=
  exists w y, reads x w y /\ k y = Some z /\ P w.

(** Whether a match is found depends on the continuation only through
    the states it accepts: a continuation that accepts every state the
    first one accepts finds a match when the first one does. *)
Definition covers (x : mstate) (k k' : cont) : Prop :=
  forall w y z, reads x w y -> k y = Some z -> exists z', k' y = Some z'.

(** Two continuations that answer the same at every state reached from
    [x]. *)
Definition same_on (x : mstate) (k k' : cont) : Prop :=
  forall w y, reads x w y -> k y = k' y.

End Regex.

(* ================================================================== *)
(** * The concrete syntax of patterns *)

Module Syntax.
Import Regex.

(** A parser for the part of the pattern grammar the script uses:
    alternation, sequence, the quantifiers [?], [+], [*], [{n}], [{n,}]
    and [{n,m}], groups, the lookahead [(?=...)], classes of characters
    and ranges, and the escapes [\b], [\s] and [\c] for a character.
    Capture groups are numbered by their opening parenthesis, from 1. *)

Definition parsed : Type := option (regex * string * nat).

Fixpoint read_number (acc : nat) (seen : bool) (s : string)
  : option (nat * string) :=
  match s with
  | String c t =>
      if Js.is_digit c then read_number (10 * acc + (Js.code c - 48)) true t
      else if seen then Some (acc, s) else None
  | EmptyString => if seen then Some (acc, s) else None
  end.

(** The quantifier at the head of [s], if there is one. *)
Definition read_quantifier (s : string)
  : option (nat * option nat * string) :=
  match s with
  | String "?" t => Some (0, Some 1, t)
  | String "+" t => Some (1, None, t)
  | String "*" t => Some (0, None, t)
  | String "{" t =>
      match read_number 0 false t with
      | Some (lo, String "}" t') => Some (lo, Some lo, t')
      | Some (lo, String "," (String "}" t')) => Some (lo, None, t')
      | Some (lo, String "," t') =>
          match read_number 0 false t' with
          | Some (hi, String "}" t'') => Some (lo, Some hi, t'')
          | _ => None
          end
      | _ => None
      end
  | _ => None
  end.

(** The members of a class, after its opening bracket. *)
Fixpoint read_class (s : string) : option (list (ascii * ascii) * string) :=
  match s with
  | EmptyString => None
  | String "]" t => Some ([], t)
  | String c (String "-" (String d t)) =>
      if Ascii.eqb d "]" then Some ([(c, c); ("-", "-")]%char, t)
      else match read_class t with
           | Some (l, t') => Some ((c, d) :: l, t')
           | None => None
           end
  | String c t =>
      match read_class t with
      | Some (l, t') => Some ((c, c) :: l, t')
      | None => None
      end
  end.

Definition is_syntax (c : ascii) : bool :=
  existsb (Ascii.eqb c) ["("; ")"; "["; "]"; "{"; "}"; "|"; "?"; "+"; "*";
                         "\"; "^"; "$"; "."]%char.

Fixpoint disjunction (fuel : nat) (s : string) (g : nat) : parsed :=
  match fuel with
  | 0 => None
  | S fuel' =>
      match alternative fuel' s g with
      | Some (r, String "|" t, g1) =>
          match disjunction fuel' t g1 with
          | Some (r2, t2, g2) => Some (Alt r r2, t2, g2)
          | None => None
          end
      | other => other
      end
  end

with alternative (fuel : nat) (s : string) (g : nat) : parsed :=
  match fuel with
  | 0 => None
  | S fuel' =>
      match term fuel' s g with
      | Some (r, t, g1) =>
          match t with
          | EmptyString | String "|" _ | String ")" _ => Some (r, t, g1)
          | _ =>
              match alternative fuel' t g1 with
              | Some (r2, t2, g2) => Some (Seq r r2, t2, g2)
              | None => None
              end
          end
      | None => None
      end
  end

with term (fuel : nat) (s : string) (g : nat) : parsed :=
  match fuel with
  | 0 => None
  | S fuel' =>
      match atom fuel' s g with
      | Some (r, t, g1) =>
          match read_quantifier t with
          | Some (lo, hi, t') => Some (Rep r lo hi, t', g1)
          | None => Some (r, t, g1)
          end
      | None => None
      end
  end

with atom (fuel : nat) (s : string) (g : nat) : parsed :=
  match fuel with
  | 0 => None
  | S fuel' =>
      match s with
      | String "(" (String "?" (String "=" t)) =>
          match disjunction fuel' t g with
          | Some (r, String ")" t', g1) => Some (Look r, t', g1)
          | _ => None
          end
      | String "(" t =>
          match disjunction fuel' t (S g) with
          | Some (r, String ")" t', g1) => Some (Cap (S g) r, t', g1)
          | _ => None
          end
      | String "[" t =>
          match read_class t with
          | Some (l, t') => Some (Cls l, t', g)
          | None => None
          end
      | String "\" (String "b" t) => Some (WordB, t, g)
      | String "\" (String "s" t) => Some (Space, t, g)
      | String "\" (String c t) => Some (Chr c, t, g)
      | String c t => if is_syntax c then None else Some (Chr c, t, g)
      | EmptyString => None
      end
  end.

(** The pattern a text spells: the whole text must be read. *)
Definition parse (text : string) : option regex :=
  match disjunction (4 * String.length text + 4) text 0 with
  | Some (r, EmptyString, _) => Some r
  | _ => None
  end.

(** A pattern without the numbering of its groups. *)
Fixpoint plain (r : regex) : regex :=
  match r with
  | Seq r1 r2 => Seq (plain r1) (plain r2)
  | Alt r1 r2 => Alt (plain r1) (plain r2)
  | Rep r1 min max => Rep (plain r1) min max
  | Cap _ r1 => plain r1
  | Look r1 => Look (plain r1)
  | Chr _ | Cls _ | Space | WordB => r
  end.

(** Two states at the same place of the input, two results at the same
    place, two continuations that answer alike at the same place. *)
Definition same_place (x y : mstate) : Prop :=
  consumed x = consumed y /\ remaining x = remaining y.

Definition agree (a b : option mstate) : Prop :=
  match a, b with
  | Some x, Some y => same_place x y
  | None, None => True
  | _, _ => False
  end.

Definition alike (k k' : cont) : Prop :=
  forall y y', same_place y y' -> agree (k y) (k' y').

End Syntax.

(* ================================================================== *)
(** * The patterns of the script *)

Module Patterns.
Import Regex.

(** The text of the two patterns, as between the slashes of the source. *)
Definition regexIPv4_text : string :=
  "\b((25[0-5]|2[0-4][0-9]|[01]?[0-9][0-9]?)\.){3}(25[0-5]|2[0-4][0-9]|[01]?[0-9][0-9]?)\b".

Definition regexIPv6_text : string :=
  "((([0-9a-fA-F]{1,4}:){7,7}[0-9a-fA-F]{1,4}|([0-9a-fA-F]{1,4}:){1,7}:|([0-9a-fA-F]{1,4}:){1,6}:[0-9a-fA-F]{1,4}|([0-9a-fA-F]{1,4}:){1,5}(:[0-9a-fA-F]{1,4}){1,2}|([0-9a-fA-F]{1,4}:){1,4}(:[0-9a-fA-F]{1,4}){1,3}|([0-9a-fA-F]{1,4}:){1,3}(:[0-9a-fA-F]{1,4}){1,4}|([0-9a-fA-F]{1,4}:){1,2}(:[0-9a-fA-F]{1,4}){1,5}|[0-9a-fA-F]{1,4}:((:[0-9a-fA-F]{1,4}){1,6})|:((:[0-9a-fA-F]{1,4}){1,7}|:)|fe80:(:[0-9a-fA-F]{0,4}){0,4}%[0-9a-zA-Z]{1,}|::(ffff(:0{1,4}){0,1}:){0,1}((25[0-5]|(2[0-4]|1{0,1}[0-9]){0,1}[0-9])\.){3,3}(25[0-5]|(2[0-4]|1{0,1}[0-9]){0,1}[0-9])|([0-9a-fA-F]{1,4}:){1,4}:((25[0-5]|(2[0-4]|1{0,1}[0-9]){0,1}[0-9])\.){3,3}(25[0-5]|(2[0-4]|1{0,1}[0-9]){0,1}[0-9])))(?=\s|\b)".

Definition regexType_text : string := "typ ([a-z]+)".

Definition regexHostname_text : string := "([a-f0-9-]+\.local)".

Definition digit : regex := Cls [("0", "9")]%char.
Definition hex : regex := Cls [("0", "9"); ("a", "f"); ("A", "F")]%char.

(** [(25[0-5]|2[0-4][0-9]|[01]?[0-9][0-9]?)] *)
Definition octet4 : regex :=
  alts (seqs (Chr "2") [Chr "5"; Cls [("0", "5")]%char])
       [ seqs (Chr "2") [Cls [("0", "4")]%char; digit];
         seqs (opt (Cls [("0", "0"); ("1", "1")]%char)) [digit; opt digit] ].

(** [/\b((25[0-5]|2[0-4][0-9]|[01]?[0-9][0-9]?)\.){3}(25[0-5]|2[0-4][0-9]|[01]?[0-9][0-9]?)\b/] *)
Definition regexIPv4_source : regex :=
  seqs WordB [times (Seq octet4 (Chr ".")) 3 3; octet4; WordB].

Definition regexIPv4 : regexp := RegExp regexIPv4_source false.

(** [[0-9a-fA-F]{1,4}], [([0-9a-fA-F]{1,4}:)] and [(:[0-9a-fA-F]{1,4})] *)
Definition h14 : regex := times hex 1 4.
Definition hc : regex := Seq h14 (Chr ":").
Definition ch : regex := Seq (Chr ":") h14.

(** [(25[0-5]|(2[0-4]|1{0,1}[0-9]){0,1}[0-9])] *)
Definition octet6 : regex :=
  Alt (seqs (Chr "2") [Chr "5"; Cls [("0", "5")]%char])
      (Seq (times (Alt (Seq (Chr "2") (Cls [("0", "4")]%char))
                       (Seq (times (Chr "1") 0 1) digit)) 0 1)
           digit).

(** [((25[0-5]|...)\.){3,3}(25[0-5]|...)], the end of a sequence *)
Definition quad6 : list regex := [times (Seq octet6 (Chr ".")) 3 3; octet6].

(** The twelve alternatives of [regexIPv6], in the order of the source. *)
Definition ipv6_first : regex :=
  (* ([0-9a-fA-F]{1,4}:){7,7}[0-9a-fA-F]{1,4} *)
  Seq (times hc 7 7) h14.

Definition ipv6_second : regex :=
  (* ([0-9a-fA-F]{1,4}:){1,7}: *)
  Seq (times hc 1 7) (Chr ":").

Definition ipv6_rest : list regex :=
  [ ipv6_second;
    (* ([0-9a-fA-F]{1,4}:){1,6}:[0-9a-fA-F]{1,4} *)
    seqs (times hc 1 6) [Chr ":"; h14];
    (* ([0-9a-fA-F]{1,4}:){1,5}(:[0-9a-fA-F]{1,4}){1,2} *)
    Seq (times hc 1 5) (times ch 1 2);
    (* ([0-9a-fA-F]{1,4}:){1,4}(:[0-9a-fA-F]{1,4}){1,3} *)
    Seq (times hc 1 4) (times ch 1 3);
    (* ([0-9a-fA-F]{1,4}:){1,3}(:[0-9a-fA-F]{1,4}){1,4} *)
    Seq (times hc 1 3) (times ch 1 4);
    (* ([0-9a-fA-F]{1,4}:){1,2}(:[0-9a-fA-F]{1,4}){1,5} *)
    Seq (times hc 1 2) (times ch 1 5);
    (* [0-9a-fA-F]{1,4}:((:[0-9a-fA-F]{1,4}){1,6}) *)
    seqs h14 [Chr ":"; times ch 1 6];
    (* :((:[0-9a-fA-F]{1,4}){1,7}|:) *)
    Seq (Chr ":") (Alt (times ch 1 7) (Chr ":"));
    (* fe80:(:[0-9a-fA-F]{0,4}){0,4}%[0-9a-zA-Z]{1,} *)
    seqs (Chr "f")
         (chars "e80:"
          ++ [ times (Seq (Chr ":") (times hex 0 4)) 0 4;
               Chr "%";
               plus (Cls [("0", "9"); ("a", "z"); ("A", "Z")]%char) ]);
    (* ::(ffff(:0{1,4}){0,1}:){0,1}((25[0-5]|...)\.){3,3}(25[0-5]|...) *)
    seqs (Chr ":")
         ([ Chr ":";
            times (seqs (Chr "f")
                        (chars "fff"
                         ++ [ times (Seq (Chr ":") (times (Chr "0") 1 4)) 0 1;
                              Chr ":" ])) 0 1 ]
          ++ quad6);
    (* ([0-9a-fA-F]{1,4}:){1,4}:((25[0-5]|...)\.){3,3}(25[0-5]|...) *)
    seqs (times hc 1 4) (Chr ":" :: quad6) ].

(** [((alt1|...|alt12))] *)
Definition ipv6_any : regex := alts ipv6_first ipv6_rest.

(** [/((alt1|...|alt12))(?=\s|\b)/gi] *)
Definition regexIPv6_source : regex :=
  Seq ipv6_any (Look (Alt Space WordB)).

Definition regexIPv6 : regexp := RegExp regexIPv6_source true.

(** [new RegExp(`${regexIPv4.source}|${regexIPv6.source}`, 'g')]: the
    alternation of the two sources, without the [i] flag. *)
Definition regexAnyIP_text : string :=
  regexIPv4_text ++ "|" ++ regexIPv6_text.

Definition regexAnyIP : regexp :=
  RegExp (Alt regexIPv4_source regexIPv6_source) false.

(** [/typ ([a-z]+)/] *)
Definition regexType : regexp :=
  RegExp (seqs (Chr "t")
               (chars "yp " ++ [Cap 1 (plus (Cls [("a", "z")]%char))]))
         false.

(** [/([a-f0-9-]+\.local)/] *)
Definition regexHostname : regexp :=
  RegExp (Cap 1 (seqs (plus (Cls [("a", "f"); ("0", "9"); ("-", "-")]%char))
                      (chars ".local"))) false.

End Patterns.

(* ================================================================== *)
(** * Values, objects and sets of the script *)

Module Data.

(** A number, by what the script observes of it: its text in a template
    literal and whether it is falsy (zero). *)
Record number : Type := Number {
  num_text : string;
  num_falsy : bool
}.

(** A value of a parsed response or of a record of the script.  An object
    is its own properties in insertion order, each key once. *)
Inductive value : Type :=
| VUndefined
| VNull
| VBool (b : bool)
| VNum (n : number)
| VStr (s : string)
| VArr (l : list value)
| VObj (fields : list (string * value)).

Definition obj : Type := list (string * value).

Definition truthy (v : value) : bool :=
  match v with
  | VUndefined | VNull => false
  | VBool b => b
  | VNum n => negb (num_falsy n)
  | VStr s => negb (String.eqb s "")
  | VArr _ | VObj _ => true
  end.

(** [a || b] *)
Definition or_else (a b : value) : value := if truthy a then a else b.

(** The text of a value in a template literal. *)
Fixpoint to_string (v : value) : string :=
  match v with
  | VUndefined => "undefined"
  | VNull => "null"
  | VBool true => "true"
  | VBool false => "false"
  | VNum n => num_text n
  | VStr s => s
  | VArr l =>
      Js.join ","
        (map (fun x => match x with
                       | VUndefined | VNull => ""
                       | _ => to_string x
                       end) l)
  | VObj _ => "[object Object]"
  end.

(** [o.key] on an object of the script; [VUndefined] when absent. *)
Fixpoint get (o : obj) (key : string) : value :=
  match o with
  | [] => VUndefined
  | (k, v) :: t => if String.eqb k key then v else get t key
  end.

Definition has (o : obj) (key : string) : bool :=
  existsb (fun kv => String.eqb (fst kv) key) o.

(** [o.key = v]: the property keeps its place when it exists. *)
Fixpoint set (o : obj) (key : string) (v : value) : obj :=
  match o with
  | [] => [(key, v)]
  | (k, w) :: t =>
      if String.eqb k key then (k, v) :: t else (k, w) :: set t key v
  end.

(** [{ ...a, ...b }]: the properties of [b] assigned onto [a] in order. *)
Definition spread (a b : obj) : obj :=
  fold_left (fun o kv => set o (fst kv) (snd kv)) b a.

(** [data.key] of a parsed payload that is not [null]: a property of an
    object, [undefined] on any other value (none of the keys the script
    reads is a property of a string, number, boolean or array). *)
Definition field (data : value) (key : string) : value :=
  match data with
  | VObj fields => get fields key
  | _ => VUndefined
  end.

(** A [Set] of strings, in insertion order. *)
Definition set_has (s : list string) (x : string) : bool :=
  existsb (String.eqb x) s.

Definition set_add (s : list string) (x : string) : list string :=
  if set_has s x then s else s ++ [x].

(** [new Set(l)] *)
Definition set_of (l : list string) : list string :=
  fold_left set_add l [].

End Data.

(* ================================================================== *)
(** * The network, as the script sees it *)

Module Net.
Import Data.

(** A settled promise: the value it resolves to, or the [message] of the
    error it rejects with. *)
Inductive outcome (A : Type) : Type :=
| Resolved (a : A)
| Rejected (message : string).
Arguments Rejected {A} message.

(** What the script reads of a [fetch] response. *)
Record response : Type := Response {
  ok : bool;
  status : nat;
  text : outcome string;      (* response.text() *)
  json : outcome value        (* response.json() *)
}.

(** An outbound call: a [fetch] of a URL, or the POST of [logToServer]
    to [/api/log] with its [logContent]. *)
Inductive request : Type :=
| Fetch (url : string)
| PostLog (logContent : string).

(** Effects of the script: the calls issued so far, in order. *)
Definition io (A : Type) : Type := list request -> A * list request.

Definition ret {A : Type} (a : A) : io A := fun tr => (a, tr).

Definition bind {A B : Type} (c : io A) (k : A -> io B) : io B :=
  fun tr => let (a, tr') := c tr in k a tr'.

Definition issue {A : Type} (rq : request) (answer : A) : io A :=
  fun tr => (answer, tr ++ [rq]).

(** [xs.map(f)] where [f] issues calls: left to right. *)
Fixpoint mapM {A B : Type} (f : A -> io B) (l : list A) : io (list B) :=
  match l with
  | [] => ret []
  | x :: t => bind (f x) (fun y => bind (mapM f t) (fun ys => ret (y :: ys)))
  end.

Definition run {A : Type} (c : io A) : A * list request := c [].

End Net.

Declare Scope io_scope.
Delimit Scope io_scope with io.
Notation "x <- c ;; k" := (Net.bind c (fun x => k))
  (at level 61, c at next level, right associativity) : io_scope.

(* ================================================================== *)
(** * The script *)

Module Script.
Import Data Net Regex Patterns.
Local Open Scope string_scope.
Local Open Scope io_scope.

Definition nl : string := String (ascii_of_nat 10) EmptyString.

(** What the page has for the script to connect with: no
    [RTCPeerConnection] at all; one whose set-up throws ([new
    RTCPeerConnection], [addEventListener] or [createDataChannel], which
    the script calls outside any [try]); or one that is set up and
    listens. *)
Inductive connection : Type :=
| NoRTC
| SetupThrows
| Listening.

(** The environment of one run: the connection the page gives, the
    candidate of each [icecandidate] event delivered while the handler
    is registered ([None] for an event without one), the answers of the
    three services and the page values the report prints. *)
Record env : Type := Env {
  page : connection;
  ice_events : list (option string);
  (** ipify: the [ip] of the payload ([None] when the payload has none);
      rejected when the fetch or the parsing of the payload throws. *)
  ipify : outcome (option string);
  (** ipapi.co, by URL. *)
  ipapi : string -> outcome response;
  localDateTime : string;     (* now.toLocaleString(...) *)
  userAgent : string;         (* navigator.userAgent *)
  fingerprint_json : string   (* JSON.stringify(fingerprint, null, 2) *)
}.

(** The script gets to listen and to set its timer: the page has an
    [RTCPeerConnection] and setting the connection up does not throw. *)
Definition rtc_available (e : env) : bool :=
  match page e with
  | Listening => true
  | NoRTC | SetupThrows => false
  end.

(** ** [logToServer] *)

(** The answer of [/api/log] only selects a console message. *)
Definition logToServer (content : string) : io unit :=
  issue (PostLog content) tt.

(** ** [getGeoData] *)

Definition geo_url (ip : string) : string :=
  "https://ipapi.co/" ++ ip ++ "/json/".

Definition error_record (message : string) : obj :=
  [("error", VStr ("Error fetching GeoIP: " ++ message))].

(** The message of the TypeError of [data.country_name] on a payload
    that is [null] or [undefined] (the wording of V8). *)
Definition null_read_message (payload : string) : string :=
  "Cannot read properties of " ++ payload ++ " (reading 'country_name')".

Definition geo_record (data : value) : obj :=
  [ ("country", or_else (field data "country_name") (VStr "Unknown"));
    ("city", or_else (field data "city") (VStr "Unknown"));
    ("postal_code", or_else (field data "postal") (VStr "Unknown"));
    ("time_zone", or_else (field data "timezone") (VStr "Unknown"));
    ("latitude", or_else (field data "latitude") (VStr "Unknown"));
    ("longitude", or_else (field data "longitude") (VStr "Unknown"));
    ("isVPN", or_else (field data "hosting") (VBool false));
    ("org", or_else (field data "org") (VStr "Unknown"));
    ("asn", or_else (field data "asn") (VStr "Unknown")) ].

(** The record [getGeoData] builds from the settled fetch. *)
Definition geo_of_outcome (ip : string) (o : outcome response) : obj :=
  match o with
  | Rejected message => error_record message
  | Resolved r =>
      if negb (ok r) then
        match text r with
        | Rejected message => error_record message
        | Resolved errorText =>
            [("error",
              VStr ("Failed to fetch GeoIP for " ++ ip ++ ". Status: "
                    ++ Js.nat_to_string (status r) ++ ". Details: "
                    ++ errorText))]
        end
      else
        match json r with
        | Rejected message => error_record message
        | Resolved VNull => error_record (null_read_message "null")
        | Resolved VUndefined => error_record (null_read_message "undefined")
        | Resolved data => geo_record data
        end
  end.

Definition getGeoData (e : env) (ip : string) : io obj :=
  r <- issue (Fetch (geo_url ip)) (ipapi e (geo_url ip)) ;;
  ret (geo_of_outcome ip r).

(** ** [isPrivateIP] *)

(** [parts[i]] of [ip.split('.').map(part => parseInt(part, 10))]:
    [None] for [NaN] and for a missing element, which every comparison
    of the script answers alike. *)
Definition part (parts : list (option Z)) (i : nat) : option Z :=
  nth i parts None.

Definition num_eq (a : option Z) (n : Z) : bool :=
  match a with Some z => Z.eqb z n | None => false end.

Definition num_ge (a : option Z) (n : Z) : bool :=
  match a with Some z => Z.leb n z | None => false end.

Definition num_le (a : option Z) (n : Z) : bool :=
  match a with Some z => Z.leb z n | None => false end.

Definition isPrivateIP (ip : string) : bool :=
  if test regexIPv4 ip then
    let parts := map Js.parseInt10 (Js.split "." ip) in
    num_eq (part parts 0) 10 ||
    (num_eq (part parts 0) 172 && num_ge (part parts 1) 16
       && num_le (part parts 1) 31) ||
    (num_eq (part parts 0) 192 && num_eq (part parts 1) 168)
  else
    (* regexIPv6.lastIndex = 0 *)
    if test_from regexIPv6 0 ip then
      Js.startsWith (Js.toLowerCase ip) "fc"
      || Js.startsWith (Js.toLowerCase ip) "fd"
    else false.

(** ** The candidate handler of [runLeakTest] *)

(** A count of [iceCandidateTypes]: a number, or the string that [+ 1]
    makes of a value that is not a number. *)
Inductive count : Type :=
| CNum (n : nat)
| CStr (s : string).

Definition tally : Type := list (string * count).

Fixpoint tally_get (t : tally) (key : string) : option count :=
  match t with
  | [] => None
  | (k, v) :: r => if String.eqb k key then Some v else tally_get r key
  end.

Fixpoint tally_set (t : tally) (key : string) (v : count) : tally :=
  match t with
  | [] => [(key, v)]
  | (k, w) :: r =>
      if String.eqb k key then (k, v) :: r else (k, w) :: tally_set r key v
  end.

(** The text of the function that a key without an own property finds on
    [Object.prototype] when the key is [constructor], the one inherited
    name that [[a-z]+] can spell. *)
Definition object_constructor_text : string :=
  "function Object() { [native code] }".

(** [types[key] = (types[key] || 0) + 1] *)
Definition bump (t : tally) (key : string) : tally :=
  tally_set t key
    match tally_get t key with
    | Some (CNum n) => CNum (n + 1)
    | Some (CStr s) => if String.eqb s "" then CNum 1 else CStr (s ++ "1")
    | None =>
        if String.eqb key "constructor"
        then CStr (object_constructor_text ++ "1")
        else CNum 1
    end.

(** The state the handler closes over. *)
Record collected : Type := Collected {
  uniqueLeakedIPs : list string;
  iceCandidateTypes : tally;
  localHostnames : list string
}.

Definition start : collected :=
  Collected [] [("host", CNum 0); ("srflx", CNum 0); ("relay", CNum 0)] [].

(** [m[1]] of a match. *)
Definition group1 (r : option (mstate * mstate)) : option string :=
  match r with
  | Some (_, e) => get_group 1 (groups e)
  | None => None
  end.

(** The addresses of one candidate line: [candidate.match(...)]. *)
Definition extract (candidate : string) : option (list string) :=
  match_all regexAnyIP candidate.

(** The type label of one candidate line. *)
Definition candidate_type (candidate : string) : option string :=
  match group1 (exec regexType candidate) with
  | Some t => if String.eqb t "" then None else Some t
  | None => None
  end.

Definition onicecandidate (st : collected) (ice : option string)
  : collected :=
  match ice with
  | None => st
  | Some candidate =>
      if String.eqb candidate "" then st
      else
        let types :=
          match candidate_type candidate with
          | Some t => bump (iceCandidateTypes st) t
          | None => iceCandidateTypes st
          end in
        let hostnames :=
          if Js.includes candidate ".local " then
            match group1 (exec regexHostname candidate) with
            | Some h => set_add (localHostnames st) h
            | None => localHostnames st
            end
          else localHostnames st in
        let ips :=
          match extract candidate with
          | Some ips => fold_left set_add ips (uniqueLeakedIPs st)
          | None => uniqueLeakedIPs st
          end in
        Collected ips types hostnames
  end.

(** The state when the timer fires. *)
Definition collect (events : list (option string)) : collected :=
  fold_left onicecandidate events start.

(** ** The report *)

Definition dq : string := String (ascii_of_nat 34) EmptyString.

(** [JSON.stringify(iceCandidateTypes)]; no key and no string count
    holds a character that JSON escapes. *)
Definition json_count (c : count) : string :=
  match c with
  | CNum n => Js.nat_to_string n
  | CStr s => dq ++ s ++ dq
  end.

Definition json_tally (t : tally) : string :=
  "{" ++ Js.join ","
           (map (fun kv => dq ++ fst kv ++ dq ++ ":" ++ json_count (snd kv)) t)
      ++ "}".

Definition ipify_url : string := "https://api.ipify.org?format=json".

(** [primaryPublicIp]: a string, or [None] for [undefined]. *)
Definition fetch_primary (e : env) : io (option string) :=
  r <- issue (Fetch ipify_url) (ipify e) ;;
  ret match r with
      | Resolved ip => ip
      | Rejected _ => Some "Unknown"
      end.

(** [ip => ip && ip !== 'Unknown'] *)
Definition wanted (ip : option string) : bool :=
  match ip with
  | Some s => negb (String.eqb s "") && negb (String.eqb s "Unknown")
  | None => false
  end.

Definition strings (l : list (option string)) : list string :=
  flat_map (fun o => match o with Some s => [s] | None => [] end) l.

(** [new Set([primaryPublicIp, ...uniqueLeakedIPs].filter(...))] *)
Definition allUniqueIps (primaryPublicIp : option string)
           (leaked : list string) : list string :=
  set_of (strings (filter wanted (primaryPublicIp :: map Some leaked))).

(** [getGeoData(ip).then(data => ({ ip, ...data }))] *)
Definition resolve (e : env) (ip : string) : io obj :=
  data <- getGeoData e ip ;;
  ret (spread [("ip", VStr ip)] data).

(** [v === primaryPublicIp] *)
Definition strict_eq (v : value) (p : option string) : bool :=
  match v, p with
  | VStr s, Some t => String.eqb s t
  | VUndefined, None => true
  | _, _ => false
  end.

Definition ipType (primaryPublicIp : option string) (geo : obj) : string :=
  if strict_eq (get geo "ip") primaryPublicIp then "Public (Primary)"
  else if isPrivateIP (to_string (get geo "ip")) then "Local (Private)"
  else "Leaked".

(** What one round of [geoResults.forEach] appends to [logContent]: the
    address and its type, then the lines of the geo record. *)
Definition geo_lines (geo : obj) : string :=
  (if truthy (get geo "isVPN")
   then "  - Note: This IP may be a VPN/Proxy." ++ nl else "")
  ++ "  - Country: " ++ to_string (get geo "country") ++ nl
  ++ "  - City: " ++ to_string (get geo "city") ++ nl
  ++ "  - Postal Code: " ++ to_string (get geo "postal_code") ++ nl
  ++ "  - Time Zone: " ++ to_string (get geo "time_zone") ++ nl
  ++ "  - Coordinates: " ++ to_string (get geo "latitude") ++ ", "
  ++ to_string (get geo "longitude") ++ nl ++ nl.

Definition block (primaryPublicIp : option string) (geo : obj) : string :=
  "IP: " ++ to_string (get geo "ip") ++ nl
  ++ "  - Type: " ++ ipType primaryPublicIp geo ++ nl
  ++ geo_lines geo.

Definition webrtc_section (st : collected) : string :=
  "--- WebRTC Information ---" ++ nl
  ++ "ICE Candidate Types: " ++ json_tally (iceCandidateTypes st) ++ nl
  ++ (if (0 <? List.length (localHostnames st))%nat
      then "mDNS Hostnames: " ++ Js.join ", " (localHostnames st) ++ nl
      else "").

Definition ip_section (primaryPublicIp : option string)
           (geoResults : list obj) : string :=
  nl ++ "--- IP Information ---" ++ nl
  ++ String.concat "" (map (block primaryPublicIp) geoResults).

Definition logContent (e : env) (st : collected)
           (primaryPublicIp : option string) (geoResults : list obj)
  : string :=
  "--- New Client Entry: " ++ localDateTime e ++ " (Local Time) ---" ++ nl
  ++ "User Agent: " ++ userAgent e ++ nl ++ nl
  ++ webrtc_section st
  ++ ip_section primaryPublicIp geoResults
  ++ "--- Browser Fingerprint ---" ++ nl
  ++ fingerprint_json e.

(** ** [runLeakTest] *)

(** The body of the timer callback, after the handler is removed. *)
Definition report (e : env) (st : collected) : io unit :=
  primaryPublicIp <- fetch_primary e ;;
  geoResults <- mapM (resolve e)
                     (allUniqueIps primaryPublicIp (uniqueLeakedIPs st)) ;;
  logToServer (logContent e st primaryPublicIp geoResults).

(** An exception of the set-up leaves [runLeakTest] before the timer is
    set: no lookup and no report. *)
Definition runLeakTest (e : env) : io unit :=
  match page e with
  | NoRTC => logToServer "WebRTC is not supported by this browser."
  | SetupThrows => ret tt
  | Listening => report e (collect (ice_events e))
  end.

End Script.


(* ================================================================== *)
(** * One run, read back *)

Module Run.
Import Data Net Regex Patterns Script.
Local Open Scope string_scope.

(** [primaryPublicIp] when the report is assembled. *)
Definition primary_of (e : env) : option string :=
  match ipify e with
  | Resolved ip => ip
  | Rejected _ => Some "Unknown"
  end.

(** The members of [allUniqueIps], in the order of the set. *)
Definition addresses (e : env) : list string :=
  allUniqueIps (primary_of e) (uniqueLeakedIPs (collect (ice_events e))).

(** The element of [geoResults] for one address. *)
Definition geo_result (e : env) (ip : string) : obj :=
  spread [("ip", VStr ip)] (geo_of_outcome ip (ipapi e (geo_url ip))).

Definition geoResults (e : env) : list obj :=
  map (geo_result e) (addresses e).

(** The report of a run that reaches the timer callback. *)
Definition final_report (e : env) : string :=
  logContent e (collect (ice_events e)) (primary_of e) (geoResults e).

(** The address and the label of each block of the report, in order. *)
Definition labels (e : env) : list (string * string) :=
  map (fun geo => (to_string (get geo "ip"), ipType (primary_of e) geo))
      (geoResults e).

(** The calls of a run, and among them the reports handed to the sink
    and the URLs fetched. *)
Definition requests (e : env) : list request := snd (run (runLeakTest e)).

Definition posts (tr : list request) : list string :=
  flat_map (fun rq => match rq with PostLog c => [c] | Fetch _ => [] end) tr.

Definition fetches (tr : list request) : list string :=
  flat_map (fun rq => match rq with Fetch u => [u] | PostLog _ => [] end) tr.

End Run.

(* ================================================================== *)
(** * The words of the specification *)

Module Spec.
Import Data Net Regex Patterns Script Run.
Local Open Scope string_scope.

(** A pattern matches the whole of a string. *)
Definition whole (ic : bool) (r : regex) (s : string) : bool :=
  match m ic r (fun y => match remaining y with
                         | EmptyString => Some y
                         | String _ _ => None
                         end) (MState "" s []) with
  | Some _ => true
  | None => false
  end.

(** An IPv4 literal: four octets of [regexIPv4] joined by dots.  An IPv6
    literal: one of the twelve forms of [regexIPv6]. *)
Definition ipv4_literal (s : string) : bool :=
  whole false (Seq (times (Seq octet4 (Chr ".")) 3 3) octet4) s.

Definition ipv6_literal (s : string) : bool := whole true ipv6_any s.

Fixpoint decimal_go (acc : nat) (s : string) : option nat :=
  match s with
  | EmptyString => Some acc
  | String c t =>
      if Js.is_digit c then decimal_go (10 * acc + (Js.code c - 48)) t
      else None
  end.

(** The number an octet spells. *)
Definition decimal (s : string) : option nat :=
  match s with
  | EmptyString => None
  | _ => decimal_go 0 s
  end.

(** The classification policy of the specification: for an IPv4 literal
    by its first two octets, for an IPv6 literal by its first two
    characters. *)
Definition spec_private (s : string) : bool :=
  if ipv4_literal s then
    match map decimal (Js.split "." s) with
    | Some a :: Some b :: _ =>
        (a =? 10)%nat
        || ((a =? 172)%nat && (16 <=? b)%nat && (b <=? 31)%nat)
        || ((a =? 192)%nat && (b =? 168)%nat)
    | _ => false
    end
  else if ipv6_literal s then
    Js.startsWith (Js.toLowerCase s) "fc"
    || Js.startsWith (Js.toLowerCase s) "fd"
  else false.

(** The label of an address, from the address and the primary public
    address alone. *)
Definition label_of (primary : option string) (ip : string) : string :=
  if strict_eq (VStr ip) primary then "Public (Primary)"
  else if isPrivateIP ip then "Local (Private)"
  else "Leaked".

(** The fields of a geo record: its key, the key of the upstream payload
    it is read from, and its default. *)
Definition geo_fields : list (string * string * value) :=
  [ ("country", "country_name", VStr "Unknown");
    ("city", "city", VStr "Unknown");
    ("postal_code", "postal", VStr "Unknown");
    ("time_zone", "timezone", VStr "Unknown");
    ("latitude", "latitude", VStr "Unknown");
    ("longitude", "longitude", VStr "Unknown");
    ("isVPN", "hosting", VBool false);
    ("org", "org", VStr "Unknown");
    ("asn", "asn", VStr "Unknown") ].

(** A lookup that fails entirely: a network error, a status that is not
    a success, or a payload that is malformed (it does not parse, or it
    is [null]). *)
Definition lookup_failed (o : outcome response) : bool :=
  match o with
  | Rejected _ => true
  | Resolved r =>
      negb (ok r)
      || match json r with
         | Rejected _ | Resolved VNull | Resolved VUndefined => true
         | Resolved _ => false
         end
  end.

(** The run [e] with the lookup of [ip0] made to fail. *)
Definition with_failure (e : env) (ip0 message : string) : env :=
  Env (page e) (ice_events e) (ipify e)
      (fun url => if String.eqb url (geo_url ip0) then Rejected message
                  else ipapi e url)
      (localDateTime e) (userAgent e) (fingerprint_json e).

(** A string that is not empty and starts as a match of the address
    pattern can start. *)
Definition address_like (ip : string) : Prop :=
  exists c t, ip = String c t /\ first false (source regexAnyIP) c = true.

(** The candidate lines of the scenarios of the specification. *)
Definition host_line : string :=
  "candidate:1 1 UDP 2122260223 192.168.1.5 54321 typ host".

Definition srflx_line : string :=
  "candidate:2 1 UDP 1686052607 203.0.113.9 54321 typ srflx".

Definition ipv6_line : string :=
  "candidate:1 1 UDP 2122260223 fc00::abcd 54321 typ host".

(** The text [{"host":1,"srflx":1,"relay":0}]. *)
Definition tally_text : string :=
  "{" ++ dq ++ "host" ++ dq ++ ":1," ++ dq ++ "srflx" ++ dq ++ ":1,"
  ++ dq ++ "relay" ++ dq ++ ":0}".

(** The text [{"host":0,"srflx":0,"relay":0}]. *)
Definition empty_tally_text : string :=
  "{" ++ dq ++ "host" ++ dq ++ ":0," ++ dq ++ "srflx" ++ dq ++ ":0,"
  ++ dq ++ "relay" ++ dq ++ ":0}".

(** The text of a report, written out.  One block: the address, its
    type, and the geo lines of the record [geo]. *)
Definition block_text (geo : obj) (ip label : string) : string :=
  "IP: " ++ ip ++ nl
  ++ "  - Type: " ++ label ++ nl
  ++ (if truthy (get geo "isVPN")
      then "  - Note: This IP may be a VPN/Proxy." ++ nl else "")
  ++ "  - Country: " ++ to_string (get geo "country") ++ nl
  ++ "  - City: " ++ to_string (get geo "city") ++ nl
  ++ "  - Postal Code: " ++ to_string (get geo "postal_code") ++ nl
  ++ "  - Time Zone: " ++ to_string (get geo "time_zone") ++ nl
  ++ "  - Coordinates: " ++ to_string (get geo "latitude") ++ ", "
  ++ to_string (get geo "longitude") ++ nl ++ nl.

(** The whole report of the run [e] when the tally prints as [tally],
    the hostnames are [hostnames] and the blocks are those of the
    (address, type) pairs [blocks], in this order and no other: header,
    WebRTC section, IP section, fingerprint. *)
Definition report_text (e : env) (tally : string) (hostnames : list string)
           (blocks : list (string * string)) : string :=
  "--- New Client Entry: " ++ localDateTime e ++ " (Local Time) ---" ++ nl
  ++ "User Agent: " ++ userAgent e ++ nl ++ nl
  ++ "--- WebRTC Information ---" ++ nl
  ++ "ICE Candidate Types: " ++ tally ++ nl
  ++ match hostnames with
     | [] => ""
     | _ :: _ => "mDNS Hostnames: " ++ Js.join ", " hostnames ++ nl
     end
  ++ nl ++ "--- IP Information ---" ++ nl
  ++ String.concat ""
       (map (fun b => block_text (geo_result e (fst b)) (fst b) (snd b))
            blocks)
  ++ "--- Browser Fingerprint ---" ++ nl
  ++ fingerprint_json e.

(** Sample answers of ipapi.co and sample runs. *)
Definition payload : value :=
  VObj [ ("country_name", VStr "United States");
         ("city", VStr "Mountain View");
         ("latitude", VNum (Number "37.4056" false));
         ("longitude", VNum (Number "-122.0775" false)) ].

Definition answer (data : value) : outcome response :=
  Resolved (Response true 200 (Resolved "") (Resolved data)).

Definition all_resolve (url : string) : outcome response := answer payload.

Definition all_fail (url : string) : outcome response :=
  Rejected "Failed to fetch".

Definition sample (events : list (option string))
           (primary : outcome (option string))
           (geo : string -> outcome response) : env :=
  Env Listening events primary geo "11/02/2026, 10:00:00.000" "Mozilla/5.0"
      "{}".

Definition scenario : env :=
  sample [Some srflx_line; Some host_line] (Resolved (Some "8.8.8.8"))
         all_resolve.

End Spec.

(* ================================================================== *)
(** * The log server *)

Module Server.
Import Data Script.
Local Open Scope string_scope.

(** One POST that reaches the handler of [/log]: the parsed body
    ([req.body] after [express.json]), the text of
    [new Date().toISOString()] and whether [fs.appendFile] succeeds (a
    failed append leaves the file as it was). *)
Record post : Type := Post {
  body : value;
  now : string;
  write_ok : bool
}.

(** What the handler answers: a status and a text, or nothing of its own
    when it throws (destructuring a body that is [null] or [undefined]). *)
Inductive reply : Type :=
| Reply (status : nat) (text : string)
| Thrown.

Definition logEntry (now : string) (logContent : value) : string :=
  "--- New Client Entry: " ++ now ++ " ---" ++ nl
  ++ to_string logContent ++ nl ++ nl.

(** The handler of [app.post('/log', ...)] on the content of [leak.log]
    (empty when the file does not exist yet): the reply and the content
    afterwards. *)
Definition handle (file : string) (rq : post) : reply * string :=
  match body rq with
  | VNull | VUndefined => (Thrown, file)
  | b =>
      let logContent := field b "logContent" in
      if negb (truthy logContent)
      then (Reply 400 "No log content received.", file)
      else if write_ok rq
           then (Reply 200 "Log received.",
                 file ++ logEntry (now rq) logContent)
           else (Reply 500 "Failed to write to log file.", file)
  end.

(** The server over a sequence of posts, one after the other. *)
Definition serve (file : string) (rqs : list post) : list reply * string :=
  fold_left (fun acc rq =>
               let (r, f) := handle (snd acc) rq in
               ((fst acc ++ [r])%list, f))
            rqs ([], file).

(** The body that [logToServer c] sends, once parsed:
    [{ logContent: c }]. *)
Definition body_of (content : string) : value :=
  VObj [("logContent", VStr content)].

(** The reply to one post and the entry it leaves in the log, read off
    the handler on an empty log. *)
Definition reply_of (rq : post) : reply := fst (handle "" rq).

Definition entry_of (rq : post) : string := snd (handle "" rq).

End Server.

(* ================================================================== *)
(** * The navigator part of the fingerprint *)

Module Fingerprint.
Import Data Net.
Local Open Scope string_scope.

(** The allow-list of [runLeakTest]. *)
Definition properties : list string :=
  [ "userAgent"; "language"; "languages"; "platform"; "hardwareConcurrency";
    "deviceMemory"; "doNotTrack"; "cookieEnabled"; "maxTouchPoints"; "vendor";
    "product"; "productSub"; "vendorSub"; "oscpu"; "buildID"; "appCodeName";
    "appName"; "appVersion"; "pdfViewerEnabled"; "webdriver";
    "globalPrivacyControl" ].

(** [window.navigator], by what the loop asks of it: [None] when
    [prop in nav] is false, else what reading [nav[prop]] gives, a value
    or an exception. *)
Definition navigator : Type := string -> option (outcome value).

(** One round of [properties.forEach]. *)
Definition probe (nav : navigator) (fingerprint : obj) (prop : string)
  : obj :=
  match nav prop with
  | Some (Resolved v) => set fingerprint prop v
  | Some (Rejected _) => fingerprint     (* ignore inaccessible properties *)
  | None => fingerprint
  end.

(** [fingerprint] after the loop over any list of names. *)
Definition probe_all (nav : navigator) (props : list string) : obj :=
  fold_left (probe nav) props [].

Definition navigator_fingerprint (nav : navigator) : obj :=
  probe_all nav properties.

(** What the loop reads of a name, and whether it can. *)
Definition read (nav : navigator) (prop : string) : value :=
  match nav prop with
  | Some (Resolved v) => v
  | _ => VUndefined
  end.

Definition readable (nav : navigator) (prop : string) : bool :=
  match nav prop with
  | Some (Resolved _) => true
  | _ => false
  end.

End Fingerprint.

(* ================================================================== *)
(** * More of one run, read back *)

Module Views.
Import Js Data Net Regex Patterns Script Run Spec.
Local Open Scope string_scope.

(** The candidate line of an event that the handler looks at. *)
Definition line_of (ice : option string) : option string :=
  match ice with
  | Some candidate => if String.eqb candidate "" then None else Some candidate
  | None => None
  end.

(** The addresses, the type label and the hostname of one event. *)
Definition extracted_of (ice : option string) : list string :=
  match line_of ice with
  | Some candidate =>
      match extract candidate with Some ips => ips | None => [] end
  | None => []
  end.

Definition type_of (ice : option string) : option string :=
  match line_of ice with
  | Some candidate => candidate_type candidate
  | None => None
  end.

Definition hostname_of (ice : option string) : list string :=
  match line_of ice with
  | Some candidate =>
      if Js.includes candidate ".local " then
        match group1 (exec regexHostname candidate) with
        | Some h => [h]
        | None => []
        end
      else []
  | None => []
  end.

(** How many events of a list carry the type label [t]. *)
Definition occurrences (t : string) (events : list (option string)) : nat :=
  List.length
    (filter (fun ev => match type_of ev with
                       | Some u => String.eqb u t
                       | None => false
                       end) events).

(** The type labels of the events of a list, in order. *)
Definition labels_seen (events : list (option string)) : list string :=
  flat_map (fun ev => match type_of ev with Some t => [t] | None => [] end)
           events.

(** The count of a label after [n] events that carry it: a number, from
    the start when [b] says the tally starts with the label, else from
    the first event on. *)
Definition counted (b : bool) (n : nat) : option count :=
  if b || (0 <? n)%nat then Some (CNum n) else None.

(** The characters of the hostname pattern before [.local]. *)
Definition hostname_char (c : ascii) : bool :=
  in_range "a" "f" c || is_digit c || Ascii.eqb c "-".

(** The text of [n] characters [1]. *)
Fixpoint ones (n : nat) : string :=
  match n with
  | 0 => ""
  | S n' => ones n' ++ "1"
  end.

(** A string without its first [n] characters. *)
Fixpoint skip_chars (n : nat) (s : string) : string :=
  match n, s with
  | S n', String _ t => skip_chars n' t
  | _, _ => s
  end.

(** A line cut into the matches of a scan and the text between them:
    [weave [g0; g1; ...] [w1; w2; ...] = g0 ++ w1 ++ g1 ++ w2 ++ ...]. *)
Fixpoint weave (gaps matches : list string) : string :=
  match gaps, matches with
  | g :: gaps', w :: matches' => g ++ w ++ weave gaps' matches'
  | g :: _, [] => g
  | [], _ => ""
  end.

(** The dotted quad of four numbers, and the policy on the first two. *)
Definition dotted (a b c d : nat) : string :=
  nat_to_string a ++ "." ++ nat_to_string b ++ "."
  ++ nat_to_string c ++ "." ++ nat_to_string d.

Definition rfc1918 (a b : nat) : bool :=
  (a =? 10)%nat
  || ((a =? 172)%nat && (16 <=? b)%nat && (b <=? 31)%nat)
  || ((a =? 192)%nat && (b =? 168)%nat).

(** The character of a decimal digit, and the text of one, two or three
    digits ([n] is the number of digits less one). *)
Definition digit_of (d : nat) : ascii := ascii_of_nat (48 + d).

Definition digits_text (n d1 d2 d3 : nat) : string :=
  match n with
  | 0 => String (digit_of d1) ""
  | 1 => String (digit_of d1) (String (digit_of d2) "")
  | _ => String (digit_of d1) (String (digit_of d2) (String (digit_of d3) ""))
  end.

(** An octet as [regexIPv4] takes it: one to three digits that spell a
    number up to 255. *)
Definition octet (o : string) : Prop :=
  (String.length o <= 3)%nat
  /\ exists n, decimal o = Some n /\ (n <= 255)%nat.

(** A pattern without assertions in which no repeated part can match
    the empty string: what it matches does not depend on the context. *)
Fixpoint plain_pattern (r : regex) : bool :=
  match r with
  | Chr _ | Cls _ | Space => true
  | WordB | Look _ => false
  | Seq r1 r2 | Alt r1 r2 => plain_pattern r1 && plain_pattern r2
  | Rep r1 _ _ => plain_pattern r1 && negb (nullable r1)
  | Cap _ r1 => plain_pattern r1
  end.

(** The lines of a geo record without any of its fields. *)
Definition undefined_lines : string :=
  "  - Country: undefined" ++ nl
  ++ "  - City: undefined" ++ nl
  ++ "  - Postal Code: undefined" ++ nl
  ++ "  - Time Zone: undefined" ++ nl
  ++ "  - Coordinates: undefined, undefined" ++ nl ++ nl.

End Views.

(* ================================================================== *)
(** * The earlier variant of the client

    [src/unnamed/part_000] holds an earlier variant of the script: the
    same two patterns, [logToServer] and [isPrivateIP], a candidate
    handler that collects addresses only, a lookup at another service
    and a report without the WebRTC section. *)

Module Legacy.
Import Data Net Regex Patterns Script Run Spec.
Local Open Scope string_scope.
Local Open Scope io_scope.

Definition geo_url (ip : string) : string :=
  "https://freeipapi.com/api/json/" ++ ip.

Definition null_read_message (payload : string) : string :=
  "Cannot read properties of " ++ payload ++ " (reading 'countryName')".

Definition geo_record (data : value) : obj :=
  [ ("country", or_else (field data "countryName") (VStr "Unknown"));
    ("city", or_else (field data "cityName") (VStr "Unknown"));
    ("postal_code", or_else (field data "zipCode") (VStr "Unknown"));
    ("time_zone", or_else (field data "timeZone") (VStr "Unknown"));
    ("latitude", or_else (field data "latitude") (VStr "Unknown"));
    ("longitude", or_else (field data "longitude") (VStr "Unknown"));
    ("isVPN", or_else (field data "isProxy") (VBool false)) ].

Definition geo_of_outcome (ip : string) (o : outcome response) : obj :=
  match o with
  | Rejected message => error_record message
  | Resolved r =>
      if negb (ok r) then
        match text r with
        | Rejected message => error_record message
        | Resolved errorText =>
            [("error",
              VStr ("Failed to fetch GeoIP for " ++ ip ++ ". Status: "
                    ++ Js.nat_to_string (status r) ++ ". Details: "
                    ++ errorText))]
        end
      else
        match json r with
        | Rejected message => error_record message
        | Resolved VNull => error_record (null_read_message "null")
        | Resolved VUndefined => error_record (null_read_message "undefined")
        | Resolved data => geo_record data
        end
  end.

(** The oracle [ipapi] of the environment answers this service too: it
    is asked by URL. *)
Definition getGeoData (e : env) (ip : string) : io obj :=
  r <- issue (Fetch (geo_url ip)) (ipapi e (geo_url ip)) ;;
  ret (geo_of_outcome ip r).

(** The handler closes over [uniqueLeakedIPs] alone. *)
Definition onicecandidate (uniqueLeakedIPs : list string)
           (ice : option string) : list string :=
  match ice with
  | None => uniqueLeakedIPs
  | Some candidate =>
      if String.eqb candidate "" then uniqueLeakedIPs
      else
        match extract candidate with
        | Some ips => fold_left set_add ips uniqueLeakedIPs
        | None => uniqueLeakedIPs
        end
  end.

Definition collect (events : list (option string)) : list string :=
  fold_left onicecandidate events [].

Definition resolve (e : env) (ip : string) : io obj :=
  data <- getGeoData e ip ;;
  ret (spread [("ip", VStr ip)] data).

(** The report; [localDateTime] of the environment stands for the text
    of [new Date().toISOString()]. *)
Definition logContent (e : env) (primaryPublicIp : option string)
           (geoResults : list obj) : string :=
  "--- New Client Entry: " ++ localDateTime e ++ " ---" ++ nl
  ++ "User Agent: " ++ userAgent e ++ nl ++ nl
  ++ "--- IP Information ---" ++ nl
  ++ String.concat "" (map (block primaryPublicIp) geoResults)
  ++ "--- Browser Fingerprint ---" ++ nl
  ++ fingerprint_json e.

Definition report (e : env) (leaked : list string) : io unit :=
  primaryPublicIp <- fetch_primary e ;;
  geoResults <- mapM (resolve e) (allUniqueIps primaryPublicIp leaked) ;;
  logToServer (logContent e primaryPublicIp geoResults).

Definition runLeakTest (e : env) : io unit :=
  match page e with
  | NoRTC => logToServer "WebRTC is not supported by this browser."
  | SetupThrows => ret tt
  | Listening => report e (collect (ice_events e))
  end.

(** The members of [allUniqueIps], the elements of [geoResults], the
    report and the address and label of each block, as for the current
    script. *)
Definition addresses (e : env) : list string :=
  allUniqueIps (primary_of e) (collect (ice_events e)).

Definition geo_result (e : env) (ip : string) : obj :=
  spread [("ip", VStr ip)] (geo_of_outcome ip (ipapi e (geo_url ip))).

Definition final_report (e : env) : string :=
  logContent e (primary_of e) (map (geo_result e) (addresses e)).

Definition labels (e : env) : list (string * string) :=
  map (fun geo => (to_string (get geo "ip"), ipType (primary_of e) geo))
      (map (geo_result e) (addresses e)).

(** The whole report of the earlier variant, written out, when its
    blocks are those of the (address, type) pairs [blocks]. *)
Definition report_text (e : env) (blocks : list (string * string))
  : string :=
  "--- New Client Entry: " ++ localDateTime e ++ " ---" ++ nl
  ++ "User Agent: " ++ userAgent e ++ nl ++ nl
  ++ "--- IP Information ---" ++ nl
  ++ String.concat ""
       (map (fun b => block_text (geo_result e (fst b)) (fst b) (snd b))
            blocks)
  ++ "--- Browser Fingerprint ---" ++ nl
  ++ fingerprint_json e.

End Legacy.

(* ================================================================== *)
(** * Facts about strings and the matcher *)

Module RegexFacts.
Import Regex Syntax.
Local Open Scope string_scope.

Lemma append_assoc (a b c : string) : (a ++ b) ++ c = a ++ (b ++ c).
Proof. induction a as [|x a IH]; simpl; [reflexivity | now rewrite IH]. Qed.

Lemma append_empty_r (a : string) : a ++ "" = a.
Proof. induction a as [|x a IH]; simpl; [reflexivity | now rewrite IH]. Qed.

Lemma length_append (a b : string) :
  String.length (a ++ b) = (String.length a + String.length b)%nat.
Proof. induction a as [|x a IH]; simpl; [reflexivity | now rewrite IH]. Qed.

Lemma append_eq_empty (a b : string) : a ++ b = "" -> a = "" /\ b = "".
Proof. destruct a; simpl; [auto | discriminate]. Qed.

Lemma rev_append_app (a b c : string) :
  rev_append (a ++ b) c = rev_append b (rev_append a c).
Proof.
  revert c; induction a as [|x a IH]; intros c; simpl; [reflexivity|].
  apply IH.
Qed.

Lemma rev_append_spec (w b : string) :
  rev_append w b = rev_append w "" ++ b.
Proof.
  revert b; induction w as [|x w IH]; intros b; simpl; [reflexivity|].
  rewrite (IH (String x b)), (IH (String x "")), append_assoc.
  reflexivity.
Qed.

Lemma length_rev_append (w b : string) :
  String.length (rev_append w b) = (String.length w + String.length b)%nat.
Proof.
  revert b; induction w as [|x w IH]; intros b; simpl; [reflexivity|].
  rewrite IH; simpl; lia.
Qed.

Lemma rev_append_twice (w b c : string) :
  rev_append (rev_append w b) c = rev_append b (w ++ c).
Proof.
  revert b; induction w as [|x w IH]; intros b; simpl; [reflexivity|].
  rewrite IH; reflexivity.
Qed.

Lemma take_append (a b : string) : take (String.length a) (a ++ b) = a.
Proof. induction a as [|x a IH]; simpl; [now destruct b | now rewrite IH]. Qed.

(** The text between two states is the text read from one to the other. *)
Lemma between_reads (x y : mstate) (w : string) :
  reads x w y -> between x y = w.
Proof.
  intros [_ Hc]. unfold between. rewrite Hc, length_rev_append.
  replace (String.length w + String.length (consumed x)
           - String.length (consumed x))%nat with (String.length w) by lia.
  rewrite (rev_append_spec w (consumed x)).
  assert (E : take (String.length w) (rev_append w "" ++ consumed x)
              = rev_append w "").
  { rewrite <- (take_append (rev_append w "") (consumed x)) at 2.
    f_equal. rewrite length_rev_append; simpl; lia. }
  rewrite E, rev_append_twice. simpl. apply append_empty_r.
Qed.

Lemma reads_refl (x : mstate) : reads x "" x.
Proof. split; reflexivity. Qed.

Lemma reads_trans (x y z : mstate) (u v : string) :
  reads x u y -> reads y v z -> reads x (u ++ v) z.
Proof.
  intros [H1 H2] [H3 H4]; split.
  - rewrite H1, H3, append_assoc; reflexivity.
  - rewrite H4, H2, rev_append_app; reflexivity.
Qed.

Lemma accepts_weaken (P Q : string -> Prop) k x z :
  accepts P k x z -> (forall w, P w -> Q w) -> accepts Q k x z.
Proof.
  intros (w & y & R & K & H) HQ. exists w, y. auto.
Qed.

Lemma accepts_empty (P : string -> Prop) (k : cont) x y z :
  consumed y = consumed x -> remaining y = remaining x ->
  k y = Some z -> P "" -> accepts P k x z.
Proof.
  intros Hc Hr K H. exists "", y; repeat split; auto.
Qed.

(** Two runs in sequence. *)
Lemma accepts_seq (P1 P2 P : string -> Prop) (k1 k : cont) x z :
  accepts P1 k1 x z ->
  (forall y, k1 y = Some z -> accepts P2 k y z) ->
  (forall u v, P1 u -> P2 v -> P (u ++ v)) ->
  accepts P k x z.
Proof.
  intros (w1 & y1 & R1 & K1 & H1) H2 HP.
  destruct (H2 y1 K1) as (w2 & y2 & R2 & K2 & H2').
  exists (w1 ++ w2), y2. split; [eapply reads_trans; eauto|]. auto.
Qed.

Lemma step_if_sound (b : ascii -> bool) (k : cont) x z :
  step_if b k x = Some z ->
  accepts (fun w => exists a, w = String a "" /\ b a = true) k x z.
Proof.
  unfold step_if. destruct (remaining x) as [|c t] eqn:E; [discriminate|].
  destruct (b c) eqn:B; [|discriminate]. intros K.
  exists (String c ""), (advance c t x). repeat split; simpl; eauto.
Qed.

Lemma repeat_sound (mr : cont -> cont) (P : string -> Prop) (k : cont) :
  (forall k' x z, mr k' x = Some z -> accepts P k' x z) ->
  forall fuel min x z,
    repeat mr k fuel min x = Some z ->
    accepts (fun w => exists n, (Nat.min min fuel <= n <= fuel)%nat
                                /\ pow P n w) k x z.
Proof.
  intros Hmr. induction fuel as [|fuel IH]; intros min x z H; simpl in H.
  - eapply accepts_empty; eauto. exists 0%nat. split; [lia | reflexivity].
  - assert (Hd : forall y,
               (if (min =? 0)%nat && same_index y x then None
                else repeat mr k fuel (Nat.pred min) y) = Some z ->
               accepts (fun w => exists n,
                            (Nat.min (Nat.pred min) fuel <= n <= fuel)%nat
                            /\ pow P n w) k y z).
    { intros y D. destruct ((min =? 0)%nat && same_index y x);
        [discriminate|]. apply (IH _ _ _ D). }
    assert (Hs : forall u v,
               P u ->
               (exists n, (Nat.min (Nat.pred min) fuel <= n <= fuel)%nat
                          /\ pow P n v) ->
               exists n, (Nat.min min (S fuel) <= n <= S fuel)%nat
                         /\ pow P n (u ++ v)).
    { intros u v Hu (n & B & Hv). exists (S n). split; [lia|].
      simpl. eauto. }
    destruct (min =? 0)%nat eqn:Em.
    + destruct (mr _ x) as [z'|] eqn:Ed.
      * injection H as ->. apply Hmr in Ed.
        eapply accepts_seq; [exact Ed | exact Hd | exact Hs].
      * eapply accepts_empty; eauto. apply Nat.eqb_eq in Em. subst min.
        exists 0%nat. split; [simpl; lia | reflexivity].
    + apply Hmr in H.
      eapply accepts_seq; [exact H | exact Hd | exact Hs].
Qed.

(** Soundness of the matcher: what it matches is in the language of the
    pattern. *)
Lemma m_language (ic : bool) (r : regex) :
  forall k x z, m ic r k x = Some z -> accepts (language ic r) k x z.
Proof.
  induction r as [c|ranges| | |r1 IH1 r2 IH2|r1 IH1 r2 IH2|r IH min max
                  |n r IH|r IH]; intros k x z H; simpl in H.
  - now apply step_if_sound in H.
  - now apply step_if_sound in H.
  - now apply step_if_sound in H.
  - destruct (xorb _ _); [|discriminate].
    eapply accepts_empty; eauto. reflexivity.
  - apply IH1 in H.
    eapply accepts_seq; [exact H | intros y; apply IH2 |].
    intros u v Hu Hv. simpl. eauto.
  - destruct (m ic r1 k x) as [z'|] eqn:E.
    + injection H as ->. apply IH1 in E.
      eapply accepts_weaken; [exact E|]. intros w Hw. now left.
    + apply IH2 in H.
      eapply accepts_weaken; [exact H|]. intros w Hw. now right.
  - apply (repeat_sound (m ic r) (P := language ic r)) in H; [|exact IH].
    eapply accepts_weaken; [exact H|]. simpl.
    intros w (n & B & Hw). exists n. split; [|exact Hw].
    unfold count_ok, iterations in *. destruct max; lia.
  - apply IH in H. destruct H as (w & y & R & K & L).
    exists w, (MState (consumed y) (remaining y)
                      (set_group n (between x y) (groups y))).
    repeat split; auto; apply R.
  - destruct (m ic r Some x) as [y|]; [|discriminate].
    eapply accepts_empty; [| |exact H|reflexivity]; reflexivity.
Qed.

Lemma pow_static (P : string -> Prop) (nul : Prop) (f : ascii -> bool) :
  (forall w, P w -> (w = "" -> nul)
                    /\ forall c t, w = String c t -> f c = true) ->
  forall n w, pow P n w ->
              (w = "" -> n = 0%nat \/ nul)
              /\ forall c t, w = String c t -> f c = true.
Proof.
  intros HP. induction n as [|n IH]; intros w H; simpl in H.
  - subst w. split; [auto | discriminate].
  - destruct H as (u & v & -> & Hu & Hv).
    destruct (HP u Hu) as [N1 F1]. destruct (IH v Hv) as [N2 F2].
    split.
    + intros E. apply append_eq_empty in E. destruct E. auto.
    + intros c t E. destruct u as [|a u]; simpl in E.
      * eapply F2; eauto.
      * injection E as -> _. eapply F1; eauto.
Qed.

(** The two static readings hold of the language. *)
Lemma language_static (ic : bool) (r : regex) :
  forall w, language ic r w ->
            (w = "" -> nullable r = true)
            /\ forall c t, w = String c t -> first ic r c = true.
Proof.
  induction r as [c|ranges| | |r1 IH1 r2 IH2|r1 IH1 r2 IH2|r IH min max
                  |n r IH|r IH]; intros w H; simpl in H.
  - destruct H as (a & -> & H). split; [discriminate|].
    intros c' t E. injection E as <- _. exact H.
  - destruct H as (a & -> & H). split; [discriminate|].
    intros c' t E. injection E as <- _. exact H.
  - destruct H as (a & -> & H). split; [discriminate|].
    intros c' t E. injection E as <- _. exact H.
  - subst w. split; [reflexivity | discriminate].
  - destruct H as (u & v & -> & Hu & Hv).
    destruct (IH1 u Hu) as [N1 F1]. destruct (IH2 v Hv) as [N2 F2].
    simpl. split.
    + intros E. apply append_eq_empty in E. destruct E.
      now rewrite N1, N2.
    + intros c t E. destruct u as [|a u]; simpl in E.
      * rewrite (N1 eq_refl), (F2 c t E). apply orb_true_r.
      * injection E as <- _. now rewrite (F1 a u eq_refl).
  - simpl. destruct H as [H | H].
    + destruct (IH1 w H) as [N F]. split.
      * intros E. now rewrite (N E).
      * intros c t E. now rewrite (F c t E).
    + destruct (IH2 w H) as [N F]. split.
      * intros E. rewrite (N E). apply orb_true_r.
      * intros c t E. rewrite (F c t E). apply orb_true_r.
  - destruct H as (n & B & H).
    destruct (@pow_static _ _ _ IH n w H) as [N F].
    simpl. split; [|exact F].
    intros E. destruct (N E) as [-> | ->].
    + unfold count_ok in B. destruct max as [[|h]|].
      * apply orb_true_r.
      * destruct min; [reflexivity | simpl in B; lia].
      * destruct min; [reflexivity | lia].
    + now rewrite orb_true_r.
  - simpl. auto.
  - subst w. split; [reflexivity | discriminate].
Qed.

Lemma covers_after (x y : mstate) (w : string) (k k' : cont) :
  reads x w y -> covers x k k' -> covers y k k'.
Proof.
  intros R H w' y' z R' K. eapply H; [eapply reads_trans; eauto | eauto].
Qed.

Lemma step_if_mono (b : ascii -> bool) (k k' : cont) x z :
  step_if b k x = Some z -> covers x k k' ->
  exists z', step_if b k' x = Some z'.
Proof.
  unfold step_if. destruct (remaining x) as [|c t] eqn:E; [discriminate|].
  destruct (b c); [|discriminate]. intros K H.
  apply (H (String c "") (advance c t x) z); [|exact K].
  split; simpl; auto.
Qed.

Lemma repeat_mono (mr : cont -> cont) (k k' : cont) :
  (forall k1 k2 x z, mr k1 x = Some z -> covers x k1 k2 ->
                     exists z', mr k2 x = Some z') ->
  forall fuel min x z,
    repeat mr k fuel min x = Some z -> covers x k k' ->
    exists z', repeat mr k' fuel min x = Some z'.
Proof.
  intros Hmr. induction fuel as [|fuel IH]; intros min x z H C; simpl in *.
  - eapply C; [apply reads_refl | exact H].
  - set (d := fun y => if (min =? 0)%nat && same_index y x then None
                       else repeat mr k fuel (Nat.pred min) y) in *.
    set (d' := fun y => if (min =? 0)%nat && same_index y x then None
                        else repeat mr k' fuel (Nat.pred min) y).
    assert (D : covers x d d').
    { intros w y z0 R K. unfold d, d' in *.
      destruct ((min =? 0)%nat && same_index y x); [discriminate|].
      eapply IH; [exact K | eapply covers_after; eauto]. }
    destruct (min =? 0)%nat.
    + destruct (mr d x) as [z0|] eqn:E.
      * destruct (Hmr _ _ _ _ E D) as (z' & ->). eauto.
      * destruct (mr d' x) as [z0|]; [eauto|].
        eapply C; [apply reads_refl | exact H].
    + eapply Hmr; eauto.
Qed.

Lemma m_mono (ic : bool) (r : regex) :
  forall k k' x z, m ic r k x = Some z -> covers x k k' ->
                   exists z', m ic r k' x = Some z'.
Proof.
  induction r as [c|ranges| | |r1 IH1 r2 IH2|r1 IH1 r2 IH2|r IH min max
                  |n r IH|r IH]; intros k k' x z H C; simpl in *.
  - eapply step_if_mono; eauto.
  - eapply step_if_mono; eauto.
  - eapply step_if_mono; eauto.
  - destruct (xorb _ _); [|discriminate].
    eapply C; [apply reads_refl | exact H].
  - eapply IH1; [exact H|]. intros w y z0 R K.
    eapply IH2; [exact K | eapply covers_after; eauto].
  - destruct (m ic r1 k x) as [z0|] eqn:E.
    + destruct (IH1 _ _ _ _ E C) as (z' & ->). eauto.
    + destruct (m ic r1 k' x) as [z0|]; [eauto|]. eapply IH2; eauto.
  - eapply repeat_mono; eauto.
  - eapply IH; [exact H|]. intros w y z0 R K. cbv beta in *.
    apply (C w _ z0); [split; simpl; apply R | exact K].
  - destruct (m ic r Some x) as [y|]; [|discriminate].
    apply (C "" _ z); [split; reflexivity | exact H].
Qed.

Lemma string_forall_append (p : ascii -> bool) (u v : string) :
  Js.string_forall p (u ++ v)
  = Js.string_forall p u && Js.string_forall p v.
Proof.
  induction u as [|c u IH]; simpl; [reflexivity|].
  rewrite IH. apply andb_assoc.
Qed.

Lemma string_forall_impl (p q : ascii -> bool) (w : string) :
  (forall c, p c = true -> q c = true) ->
  Js.string_forall p w = true -> Js.string_forall q w = true.
Proof.
  intros H. induction w as [|c w IH]; simpl; [reflexivity|].
  intros E. apply andb_prop in E. destruct E as [E1 E2].
  now rewrite (H c E1), (IH E2).
Qed.

Lemma pow_alphabet (P : string -> Prop) (p : ascii -> bool) :
  (forall w, P w -> Js.string_forall p w = true) ->
  forall n w, pow P n w -> Js.string_forall p w = true.
Proof.
  intros HP. induction n as [|n IH]; intros w H; simpl in H.
  - now subst w.
  - destruct H as (u & v & -> & Hu & Hv).
    now rewrite string_forall_append, (HP u Hu), (IH v Hv).
Qed.

(** Every character of a match is in the alphabet of the pattern. *)
Lemma language_alphabet (ic : bool) (r : regex) :
  forall w, language ic r w -> Js.string_forall (alphabet ic r) w = true.
Proof.
  induction r as [c|ranges| | |r1 IH1 r2 IH2|r1 IH1 r2 IH2|r IH min max
                  |n r IH|r IH]; intros w H; simpl in H.
  - destruct H as (a & -> & H). simpl. now rewrite H.
  - destruct H as (a & -> & H). simpl. now rewrite H.
  - destruct H as (a & -> & H). simpl. now rewrite H.
  - now subst w.
  - destruct H as (u & v & -> & Hu & Hv).
    rewrite string_forall_append. apply andb_true_intro. split.
    + eapply string_forall_impl; [|apply (IH1 u Hu)].
      simpl. intros c ->. reflexivity.
    + eapply string_forall_impl; [|apply (IH2 v Hv)].
      simpl. intros c ->. apply orb_true_r.
  - destruct H as [H | H].
    + eapply string_forall_impl; [|apply (IH1 w H)].
      simpl. intros c ->. reflexivity.
    + eapply string_forall_impl; [|apply (IH2 w H)].
      simpl. intros c ->. apply orb_true_r.
  - destruct H as (n & _ & H). simpl.
    eapply pow_alphabet; [exact IH | exact H].
  - simpl. auto.
  - now subst w.
Qed.

Lemma same_on_after (x y : mstate) (w : string) (k k' : cont) :
  reads x w y -> same_on x k k' -> same_on y k k'.
Proof.
  intros R H w' y' R'. eapply H, reads_trans; eauto.
Qed.

Lemma reads_length (x y : mstate) (w : string) :
  reads x w y ->
  String.length (remaining x)
  = (String.length w + String.length (remaining y))%nat.
Proof. intros [R _]. now rewrite R, length_append. Qed.

Lemma step_if_local (b : ascii -> bool) (k k' : cont) x :
  same_on x k k' -> step_if b k x = step_if b k' x.
Proof.
  intros H. unfold step_if. destruct (remaining x) as [|c t] eqn:E;
    [reflexivity|].
  destruct (b c); [|reflexivity].
  apply (H (String c "")). split; simpl; auto.
Qed.

Lemma repeat_local (mr : cont -> cont) (k k' : cont) :
  (forall k1 k2 x, same_on x k1 k2 -> mr k1 x = mr k2 x) ->
  forall fuel min x,
    same_on x k k' -> repeat mr k fuel min x = repeat mr k' fuel min x.
Proof.
  intros Hmr. induction fuel as [|fuel IH]; intros min x H; simpl.
  - apply (H ""), reads_refl.
  - set (d := fun y => if (min =? 0)%nat && same_index y x then None
                       else repeat mr k fuel (Nat.pred min) y).
    set (d' := fun y => if (min =? 0)%nat && same_index y x then None
                        else repeat mr k' fuel (Nat.pred min) y).
    assert (D : same_on x d d').
    { intros w y R. unfold d, d'.
      destruct ((min =? 0)%nat && same_index y x); [reflexivity|].
      apply IH. eapply same_on_after; eauto. }
    rewrite (Hmr d d' x D), (H "" x (reads_refl x)). reflexivity.
Qed.

(** A run of the matcher looks at its continuation only at the states
    it reaches. *)
Lemma m_local (ic : bool) (r : regex) :
  forall k k' x, same_on x k k' -> m ic r k x = m ic r k' x.
Proof.
  induction r as [c|ranges| | |r1 IH1 r2 IH2|r1 IH1 r2 IH2|r IH min max
                  |n r IH|r IH]; intros k k' x H; simpl.
  - now apply step_if_local.
  - now apply step_if_local.
  - now apply step_if_local.
  - now rewrite (H "" x (reads_refl x)).
  - apply IH1. intros w y R. apply IH2. eapply same_on_after; eauto.
  - now rewrite (IH1 k k' x H), (IH2 k k' x H).
  - now apply repeat_local.
  - apply IH. intros w y R. apply (H w). split; simpl; apply R.
  - destruct (m ic r Some x); [|reflexivity].
    apply (H ""). split; reflexivity.
Qed.

Lemma m_none (ic : bool) (r : regex) (x : mstate) :
  m ic r (fun _ => None) x = None.
Proof.
  destruct (m ic r (fun _ => None) x) as [z|] eqn:E; [|reflexivity].
  apply m_language in E. destruct E as (w & y & _ & K & _). discriminate.
Qed.

(** The bound on the iterations of a quantifier without a maximum is
    enough: one more iteration allowed changes nothing. *)
Lemma repeat_stable (ic : bool) (r : regex) (k : cont) :
  forall fuel min x,
    (min + String.length (remaining x) <= fuel)%nat ->
    repeat (m ic r) k (S fuel) min x = repeat (m ic r) k fuel min x.
Proof.
  induction fuel as [|fuel IH]; intros min x B.
  - assert (min = 0%nat) by lia. subst min. cbn [repeat Nat.eqb andb].
    rewrite (@m_local ic r _ (fun _ => None) x); [now rewrite m_none|].
    intros w y R. apply reads_length in R. unfold same_index.
    replace (String.length (remaining y) =? String.length (remaining x))%nat
      with true; [reflexivity|]. symmetry. apply Nat.eqb_eq. lia.
  - change (repeat (m ic r) k (S (S fuel)) min x)
      with (let d := fun y =>
                if (min =? 0)%nat && same_index y x then None
                else repeat (m ic r) k (S fuel) (Nat.pred min) y in
            if (min =? 0)%nat
            then match m ic r d x with Some z => Some z | None => k x end
            else m ic r d x).
    change (repeat (m ic r) k (S fuel) min x)
      with (let d := fun y =>
                if (min =? 0)%nat && same_index y x then None
                else repeat (m ic r) k fuel (Nat.pred min) y in
            if (min =? 0)%nat
            then match m ic r d x with Some z => Some z | None => k x end
            else m ic r d x).
    cbv zeta.
    rewrite (@m_local ic r
               (fun y => if (min =? 0)%nat && same_index y x then None
                         else repeat (m ic r) k (S fuel) (Nat.pred min) y)
               (fun y => if (min =? 0)%nat && same_index y x then None
                         else repeat (m ic r) k fuel (Nat.pred min) y) x);
      [reflexivity|].
    intros w y R. apply reads_length in R.
    destruct ((min =? 0)%nat && same_index y x) eqn:E; [reflexivity|].
    apply IH. destruct (Nat.eqb_spec min 0) as [-> | N]; simpl in *.
    + unfold same_index in E. apply Nat.eqb_neq in E. lia.
    + lia.
Qed.

Lemma repeat_enough (ic : bool) (r : regex) (k : cont) (min : nat)
      (x : mstate) (extra : nat) :
  repeat (m ic r) k (iterations min None x + extra) min x
  = repeat (m ic r) k (iterations min None x) min x.
Proof.
  induction extra as [|extra IH].
  - now rewrite Nat.add_0_r.
  - rewrite Nat.add_succ_r, repeat_stable; [exact IH|].
    unfold iterations. lia.
Qed.

(** The patterns of the script are what their source texts spell.  The
    two patterns whose captures the script reads are spelled with their
    group; in the address patterns, of which no capture is read, the
    groups are plain grouping. *)
Lemma patterns_as_written :
  Syntax.parse Patterns.regexType_text
  = Some (source Patterns.regexType)
  /\ Syntax.parse Patterns.regexHostname_text
     = Some (source Patterns.regexHostname)
  /\ option_map Syntax.plain (Syntax.parse Patterns.regexIPv4_text)
     = Some (source Patterns.regexIPv4)
  /\ option_map Syntax.plain (Syntax.parse Patterns.regexIPv6_text)
     = Some (source Patterns.regexIPv6)
  /\ option_map Syntax.plain (Syntax.parse Patterns.regexAnyIP_text)
     = Some (source Patterns.regexAnyIP).
Proof. repeat split; vm_compute; reflexivity. Qed.

Lemma step_if_alike (b : ascii -> bool) (k k' : cont) x x' :
  same_place x x' -> alike k k' -> agree (step_if b k x) (step_if b k' x').
Proof.
  intros [Hc Hr] H. unfold step_if. rewrite <- Hr.
  destruct (remaining x) as [|c t]; [exact I|].
  destruct (b c); [|exact I]. apply H. split; simpl; congruence.
Qed.

Lemma repeat_alike (mr mr' : cont -> cont) (k k' : cont) :
  (forall k1 k2 x x', same_place x x' -> alike k1 k2 ->
                      agree (mr k1 x) (mr' k2 x')) ->
  alike k k' ->
  forall fuel min x x',
    same_place x x' ->
    agree (repeat mr k fuel min x) (repeat mr' k' fuel min x').
Proof.
  intros Hmr Hk. induction fuel as [|fuel IH]; intros min x x' S; simpl.
  - now apply Hk.
  - set (d := fun y => if (min =? 0)%nat && same_index y x then None
                       else repeat mr k fuel (Nat.pred min) y).
    set (d' := fun y => if (min =? 0)%nat && same_index y x' then None
                        else repeat mr' k' fuel (Nat.pred min) y).
    assert (D : alike d d').
    { intros y y' Sy. unfold d, d', same_index.
      destruct S as [_ Sr], Sy as [Syc Syr]. rewrite <- Sr, <- Syr.
      destruct ((min =? 0)%nat && _); [exact I|].
      apply IH. split; assumption. }
    pose proof (Hmr d d' x x' S D) as A.
    destruct (min =? 0)%nat; [|exact A].
    destruct (mr d x), (mr' d' x'); try contradiction; [exact A|].
    now apply Hk.
Qed.

(** Matching ends at the same places with and without the groups. *)
Lemma m_plain (ic : bool) (r : regex) :
  forall k k' x x', same_place x x' -> alike k k' ->
                    agree (m ic r k x) (m ic (plain r) k' x').
Proof.
  induction r as [c|ranges| | |r1 IH1 r2 IH2|r1 IH1 r2 IH2|r IH min max
                  |n r IH|r IH]; intros k k' x x' S H; simpl.
  - now apply step_if_alike.
  - now apply step_if_alike.
  - now apply step_if_alike.
  - unfold word_before, word_after. destruct S as [Sc Sr] eqn:ES.
    rewrite <- Sc, <- Sr. destruct (xorb _ _); [|exact I].
    apply H. split; assumption.
  - apply IH1; [exact S|]. intros y y' Sy. now apply IH2.
  - pose proof (IH1 k k' x x' S H) as A.
    destruct (m ic r1 k x), (m ic (plain r1) k' x'); try contradiction;
      [exact A|]. now apply IH2.
  - unfold iterations. destruct S as [Sc Sr] eqn:ES. rewrite <- Sr.
    apply repeat_alike; [exact IH | exact H | split; assumption].
  - apply IH; [exact S|]. intros y y' [Sc Sr]. apply H.
    split; simpl; assumption.
  - assert (A : agree (m ic r Some x) (m ic (plain r) Some x')).
    { apply IH; [exact S|]. intros y y' Sy. exact Sy. }
    destruct (m ic r Some x), (m ic (plain r) Some x'); try contradiction;
      [|exact I].
    apply H. destruct S. split; simpl; assumption.
Qed.

Lemma match_at_plain (r : regex) (ic : bool) (before after : string) :
  agree (match_at (RegExp r ic) before after)
        (match_at (RegExp (plain r) ic) before after).
Proof.
  unfold match_at; simpl. apply m_plain.
  - split; reflexivity.
  - intros y y' Sy. exact Sy.
Qed.

Lemma search_plain (r : regex) (ic : bool) (s : string) :
  forall b,
    match search (RegExp (plain r) ic) b s with
    | Some _ => true
    | None => false
    end
    = match search (RegExp r ic) b s with
      | Some _ => true
      | None => false
      end.
Proof.
  induction s as [|c s IH]; intros b; simpl;
    pose proof (match_at_plain r ic b) as A.
  - specialize (A "").
    destruct (match_at (RegExp r ic) b ""),
      (match_at (RegExp (plain r) ic) b ""); try contradiction; reflexivity.
  - specialize (A (String c s)).
    destruct (match_at (RegExp r ic) b (String c s)),
      (match_at (RegExp (plain r) ic) b (String c s));
      try contradiction; [reflexivity|]. apply IH.
Qed.

Lemma test_plain (r : regex) (ic : bool) (s : string) :
  test (RegExp (plain r) ic) s = test (RegExp r ic) s.
Proof. apply search_plain. Qed.

Lemma scan_plain (r : regex) (ic : bool) (after : string) :
  forall skip before,
    scan (RegExp (plain r) ic) skip before after
    = scan (RegExp r ic) skip before after.
Proof.
  induction after as [|c after IH]; intros skip before;
    destruct skip as [|skip]; simpl; try reflexivity;
    try apply IH;
    pose proof (match_at_plain r ic before) as A.
  - specialize (A "").
    destruct (match_at (RegExp r ic) before "") as [e|],
      (match_at (RegExp (plain r) ic) before "") as [e'|];
      try contradiction; [|reflexivity].
    unfold between. destruct A as [-> _]. reflexivity.
  - specialize (A (String c after)).
    destruct (match_at (RegExp r ic) before (String c after)) as [e|],
      (match_at (RegExp (plain r) ic) before (String c after)) as [e'|];
      try contradiction; [|apply IH].
    unfold between. destruct A as [-> _]. simpl. now rewrite IH.
Qed.

(** The patterns of the script match as the patterns that the source
    texts spell, groups and all. *)
Lemma patterns_match_as_written (s : string) :
  (forall r, Syntax.parse Patterns.regexAnyIP_text = Some r ->
             match_all (RegExp r false) s = match_all Patterns.regexAnyIP s)
  /\ (forall r, Syntax.parse Patterns.regexIPv4_text = Some r ->
                test (RegExp r false) s = test Patterns.regexIPv4 s)
  /\ (forall r, Syntax.parse Patterns.regexIPv6_text = Some r ->
                test_from (RegExp r true) 0 s
                = test_from Patterns.regexIPv6 0 s).
Proof.
  destruct patterns_as_written as (_ & _ & E4 & E6 & E).
  split; [|split]; intros r P.
  - rewrite P in E. simpl in E. injection E as E.
    unfold match_all, Patterns.regexAnyIP. rewrite <- E.
    now rewrite scan_plain.
  - rewrite P in E4. simpl in E4. injection E4 as E4.
    unfold Patterns.regexIPv4. rewrite <- E4. symmetry. apply test_plain.
  - rewrite P in E6. simpl in E6. injection E6 as E6.
    unfold Patterns.regexIPv6. rewrite <- E6. symmetry.
    unfold test_from, exec_from. simpl. apply search_plain.
Qed.

End RegexFacts.

(* ================================================================== *)
(** * Facts about sets and the calls of a run *)

Module RunFacts.
Import Data Net Regex Patterns Script Run Spec RegexFacts.
Local Open Scope string_scope.

Lemma set_has_in (s : list string) (x : string) :
  set_has s x = true <-> In x s.
Proof.
  unfold set_has. rewrite existsb_exists. split.
  - intros (y & Hy & E). apply String.eqb_eq in E. now subst.
  - intros H. exists x. split; [exact H | apply String.eqb_refl].
Qed.

Lemma set_add_in (s : list string) (x y : string) :
  In y (set_add s x) <-> In y s \/ y = x.
Proof.
  unfold set_add. destruct (set_has s x) eqn:E.
  - apply set_has_in in E. split; [auto | intros [H | ->]; auto].
  - rewrite in_app_iff. simpl. intuition.
Qed.

Lemma set_add_nodup (s : list string) (x : string) :
  NoDup s -> NoDup (set_add s x).
Proof.
  intros H. unfold set_add. destruct (set_has s x) eqn:E; [exact H|].
  assert (N : ~ In x s).
  { intros I. apply set_has_in in I. congruence. }
  clear E. induction H as [|a l Ha Hl IH]; simpl.
  - constructor; [intros [] | constructor].
  - constructor.
    + rewrite in_app_iff. simpl. intros [I | [<- | []]]; [auto|].
      apply N. now left.
    + apply IH. intros I. apply N. now right.
Qed.

Lemma set_add_seen (s : list string) (x : string) :
  In x s -> set_add s x = s.
Proof.
  intros H. unfold set_add. apply set_has_in in H. now rewrite H.
Qed.

Lemma fold_set_add_nodup (l s : list string) :
  NoDup s -> NoDup (fold_left set_add l s).
Proof.
  revert s; induction l as [|x l IH]; intros s H; simpl; [exact H|].
  apply IH, set_add_nodup, H.
Qed.

Lemma fold_set_add_in (l s : list string) (y : string) :
  In y (fold_left set_add l s) <-> In y s \/ In y l.
Proof.
  revert s; induction l as [|x l IH]; intros s; simpl; [intuition|].
  rewrite IH, set_add_in. intuition.
Qed.

Lemma set_of_nodup (l : list string) : NoDup (set_of l).
Proof. apply fold_set_add_nodup. constructor. Qed.

Lemma set_of_in (l : list string) (y : string) : In y (set_of l) <-> In y l.
Proof. unfold set_of. rewrite fold_set_add_in. simpl. intuition. Qed.

(** The first member of a set built from a list is the head of the list. *)
Lemma fold_set_add_head (l : list string) (a : string) (s : list string) :
  exists t, fold_left set_add l (a :: s) = a :: t.
Proof.
  revert s; induction l as [|x l IH]; intros s; simpl; [now exists s|].
  unfold set_add at 2. destruct (set_has (a :: s) x).
  - apply IH.
  - simpl. apply IH.
Qed.

(** The handler keeps the address set free of repetition. *)
Lemma onicecandidate_nodup (st : collected) (ice : option string) :
  NoDup (uniqueLeakedIPs st) ->
  NoDup (uniqueLeakedIPs (onicecandidate st ice)).
Proof.
  intros H. unfold onicecandidate. destruct ice as [candidate|]; [|exact H].
  destruct (String.eqb candidate ""); [exact H|]. simpl.
  destruct (extract candidate); [|exact H].
  apply fold_set_add_nodup, H.
Qed.

Lemma fold_onicecandidate_nodup (events : list (option string))
      (st : collected) :
  NoDup (uniqueLeakedIPs st) ->
  NoDup (uniqueLeakedIPs (fold_left onicecandidate events st)).
Proof.
  revert st; induction events as [|ev events IH]; intros st H; simpl;
    [exact H|].
  apply IH, onicecandidate_nodup, H.
Qed.

(** [mapM] issues the calls of its elements in order. *)
Lemma mapM_resolve (e : env) (ips : list string) (tr : list request) :
  mapM (resolve e) ips tr
  = (map (geo_result e) ips,
     (tr ++ map (fun ip => Fetch (geo_url ip)) ips)%list).
Proof.
  revert tr; induction ips as [|ip ips IH]; intros tr; simpl.
  - unfold ret. now rewrite app_nil_r.
  - unfold bind at 1. unfold resolve at 1, getGeoData, bind, issue, ret.
    rewrite IH. rewrite <- app_assoc. reflexivity.
Qed.

(** The calls of a run that reaches the timer callback: the lookup of
    the primary address, one lookup per member of [allUniqueIps] in the
    order of the set, then the report. *)
Lemma run_trace (e : env) :
  rtc_available e = true ->
  run (runLeakTest e)
  = (tt, Fetch ipify_url
         :: (map (fun ip => Fetch (geo_url ip)) (addresses e)
             ++ [PostLog (final_report e)])%list).
Proof.
  unfold rtc_available, run, runLeakTest.
  destruct (page e); try discriminate. intros _.
  unfold report, bind, fetch_primary, issue, ret. simpl.
  rewrite mapM_resolve. reflexivity.
Qed.

Lemma run_without_rtc (e : env) :
  page e = NoRTC ->
  run (runLeakTest e)
  = (tt, [PostLog "WebRTC is not supported by this browser."]).
Proof. intros H. unfold run, runLeakTest. now rewrite H. Qed.

(** A run whose set-up throws makes no call. *)
Lemma run_setup_throws (e : env) :
  page e = SetupThrows -> run (runLeakTest e) = (tt, []).
Proof. intros H. unfold run, runLeakTest. now rewrite H. Qed.

(** The extraction yields address-like strings only. *)
Lemma scan_address_like (re : regexp) :
  nullable (source re) = false ->
  forall after skip before ip,
    In ip (scan re skip before after) ->
    exists c t, ip = String c t
                /\ first (ignoreCase re) (source re) c = true.
Proof.
  intros Hn.
  assert (Hm : forall before after e,
             match_at re before after = Some e ->
             exists c t, between (MState before after []) e = String c t
                         /\ first (ignoreCase re) (source re) c = true).
  { intros before after e H. apply m_language in H.
    destruct H as (w & y & R & K & L). injection K as <-.
    destruct (language_static _ _ _ L) as [N F].
    rewrite (between_reads R). destruct w as [|c t].
    - rewrite Hn in N. discriminate (N eq_refl).
    - exists c, t. split; [reflexivity | eapply F; reflexivity]. }
  induction after as [|a after IH]; intros skip before ip H.
  - destruct skip; simpl in H; [|contradiction].
    destruct (match_at re before "") as [e|] eqn:E; [|contradiction].
    destruct H as [<- | []]. eapply Hm; eauto.
  - destruct skip; simpl in H.
    + destruct (match_at re before (String a after)) as [e|] eqn:E.
      * destruct H as [<- | H]; [eapply Hm; eauto | eapply IH; eauto].
      * eapply IH; eauto.
    + eapply IH; eauto.
Qed.

Lemma extract_address_like (candidate : string) (ips : list string) :
  extract candidate = Some ips ->
  forall ip, In ip ips -> address_like ip.
Proof.
  unfold extract, match_all. intros H ip I.
  apply (@scan_address_like regexAnyIP eq_refl candidate 0 "" ip).
  destruct (scan regexAnyIP 0 "" candidate); [discriminate|].
  now injection H as ->.
Qed.

Lemma onicecandidate_in (st : collected) (ice : option string) (ip : string) :
  In ip (uniqueLeakedIPs (onicecandidate st ice)) ->
  In ip (uniqueLeakedIPs st)
  \/ exists candidate ips,
       ice = Some candidate /\ extract candidate = Some ips /\ In ip ips.
Proof.
  unfold onicecandidate. destruct ice as [candidate|]; [|auto].
  destruct (String.eqb candidate ""); [auto|]. simpl.
  destruct (extract candidate) as [ips|] eqn:E; [|auto].
  rewrite fold_set_add_in. intros [H | H]; [auto|].
  right. exists candidate, ips. auto.
Qed.

Lemma onicecandidate_keeps (st : collected) (ice : option string)
      (ip : string) :
  In ip (uniqueLeakedIPs st) ->
  In ip (uniqueLeakedIPs (onicecandidate st ice)).
Proof.
  intros H. unfold onicecandidate. destruct ice as [candidate|]; [|auto].
  destruct (String.eqb candidate ""); [auto|]. simpl.
  destruct (extract candidate); [|auto].
  apply fold_set_add_in. now left.
Qed.

Lemma fold_onicecandidate_keeps (events : list (option string))
      (st : collected) (ip : string) :
  In ip (uniqueLeakedIPs st) ->
  In ip (uniqueLeakedIPs (fold_left onicecandidate events st)).
Proof.
  revert st; induction events as [|ev events IH]; intros st H; simpl;
    [exact H|].
  apply IH, onicecandidate_keeps, H.
Qed.

(** Every member of the address set is address-like. *)
Lemma fold_onicecandidate_address_like (events : list (option string))
      (st : collected) :
  (forall ip, In ip (uniqueLeakedIPs st) -> address_like ip) ->
  forall ip, In ip (uniqueLeakedIPs (fold_left onicecandidate events st)) ->
             address_like ip.
Proof.
  revert st; induction events as [|ev events IH]; intros st H; simpl;
    [exact H|].
  apply IH. intros ip I. apply onicecandidate_in in I.
  destruct I as [I | (c & ips & _ & E & I)]; [auto|].
  eapply extract_address_like; eauto.
Qed.

Lemma collected_address_like (events : list (option string)) (ip : string) :
  In ip (uniqueLeakedIPs (collect events)) -> address_like ip.
Proof.
  apply fold_onicecandidate_address_like. intros ? [].
Qed.

(** An address-like string is neither empty nor the sentinel. *)
Lemma address_like_wanted (ip : string) :
  address_like ip -> wanted (Some ip) = true.
Proof.
  intros (c & t & -> & F). unfold wanted.
  assert (E1 : String.eqb (String c t) "" = false) by reflexivity.
  assert (E2 : String.eqb (String c t) "Unknown" = false).
  { apply String.eqb_neq. intros E. injection E as -> _.
    vm_compute in F. discriminate. }
  rewrite E1, E2. reflexivity.
Qed.

Lemma append_cancel_r (a b c : string) : a ++ c = b ++ c -> a = b.
Proof.
  revert b; induction a as [|x a IH]; intros [|y b] H; simpl in H.
  - reflexivity.
  - apply (f_equal String.length) in H. simpl in H.
    rewrite length_append in H. lia.
  - apply (f_equal String.length) in H. simpl in H.
    rewrite length_append in H. lia.
  - injection H as -> H. f_equal. now apply IH.
Qed.

Lemma geo_url_inj (a b : string) : geo_url a = geo_url b -> a = b.
Proof.
  unfold geo_url. intros H. simpl in H.
  repeat (injection H as H). now apply append_cancel_r in H.
Qed.

(** The record of a lookup never has an [ip] of its own, so the spread
    keeps the address. *)
Lemma spread_keeps_ip (ip : string) (o : outcome response) :
  get (spread [("ip", VStr ip)] (geo_of_outcome ip o)) "ip" = VStr ip.
Proof.
  destruct o as [[k st tx js]|message]; [|reflexivity].
  unfold geo_of_outcome; simpl. destruct k; simpl.
  - destruct js as [data|message]; [|reflexivity].
    destruct data; reflexivity.
  - destruct tx; reflexivity.
Qed.

Lemma geo_result_ip (e : env) (ip : string) :
  get (geo_result e ip) "ip" = VStr ip.
Proof. apply spread_keeps_ip. Qed.

Lemma ipType_geo_result (e : env) (primary : option string) (ip : string) :
  ipType primary (geo_result e ip) = label_of primary ip.
Proof. unfold ipType, label_of. now rewrite geo_result_ip. Qed.

Lemma labels_by_address (e : env) :
  labels e
  = map (fun ip => (ip, label_of (primary_of e) ip)) (addresses e).
Proof.
  unfold labels, geoResults. rewrite map_map. apply map_ext.
  intros ip. now rewrite ipType_geo_result, geo_result_ip.
Qed.

Lemma block_geo_result (e : env) (primary : option string) (ip : string) :
  block primary (geo_result e ip)
  = "IP: " ++ ip ++ nl ++ "  - Type: " ++ label_of primary ip ++ nl
    ++ geo_lines (geo_result e ip).
Proof. unfold block. now rewrite ipType_geo_result, geo_result_ip. Qed.

Lemma strings_wanted_in (l : list (option string)) (ip : string) :
  In ip (strings (filter wanted l)) <->
  In (Some ip) l /\ wanted (Some ip) = true.
Proof.
  unfold strings. rewrite in_flat_map. split.
  - intros (o & I & H). apply filter_In in I. destruct I as [I W].
    destruct o as [s|]; simpl in H; [|contradiction].
    destruct H as [-> | []]. auto.
  - intros [I W]. exists (Some ip). split; [|now left].
    apply filter_In. auto.
Qed.

(** Membership in [allUniqueIps]. *)
Lemma addresses_in (e : env) (ip : string) :
  In ip (addresses e) <->
  wanted (Some ip) = true
  /\ (primary_of e = Some ip
      \/ In ip (uniqueLeakedIPs (collect (ice_events e)))).
Proof.
  unfold addresses, allUniqueIps. rewrite set_of_in, strings_wanted_in.
  simpl. rewrite in_map_iff. split.
  - intros [[H | (x & E & I)] W]; split; auto.
    injection E as ->. auto.
  - intros [W [H | I]]; split; auto. right. now exists ip.
Qed.

Lemma addresses_nodup (e : env) : NoDup (addresses e).
Proof. apply set_of_nodup. Qed.

Lemma wanted_not_sentinel (ip : string) :
  wanted (Some ip) = true -> ip <> "" /\ ip <> "Unknown".
Proof.
  simpl. intros H. apply andb_prop in H. destruct H as [A B].
  apply negb_true_iff in A, B. apply String.eqb_neq in A, B. auto.
Qed.

Lemma fetches_run (e : env) :
  rtc_available e = true ->
  fetches (requests e) = ipify_url :: map geo_url (addresses e).
Proof.
  intros H. unfold requests. rewrite (run_trace e H). simpl. f_equal.
  unfold fetches. rewrite flat_map_app. simpl. rewrite app_nil_r.
  induction (addresses e) as [|a l IH]; simpl; [reflexivity | now rewrite IH].
Qed.

Lemma posts_run (e : env) :
  rtc_available e = true -> posts (requests e) = [final_report e].
Proof.
  intros H. unfold requests. rewrite (run_trace e H). simpl.
  unfold posts. rewrite flat_map_app. simpl.
  induction (addresses e) as [|a l IH]; simpl; [reflexivity | exact IH].
Qed.

(** The report, written out: its blocks are those of the members of
    [allUniqueIps], in the order of the set, each with its label. *)
Lemma blocks_text (e : env) (primary : option string) (ips : list string) :
  map (block primary) (map (geo_result e) ips)
  = map (fun b => block_text (geo_result e (fst b)) (fst b) (snd b))
        (map (fun ip => (ip, label_of primary ip)) ips).
Proof.
  rewrite !map_map. apply map_ext. intros ip.
  now rewrite block_geo_result.
Qed.

Lemma final_report_text (e : env) :
  final_report e
  = report_text e
      (json_tally (iceCandidateTypes (collect (ice_events e))))
      (localHostnames (collect (ice_events e)))
      (map (fun ip => (ip, label_of (primary_of e) ip)) (addresses e)).
Proof.
  unfold final_report, logContent, report_text, webrtc_section, ip_section,
    geoResults.
  rewrite blocks_text.
  destruct (localHostnames (collect (ice_events e))); cbn [List.length Nat.ltb Nat.leb];
    rewrite !append_assoc; reflexivity.
Qed.

Lemma requests_text (e : env) :
  rtc_available e = true ->
  requests e
  = Fetch ipify_url
    :: (map (fun ip => Fetch (geo_url ip)) (addresses e)
        ++ [PostLog
              (report_text e
                 (json_tally (iceCandidateTypes (collect (ice_events e))))
                 (localHostnames (collect (ice_events e)))
                 (map (fun ip => (ip, label_of (primary_of e) ip))
                      (addresses e)))])%list.
Proof.
  intros H. unfold requests. rewrite (run_trace e H). cbn [snd].
  now rewrite final_report_text.
Qed.

Lemma posts_text (e : env) :
  rtc_available e = true ->
  posts (requests e)
  = [report_text e
       (json_tally (iceCandidateTypes (collect (ice_events e))))
       (localHostnames (collect (ice_events e)))
       (map (fun ip => (ip, label_of (primary_of e) ip)) (addresses e))].
Proof. intros H. now rewrite (posts_run e H), final_report_text. Qed.

End RunFacts.

(* ================================================================== *)
(** * Facts about the classifier *)

Module ClassifierFacts.
Import Js Data Net Regex Patterns Script Run Spec RegexFacts RunFacts.
Local Open Scope string_scope.

Lemma digit_facts (c : ascii) :
  is_digit c = true ->
  is_word c = true /\ is_space c = false /\ Ascii.eqb c "." = false
  /\ forall t, parseInt10 (String c t) = digits_go 0 false (String c t).
Proof.
  destruct c as [[] [] [] [] [] [] [] []]; intros H;
    try discriminate H; repeat split.
Qed.

Lemma octet4_alphabet (c : ascii) :
  alphabet false octet4 c = true -> is_digit c = true.
Proof.
  destruct c as [[] [] [] [] [] [] [] []]; intros H;
    try discriminate H; reflexivity.
Qed.

Lemma dot_char (a : ascii) : char_eq false a "." = true -> a = "."%char.
Proof. simpl. apply Ascii.eqb_eq. Qed.

Lemma octet4_digits (o : string) :
  language false octet4 o -> o <> "" /\ string_forall is_digit o = true.
Proof.
  intros L. split.
  - intros ->. destruct (language_static _ _ _ L) as [N _].
    discriminate (N eq_refl).
  - eapply string_forall_impl; [exact octet4_alphabet|].
    now apply language_alphabet.
Qed.

Lemma split_go_digits (o cur rest : string) :
  string_forall is_digit o = true ->
  split_go "." cur (o ++ String "." rest)
  = (cur ++ o) :: split_go "." "" rest.
Proof.
  revert cur; induction o as [|c o IH]; intros cur H; simpl in *.
  - now rewrite append_empty_r.
  - apply andb_prop in H. destruct H as [D H].
    destruct (@digit_facts c D) as (_ & _ & E & _). rewrite E.
    rewrite (IH _ H), append_assoc. reflexivity.
Qed.

Lemma split_go_last (o cur : string) :
  string_forall is_digit o = true ->
  split_go "." cur o = [cur ++ o].
Proof.
  revert cur; induction o as [|c o IH]; intros cur H; simpl in *.
  - now rewrite append_empty_r.
  - apply andb_prop in H. destruct H as [D H].
    destruct (@digit_facts c D) as (_ & _ & E & _). rewrite E.
    rewrite (IH _ H), append_assoc. reflexivity.
Qed.

Lemma digits_go_decimal (t : string) (acc : nat) :
  string_forall is_digit t = true ->
  digits_go (Z.of_nat acc) true t = option_map Z.of_nat (decimal_go acc t).
Proof.
  revert acc; induction t as [|c t IH]; intros acc H.
  - reflexivity.
  - cbn [string_forall] in H. apply andb_prop in H. destruct H as [D H].
    cbn [digits_go decimal_go]. rewrite D, <- (IH _ H).
    now rewrite Nat2Z.inj_add, Nat2Z.inj_mul.
Qed.

Lemma parseInt10_decimal (o : string) :
  o <> "" -> string_forall is_digit o = true ->
  exists n, decimal o = Some n /\ parseInt10 o = Some (Z.of_nat n).
Proof.
  destruct o as [|c t]; [congruence|]. intros _ H.
  assert (D : is_digit c = true).
  { cbn [string_forall] in H. now apply andb_prop in H. }
  destruct (@digit_facts c D) as (_ & _ & _ & P). rewrite P.
  assert (S : digits_go 0 false (String c t)
              = digits_go (Z.of_nat 0) true (String c t)).
  { cbn [digits_go]. now rewrite D. }
  rewrite S.
  rewrite (@digits_go_decimal _ _ H).
  change (decimal (String c t)) with (decimal_go 0 (String c t)).
  destruct (decimal_go 0 (String c t)) as [n|] eqn:E.
  - exists n. auto.
  - exfalso. revert E. generalize 0%nat. revert H. generalize (String c t).
    clear. induction s as [|a t IH]; intros H acc E.
    + discriminate.
    + cbn [string_forall] in H. apply andb_prop in H. destruct H as [D H].
      cbn [decimal_go] in E. rewrite D in E. eapply IH; eauto.
Qed.

Lemma octet_dot (u : string) :
  language false (Seq octet4 (Chr ".")) u ->
  exists o, u = o ++ "." /\ language false octet4 o.
Proof.
  intros L.
  change (exists o d, u = o ++ d /\ language false octet4 o
                      /\ exists a, d = String a "" /\ char_eq false a "." = true)
    in L.
  destruct L as (o & d & -> & Lo & a & -> & E).
  apply dot_char in E. subst a. eauto.
Qed.

Lemma whole_language (ic : bool) (r : regex) (s : string) :
  whole ic r s = true -> language ic r s.
Proof.
  unfold whole.
  destruct (m ic r _ _) as [z|] eqn:E; [intros _ | discriminate].
  apply m_language in E. destruct E as (w & y & [R1 R2] & K & L).
  simpl in R1. destruct (remaining y); [|discriminate].
  rewrite append_empty_r in R1. now subst w.
Qed.

(** An IPv4 literal is four runs of digits between dots. *)
Lemma ipv4_literal_shape (s : string) :
  ipv4_literal s = true ->
  exists o1 o2 o3 o4,
    s = o1 ++ "." ++ o2 ++ "." ++ o3 ++ "." ++ o4
    /\ language false octet4 o1 /\ language false octet4 o2
    /\ language false octet4 o3 /\ language false octet4 o4.
Proof.
  intros H. apply whole_language in H.
  change (exists u v,
             s = u ++ v
             /\ (exists n, count_ok 3 (Some 3) n
                           /\ pow (language false (Seq octet4 (Chr "."))) n u)
             /\ language false octet4 v) in H.
  destruct H as (u & o4 & -> & (n & B & P) & L4).
  assert (n = 3) by (unfold count_ok in B; simpl in B; lia). subst n.
  cbn [pow] in P.
  destruct P as (u1 & v1 & -> & L1 & u2 & v2 & -> & L2
                 & u3 & v3 & -> & L3 & ->).
  apply octet_dot in L1, L2, L3.
  destruct L1 as (o1 & -> & L1). destruct L2 as (o2 & -> & L2).
  destruct L3 as (o3 & -> & L3).
  exists o1, o2, o3, o4. split; [|auto].
  rewrite append_empty_r, !append_assoc. reflexivity.
Qed.

Lemma rev_append_digit (o b : string) :
  o <> "" -> string_forall is_digit o = true ->
  exists c t, rev_append o b = String c t /\ is_digit c = true.
Proof.
  revert b; induction o as [|c o IH]; intros b N H; [congruence|].
  cbn [string_forall] in H. apply andb_prop in H. destruct H as [D H].
  destruct o as [|c' o'].
  - exists c, b. auto.
  - cbn [rev_append]. apply (IH (String c b)); [discriminate | exact H].
Qed.

(** [regexIPv4.test] holds of every IPv4 literal. *)
Lemma test_ipv4_literal (s : string) :
  ipv4_literal s = true -> test regexIPv4 s = true.
Proof.
  intros H. destruct (@ipv4_literal_shape s H)
    as (o1 & o2 & o3 & o4 & E & L1 & _ & _ & L4).
  apply octet4_digits in L1, L4. destruct L1 as [N1 D1], L4 as [N4 D4].
  unfold ipv4_literal, whole in H.
  destruct (m false _ _ _) as [z|] eqn:M; [clear H | discriminate].
  set (x0 := MState "" s []) in *.
  assert (B0 : xorb (word_before x0) (word_after x0) = true).
  { unfold word_before, word_after, x0; simpl. rewrite E.
    destruct o1 as [|c o1]; [congruence|]. simpl.
    cbn [string_forall] in D1. apply andb_prop in D1.
    destruct D1 as [D1 _]. now destruct (@digit_facts c D1) as (-> & _). }
  assert (C : covers x0
                (fun y => match remaining y with
                          | "" => Some y
                          | String _ _ => None
                          end)
                (m false WordB Some)).
  { intros w y z0 [R1 R2] K. destruct (remaining y) eqn:Ry; [|discriminate].
    simpl in R1, R2. rewrite append_empty_r in R1. subst w.
    simpl. unfold word_before, word_after. rewrite Ry, R2, E.
    rewrite !rev_append_app.
    destruct (@rev_append_digit o4
                (rev_append "."
                   (rev_append o3
                      (rev_append "."
                         (rev_append o2
                            (rev_append "." (rev_append o1 ""))))))
                N4 D4) as (c & t & -> & D).
    destruct (@digit_facts c D) as (-> & _). simpl. eauto. }
  destruct (m_mono _ _ M C) as (z' & M').
  unfold test, exec. destruct s as [|c0 s0].
  - destruct o1; [congruence | discriminate E].
  - cbn [search]. unfold match_at.
    change (m (ignoreCase regexIPv4) (source regexIPv4) Some
              (MState "" (String c0 s0) []))
      with (if xorb (word_before x0) (word_after x0)
            then m false (Seq (times (Seq octet4 (Chr ".")) 3 3) octet4)
                   (m false WordB Some) x0
            else None).
    now rewrite B0, M'.
Qed.

Lemma num_eq_nat (a : nat) (n : nat) :
  num_eq (Some (Z.of_nat a)) (Z.of_nat n) = (a =? n)%nat.
Proof.
  unfold num_eq. destruct (Nat.eqb_spec a n) as [-> | N].
  - apply Z.eqb_refl.
  - apply Z.eqb_neq. lia.
Qed.

Lemma num_ge_nat (a : nat) (n : nat) :
  num_ge (Some (Z.of_nat a)) (Z.of_nat n) = (n <=? a)%nat.
Proof.
  unfold num_ge. destruct (Nat.leb_spec n a).
  - apply Z.leb_le. lia.
  - apply Z.leb_gt. lia.
Qed.

Lemma num_le_nat (a : nat) (n : nat) :
  num_le (Some (Z.of_nat a)) (Z.of_nat n) = (a <=? n)%nat.
Proof.
  unfold num_le. destruct (Nat.leb_spec a n).
  - apply Z.leb_le. lia.
  - apply Z.leb_gt. lia.
Qed.

(** On every IPv4 literal [isPrivateIP] is the policy of the
    specification. *)
Lemma isPrivateIP_on_ipv4_literals (s : string) :
  ipv4_literal s = true -> isPrivateIP s = spec_private s.
Proof.
  intros H. unfold isPrivateIP, spec_private.
  rewrite H, (@test_ipv4_literal s H).
  destruct (@ipv4_literal_shape s H)
    as (o1 & o2 & o3 & o4 & -> & L1 & L2 & L3 & L4).
  apply octet4_digits in L1, L2, L3, L4.
  destruct L1 as [N1 D1], L2 as [N2 D2], L3 as [N3 D3], L4 as [N4 D4].
  assert (S : split "." (o1 ++ "." ++ o2 ++ "." ++ o3 ++ "." ++ o4)
              = [o1; o2; o3; o4]).
  { unfold split. cbn [append].
    rewrite (@split_go_digits o1 _ _ D1), (@split_go_digits o2 _ _ D2),
      (@split_go_digits o3 _ _ D3), (@split_go_last o4 _ D4).
    reflexivity. }
  rewrite S. cbn [map].
  destruct (@parseInt10_decimal o1 N1 D1) as (a & -> & ->).
  destruct (@parseInt10_decimal o2 N2 D2) as (b & -> & ->).
  unfold part. cbn [nth].
  change 10%Z with (Z.of_nat 10). change 172%Z with (Z.of_nat 172).
  change 192%Z with (Z.of_nat 192). change 16%Z with (Z.of_nat 16).
  change 31%Z with (Z.of_nat 31). change 168%Z with (Z.of_nat 168).
  now rewrite !num_eq_nat, num_ge_nat, num_le_nat.
Qed.

(** On an IPv6 literal [isPrivateIP] is the policy when the two tests of
    the script answer as for an IPv6 address. *)
Lemma isPrivateIP_on_ipv6_literals (s : string) :
  ipv6_literal s = true ->
  test regexIPv4 s = false -> test_from regexIPv6 0 s = true ->
  isPrivateIP s = spec_private s.
Proof.
  intros H6 T4 T6. unfold isPrivateIP, spec_private.
  rewrite T4, T6, H6.
  destruct (ipv4_literal s) eqn:H4; [|reflexivity].
  apply test_ipv4_literal in H4. congruence.
Qed.

End ClassifierFacts.

(* ================================================================== *)
(** * Facts about the extraction *)

Module ExtractionFacts.
Import Js Data Net Regex Patterns Script Run Spec RegexFacts RunFacts.
Local Open Scope string_scope.

(** Evaluating the matcher on an input with an unknown tail: the classes
    are decided by computation, the comparisons of positions by the two
    facts below. *)
Lemma eqb_lt1 (n : nat) : (n =? S n)%nat = false.
Proof. apply Nat.eqb_neq. lia. Qed.
Lemma eqb_lt5 (n : nat) : (n =? S (S (S (S (S n)))))%nat = false.
Proof. apply Nat.eqb_neq. lia. Qed.

Ltac eval_classes :=
  repeat match goal with
         | |- context [class_match ?a ?b ?c] =>
             let v := eval vm_compute in (class_match a b c) in
             change (class_match a b c) with v
         | |- context [char_eq ?a ?b ?c] =>
             let v := eval vm_compute in (char_eq a b c) in
             change (char_eq a b c) with v
         | |- context [is_space ?c] =>
             let v := eval vm_compute in (is_space c) in
             change (is_space c) with v
         | |- context [is_word ?c] =>
             let v := eval vm_compute in (is_word c) in
             change (is_word c) with v
         end.

Ltac steps := repeat (cbn; eval_classes; rewrite ?eqb_lt1, ?eqb_lt5).

Lemma alt1_fails (before rest : string) (k : cont) :
  m false ipv6_first k (MState before ("fc00::a" ++ rest) []) = None.
Proof.
  unfold ipv6_first, hc, h14, hex, times. steps. reflexivity.
Qed.

Lemma alt2_takes_prefix (before rest : string) (k : cont) :
  m false (Seq (times hc 1 7) (Chr ":")) k
    (MState before ("fc00::a" ++ rest) [])
  = k (MState ("::00cf" ++ before) ("a" ++ rest) []).
Proof.
  unfold hc, h14, hex, times. steps.
  now destruct (k _).
Qed.

Lemma ipv4_needs_digit (before rest : string) (c : ascii) :
  first false regexIPv4_source c = false ->
  m false regexIPv4_source Some (MState before (String c rest) []) = None.
Proof.
  intros F. destruct (m false regexIPv4_source Some _) as [z|] eqn:E;
    [exfalso | reflexivity].
  apply m_language in E. destruct E as (w & y & [R _] & _ & L).
  destruct (language_static _ _ _ L) as [N H]. simpl in R.
  destruct w as [|a w].
  - discriminate (N eq_refl).
  - injection R as <- _. rewrite (H c w eq_refl) in F. discriminate.
Qed.

Lemma ipv6_any_head :
  exists later, ipv6_any = Alt ipv6_first (Alt ipv6_second later).
Proof. eexists. reflexivity. Qed.

(** Where the input goes on as [fc00::a], the address pattern matches
    [fc00::] and nothing longer. *)
Lemma match_at_prefix (before rest : string) :
  exists g,
    match_at regexAnyIP before ("fc00::a" ++ rest)
    = Some (MState ("::00cf" ++ before) ("a" ++ rest) g).
Proof.
  unfold match_at, regexAnyIP. cbn [source ignoreCase].
  change (m false (Alt regexIPv4_source regexIPv6_source) Some
            (MState before ("fc00::a" ++ rest) []))
    with (match m false regexIPv4_source Some
                  (MState before ("fc00::a" ++ rest) []) with
          | Some z => Some z
          | None => m false regexIPv6_source Some
                      (MState before ("fc00::a" ++ rest) [])
          end).
  pose proof (@ipv4_needs_digit before ("c00::a" ++ rest) "f" eq_refl)
    as H4.
  change (String "f" ("c00::a" ++ rest)) with ("fc00::a" ++ rest) in H4.
  rewrite H4. clear H4.
  unfold regexIPv6_source. destruct ipv6_any_head as (later & ->).
  set (k := m false (Look (Alt Space WordB)) Some).
  change (m false (Seq (Alt ipv6_first (Alt ipv6_second later))
                       (Look (Alt Space WordB))) Some
            (MState before ("fc00::a" ++ rest) []))
    with (match m false ipv6_first k (MState before ("fc00::a" ++ rest) []) with
          | Some z => Some z
          | None =>
              match m false ipv6_second k (MState before ("fc00::a" ++ rest) []) with
              | Some z => Some z
              | None => m false later k (MState before ("fc00::a" ++ rest) [])
              end
          end).
  rewrite alt1_fails. unfold ipv6_second. rewrite alt2_takes_prefix.
  unfold k. steps. eexists. reflexivity.
Qed.

(** Every string of a scan is the text of a match of the pattern at some
    place of the input. *)
Lemma scan_matches (re : regexp) (after : string) :
  forall skip before w,
    In w (scan re skip before after) ->
    exists b a e,
      match_at re b a = Some e /\ reads (MState b a []) w e.
Proof.
  assert (Hm : forall b a e,
             match_at re b a = Some e ->
             reads (MState b a []) (between (MState b a []) e) e).
  { intros b a e H. apply m_language in H.
    destruct H as (w & y & R & K & _). injection K as <-.
    now rewrite (between_reads R). }
  induction after as [|c after IH]; intros skip before w H.
  - destruct skip; simpl in H; [|contradiction].
    destruct (match_at re before "") as [e|] eqn:E; [|contradiction].
    destruct H as [<- | []]. exists before, "", e. auto.
  - destruct skip; simpl in H.
    + destruct (match_at re before (String c after)) as [e|] eqn:E.
      * destruct H as [<- | H]; [|eapply IH; eauto].
        exists before, (String c after), e. auto.
      * eapply IH; eauto.
    + eapply IH; eauto.
Qed.

(** No candidate line yields the literal [fc00::abcd]. *)
Lemma never_extracts_the_literal (candidate : string) (ips : list string) :
  extract candidate = Some ips -> ~ In "fc00::abcd" ips.
Proof.
  unfold extract, match_all. intros H I.
  assert (J : In "fc00::abcd" (scan regexAnyIP 0 "" candidate)).
  { destruct (scan regexAnyIP 0 "" candidate); [discriminate|].
    now injection H as ->. }
  apply scan_matches in J. destruct J as (b & a & e & M & [R1 R2]).
  simpl in R1, R2. subst a.
  destruct (match_at_prefix b ("bcd" ++ remaining e)) as (g & M').
  cbn [append] in M, M'. rewrite M in M'. injection M' as E.
  rewrite E in R2. simpl in R2. discriminate R2.
Qed.

End ExtractionFacts.

(* ================================================================== *)
(** * The properties of the specification *)

Import Data Net Regex Patterns Script Run Spec RegexFacts RunFacts.
Import ClassifierFacts ExtractionFacts.
Local Open Scope string_scope.

(** The boundary table of the classifier: on its eight addresses
    [isPrivateIP] and the policy of the specification agree. *)
Lemma classifier_boundary_table :
  map isPrivateIP
      ["10.0.0.1"; "172.16.0.0"; "172.32.0.0"; "192.168.0.1";
       "193.168.0.1"; "fc00::1"; "fd12::1"; "fe80::1"]
  = [true; true; false; true; false; true; true; false]
  /\ map spec_private
         ["10.0.0.1"; "172.16.0.0"; "172.32.0.0"; "192.168.0.1";
          "193.168.0.1"; "fc00::1"; "fd12::1"; "fe80::1"]
     = [true; true; false; true; false; true; true; false].
Proof. split; vm_compute; reflexivity. Qed.

(** C1.  [isPrivateIP] departs from the classification policy on IPv6
    literals.  [fc00::] is an IPv6 literal that starts with [fc], so the
    policy says private, and [isPrivateIP] answers false: the lookahead
    that ends [regexIPv6] cannot hold at the end of the input after a
    colon, so [regexIPv6.test] fails.  It is the string the extraction
    hands over for a candidate line that holds [fc00::abcd], and the
    report of such a run labels it [Leaked].  On [fc00::10.0.0.1] the
    unanchored [regexIPv4.test] succeeds on the dotted tail and the first
    part parses to [NaN]: false, where the policy says private.  On
    [10::1.2.3.4] the first part parses to 10: true, where the policy
    says not private. *)
Theorem isPrivateIP_departs_on_ipv6_literals :
  (ipv6_literal "fc00::" = true
   /\ spec_private "fc00::" = true /\ isPrivateIP "fc00::" = false)
  /\ (extract ipv6_line = Some ["fc00::"]
      /\ labels (sample [Some ipv6_line] (Resolved (Some "8.8.8.8"))
                        all_resolve)
         = [("8.8.8.8", "Public (Primary)"); ("fc00::", "Leaked")])
  /\ (ipv6_literal "fc00::10.0.0.1" = true
      /\ spec_private "fc00::10.0.0.1" = true
      /\ isPrivateIP "fc00::10.0.0.1" = false)
  /\ (ipv6_literal "10::1.2.3.4" = true
      /\ spec_private "10::1.2.3.4" = false
      /\ isPrivateIP "10::1.2.3.4" = true).
Proof. vm_compute. repeat split. Qed.

(** C6.  The extraction on the candidate lines of the specification.
    The IPv4 line yields the one address [192.168.1.5] and the type
    label [host].  The line with [fc00::abcd] yields [fc00::] and not the
    literal, and so does the literal on its own: the second alternative
    of [regexIPv6] matches the prefix [fc00::], the lookahead holds
    before [a], and the alternation never reaches the forms that would
    take the whole literal. *)
Theorem extract_truncates_compressed_ipv6 :
  extract host_line = Some ["192.168.1.5"]
  /\ candidate_type host_line = Some "host"
  /\ extract ipv6_line = Some ["fc00::"]
  /\ extract ipv6_line <> Some ["fc00::abcd"]
  /\ extract "fc00::abcd" = Some ["fc00::"].
Proof.
  repeat split; try (vm_compute; reflexivity).
  vm_compute. discriminate.
Qed.

(** C5.  Whatever the candidate events, the address set holds no literal
    twice; adding a literal it holds changes nothing; and an event that
    was delivered before leaves the set as it is when it comes again. *)
Theorem unique_address_set_no_duplicates (events : list (option string)) :
  NoDup (uniqueLeakedIPs (collect events))
  /\ (forall ip, In ip (uniqueLeakedIPs (collect events)) ->
                 set_add (uniqueLeakedIPs (collect events)) ip
                 = uniqueLeakedIPs (collect events))
  /\ (forall ev, In ev events ->
                 uniqueLeakedIPs (collect (events ++ [ev]))
                 = uniqueLeakedIPs (collect events)).
Proof.
  split; [|split].
  - apply fold_onicecandidate_nodup. constructor.
  - intros ip. apply set_add_seen.
  - intros ev I. unfold collect. rewrite fold_left_app. simpl.
    fold (collect events).
    assert (K : forall candidate ips ip,
               ev = Some candidate -> extract candidate = Some ips ->
               In ip ips -> In ip (uniqueLeakedIPs (collect events))).
    { intros candidate ips ip -> E Hip. unfold collect.
      apply in_split in I. destruct I as (l1 & l2 & ->).
      rewrite fold_left_app. simpl. apply fold_onicecandidate_keeps.
      unfold onicecandidate at 1.
      destruct (String.eqb candidate "") eqn:Ec.
      - apply String.eqb_eq in Ec. subst candidate.
        vm_compute in E. discriminate.
      - simpl. rewrite E. apply fold_set_add_in. now right. }
    unfold onicecandidate. destruct ev as [candidate|]; [|reflexivity].
    destruct (String.eqb candidate ""); [reflexivity|]. simpl.
    destruct (extract candidate) as [ips|] eqn:E; [|reflexivity].
    assert (A : forall ip, In ip ips ->
                           In ip (uniqueLeakedIPs (collect events))).
    { intros ip Hip. eapply K; eauto. }
    clear K E. generalize dependent (uniqueLeakedIPs (collect events)).
    induction ips as [|ip ips IH]; intros s A; simpl; [reflexivity|].
    rewrite set_add_seen by (apply A; now left).
    apply IH. intros ip' Hip. apply A. now right.
Qed.

Lemma unique_address_set_no_duplicates_witness :
  NoDup (uniqueLeakedIPs (collect [Some host_line; Some host_line]))
  /\ set_add (uniqueLeakedIPs (collect [Some host_line; Some host_line]))
             "192.168.1.5"
     = uniqueLeakedIPs (collect [Some host_line; Some host_line])
  /\ uniqueLeakedIPs (collect ([Some host_line; Some host_line]
                               ++ [Some host_line]))
     = uniqueLeakedIPs (collect [Some host_line; Some host_line]).
Proof.
  destruct (unique_address_set_no_duplicates
              [Some host_line; Some host_line]) as (A & B & C).
  split; [exact A|]. split.
  - apply B. vm_compute. left. reflexivity.
  - apply C. simpl. left. reflexivity.
Defined.

(** C4.  In a run that reaches the timer callback the members of
    [allUniqueIps] are distinct; the calls of the run are the lookup of
    the primary address, then one geo lookup per member, then the
    report, which is issued after all of them; the results are one
    record per member, each under its address.  When the lookup of one
    address is made to fail, the set is the same, the record of that
    address is the error record, and the record of every other address
    is what it was. *)
Theorem geo_resolution_settles_all (e : env) :
  rtc_available e = true ->
  NoDup (addresses e)
  /\ requests e
     = Fetch ipify_url
       :: (map (fun ip => Fetch (geo_url ip)) (addresses e)
           ++ [PostLog (final_report e)])%list
  /\ List.length (geoResults e) = List.length (addresses e)
  /\ map (fun geo => get geo "ip") (geoResults e) = map VStr (addresses e)
  /\ forall ip0 message,
       addresses (with_failure e ip0 message) = addresses e
       /\ geo_result (with_failure e ip0 message) ip0
          = [("ip", VStr ip0);
             ("error", VStr ("Error fetching GeoIP: " ++ message))]
       /\ forall ip, ip <> ip0 ->
                     geo_result (with_failure e ip0 message) ip
                     = geo_result e ip.
Proof.
  intros H. split; [apply addresses_nodup|]. split.
  { unfold requests. now rewrite (run_trace e H). }
  split; [apply length_map|]. split.
  { unfold geoResults. rewrite map_map. apply map_ext, geo_result_ip. }
  intros ip0 message. split; [reflexivity|]. split.
  - unfold geo_result, with_failure; simpl.
    now rewrite String.eqb_refl.
  - intros ip N. unfold geo_result.
    change (ipapi (with_failure e ip0 message) (geo_url ip))
      with (if String.eqb (geo_url ip) (geo_url ip0)
            then Rejected message else ipapi e (geo_url ip)).
    destruct (String.eqb (geo_url ip) (geo_url ip0)) eqn:E; [|reflexivity].
    apply String.eqb_eq, geo_url_inj in E. contradiction.
Qed.

Lemma geo_resolution_settles_all_witness :
  requests scenario
  = [ Fetch ipify_url;
      Fetch (geo_url "8.8.8.8");
      Fetch (geo_url "203.0.113.9");
      Fetch (geo_url "192.168.1.5");
      PostLog (final_report scenario) ]
  /\ List.length (geoResults scenario) = 3
  /\ geo_result (with_failure scenario "203.0.113.9" "Failed to fetch")
                "192.168.1.5"
     = geo_result scenario "192.168.1.5".
Proof.
  destruct (geo_resolution_settles_all scenario eq_refl)
    as (_ & A & B & _ & C).
  split; [exact A|]. split; [exact B|].
  destruct (C "203.0.113.9" "Failed to fetch") as (_ & _ & D).
  apply D. discriminate.
Defined.

(** C7, as stated, fails twice.  "Every invocation": a run whose set-up
    of the connection throws makes no call at all, so nothing is handed
    to the sink.  "Containing only the primary-public-address block":
    with no candidate event and a primary lookup that fails, the report
    that is posted has no block. *)
Lemma run_can_post_nothing_or_no_block :
  requests (Env SetupThrows [] (Resolved (Some "8.8.8.8")) all_resolve
                "" "" "")
  = []
  /\ requests (sample [] (Rejected "Failed to fetch") all_fail)
     = [ Fetch ipify_url;
         PostLog (report_text (sample [] (Rejected "Failed to fetch") all_fail)
                              empty_tally_text [] []) ].
Proof. split; reflexivity. Qed.

(** C7, amended.  A run whose set-up of the connection does not throw
    hands one report to the sink; one whose set-up throws makes no call.
    Without an [RTCPeerConnection] the run issues the failure report and
    nothing else.  With no candidate event the run that reaches its
    timer posts, as its last call, one report, written out here: the
    tally at zero, no hostname, and no block but that of the primary
    public address, labelled [Public (Primary)]; exactly that block when
    the primary lookup gave an address, and no block when it gave
    none. *)
Theorem one_report_per_run (e : env) :
  (page e <> SetupThrows -> List.length (posts (requests e)) = 1)
  /\ (page e = SetupThrows -> requests e = [])
  /\ (page e = NoRTC ->
      requests e = [PostLog "WebRTC is not supported by this browser."])
  /\ (rtc_available e = true -> ice_events e = [] ->
      posts (requests e) = [final_report e]
      /\ addresses e = strings (filter wanted [primary_of e])
      /\ labels e = map (fun ip => (ip, "Public (Primary)")) (addresses e)
      /\ requests e
         = Fetch ipify_url
           :: (map (fun ip => Fetch (geo_url ip)) (addresses e)
               ++ [PostLog
                     (report_text e empty_tally_text []
                        (map (fun ip => (ip, "Public (Primary)"))
                             (addresses e)))])%list
      /\ (forall p, ipify e = Resolved (Some p) ->
                    p <> "" -> p <> "Unknown" ->
                    labels e = [(p, "Public (Primary)")]
                    /\ ip_section (primary_of e) (geoResults e)
                       = nl ++ "--- IP Information ---" ++ nl
                         ++ "IP: " ++ p ++ nl
                         ++ "  - Type: Public (Primary)" ++ nl
                         ++ geo_lines (geo_result e p)
                    /\ requests e
                       = [ Fetch ipify_url;
                           Fetch (geo_url p);
                           PostLog (report_text e empty_tally_text []
                                      [(p, "Public (Primary)")]) ])
      /\ (wanted (primary_of e) = false ->
          requests e
          = [ Fetch ipify_url;
              PostLog (report_text e empty_tally_text [] []) ])).
Proof.
  split; [|split; [|split]].
  - intros N. destruct (page e) eqn:P; [|congruence|].
    + unfold requests. now rewrite (run_without_rtc e P).
    + rewrite posts_run; [reflexivity|]. unfold rtc_available. now rewrite P.
  - intros P. unfold requests. now rewrite (run_setup_throws e P).
  - intros P. unfold requests. now rewrite (run_without_rtc e P).
  - intros H E. split; [apply (posts_run e H)|].
    assert (A : addresses e = strings (filter wanted [primary_of e])).
    { unfold addresses, allUniqueIps. rewrite E. simpl.
      destruct (primary_of e) as [p|]; simpl; [|reflexivity].
      destruct (negb (String.eqb p "") && negb (String.eqb p "Unknown"));
        reflexivity. }
    assert (L : forall ip, In ip (addresses e) ->
                           label_of (primary_of e) ip = "Public (Primary)").
    { intros ip. rewrite A. simpl.
      destruct (primary_of e) as [p|] eqn:P; simpl; [|contradiction].
      destruct (negb (String.eqb p "") && negb (String.eqb p "Unknown"));
        simpl; [|contradiction].
      intros [<- | []]. unfold label_of; simpl. now rewrite String.eqb_refl. }
    assert (M : map (fun ip => (ip, label_of (primary_of e) ip)) (addresses e)
                = map (fun ip => (ip, "Public (Primary)")) (addresses e)).
    { apply map_ext_in. intros ip I. now rewrite (L ip I). }
    assert (R : requests e
                = Fetch ipify_url
                  :: (map (fun ip => Fetch (geo_url ip)) (addresses e)
                      ++ [PostLog
                            (report_text e empty_tally_text []
                               (map (fun ip => (ip, "Public (Primary)"))
                                    (addresses e)))])%list).
    { rewrite (requests_text e H), M, E. reflexivity. }
    split; [exact A|]. split; [now rewrite labels_by_address|].
    split; [exact R|]. split.
    + intros p P N1 N2.
      assert (A' : addresses e = [p]).
      { rewrite A. unfold primary_of. rewrite P. simpl.
        apply String.eqb_neq in N1, N2. now rewrite N1, N2. }
      split; [now rewrite labels_by_address, M, A'|]. split.
      * unfold ip_section, geoResults. rewrite A'. simpl String.concat.
        rewrite block_geo_result. unfold label_of, primary_of. rewrite P.
        simpl strict_eq. now rewrite String.eqb_refl.
      * rewrite R, A'. reflexivity.
    + intros W. rewrite R, A. cbn [filter]. rewrite W. reflexivity.
Qed.

Lemma one_report_per_run_witness :
  requests (Env NoRTC [] (Rejected "offline") all_fail "" "" "")
  = [PostLog "WebRTC is not supported by this browser."]
  /\ requests (sample [] (Resolved (Some "8.8.8.8")) all_resolve)
     = [ Fetch ipify_url;
         Fetch (geo_url "8.8.8.8");
         PostLog (report_text
                    (sample [] (Resolved (Some "8.8.8.8")) all_resolve)
                    empty_tally_text [] [("8.8.8.8", "Public (Primary)")]) ].
Proof.
  split.
  - apply (one_report_per_run
             (Env NoRTC [] (Rejected "offline") all_fail "" "" "")).
    reflexivity.
  - destruct (one_report_per_run
                (sample [] (Resolved (Some "8.8.8.8")) all_resolve))
      as (_ & _ & _ & A).
    destruct (A eq_refl eq_refl) as (_ & _ & _ & _ & B & _).
    apply (B "8.8.8.8"); [reflexivity | discriminate | discriminate].
Defined.

(** C8.  The label of an address does not depend on the geo records: two
    runs with the same candidate events and the same answer of the
    primary lookup give every address the same label, whatever the geo
    lookups answer. *)
Theorem labels_independent_of_geo (e e' : env) :
  ice_events e = ice_events e' -> ipify e = ipify e' ->
  labels e = labels e'.
Proof.
  intros E P. rewrite !labels_by_address.
  unfold addresses, primary_of. now rewrite E, P.
Qed.

Lemma labels_independent_of_geo_witness :
  labels scenario
  = labels (sample [Some srflx_line; Some host_line]
                   (Resolved (Some "8.8.8.8")) all_fail).
Proof.
  apply labels_independent_of_geo; reflexivity.
Defined.

(** C9.  When a collected literal is the primary public address, the
    address is the first member of [allUniqueIps] and no other member.
    The report that the run posts, written out, has one block for it,
    the first, labelled [Public (Primary)]; no other block carries the
    address or that label; and one geo lookup is issued for it. *)
Theorem primary_address_listed_once (e : env) (p : string) :
  ipify e = Resolved (Some p) ->
  In p (uniqueLeakedIPs (collect (ice_events e))) ->
  exists rest,
    ~ In p rest
    /\ addresses e = p :: rest
    /\ labels e
       = (p, "Public (Primary)")
         :: map (fun ip => (ip, label_of (Some p) ip)) rest
    /\ (forall ip, In ip rest -> label_of (Some p) ip <> "Public (Primary)")
    /\ ~ In (geo_url p) (map geo_url rest)
    /\ (rtc_available e = true ->
        fetches (requests e) = ipify_url :: geo_url p :: map geo_url rest)
    /\ (rtc_available e = true ->
        posts (requests e)
        = [report_text e
             (json_tally (iceCandidateTypes (collect (ice_events e))))
             (localHostnames (collect (ice_events e)))
             ((p, "Public (Primary)")
              :: map (fun ip => (ip, label_of (Some p) ip)) rest)]).
Proof.
  intros P I.
  assert (W : wanted (Some p) = true).
  { eapply address_like_wanted, collected_address_like, I. }
  assert (A : exists rest, addresses e = p :: rest).
  { unfold addresses, allUniqueIps, primary_of. rewrite P.
    cbn [filter]. rewrite W. unfold strings. cbn [flat_map app].
    unfold set_of. cbn [fold_left]. apply fold_set_add_head. }
  destruct A as (rest & A). exists rest.
  assert (N : ~ In p rest).
  { pose proof (addresses_nodup e) as D. rewrite A in D.
    now inversion D. }
  assert (Q : primary_of e = Some p) by (unfold primary_of; now rewrite P).
  assert (L : label_of (Some p) p = "Public (Primary)").
  { unfold label_of. simpl. now rewrite String.eqb_refl. }
  split; [exact N|]. split; [exact A|]. split; [|split; [|split; [|split]]].
  - rewrite labels_by_address, A, Q. simpl. now rewrite L.
  - intros ip Hip. unfold label_of. simpl.
    destruct (String.eqb ip p) eqn:E.
    + apply String.eqb_eq in E. subst ip. contradiction.
    + destruct (isPrivateIP ip); discriminate.
  - intros J. apply in_map_iff in J. destruct J as (ip & E & J).
    apply geo_url_inj in E. subst ip. contradiction.
  - intros H. rewrite (fetches_run e H), A. reflexivity.
  - intros H. rewrite (posts_text e H), A, Q. cbn [map]. now rewrite L.
Qed.

Lemma primary_address_listed_once_witness :
  exists rest,
    ~ In "203.0.113.9" rest
    /\ posts (requests (sample [Some srflx_line; Some host_line]
                               (Resolved (Some "203.0.113.9")) all_resolve))
       = [report_text
            (sample [Some srflx_line; Some host_line]
                    (Resolved (Some "203.0.113.9")) all_resolve)
            (json_tally
               (iceCandidateTypes (collect [Some srflx_line; Some host_line])))
            (localHostnames (collect [Some srflx_line; Some host_line]))
            (("203.0.113.9", "Public (Primary)")
             :: map (fun ip => (ip, label_of (Some "203.0.113.9") ip)) rest)].
Proof.
  destruct (@primary_address_listed_once
              (sample [Some srflx_line; Some host_line]
                      (Resolved (Some "203.0.113.9")) all_resolve)
              "203.0.113.9" eq_refl) as (rest & A & _ & _ & _ & _ & _ & B).
  - vm_compute. left. reflexivity.
  - exists rest. split; [exact A | exact (B eq_refl)].
Defined.

(** C10.  When the lookup of the primary public address fails, the
    sentinel [Unknown] is no member of [allUniqueIps]: no geo lookup is
    issued for it and no block of the report is labelled
    [Public (Primary)].  With no candidate event in addition, the set is
    empty and the IP section of the report is its heading alone. *)
Theorem failed_primary_lookup_is_filtered (e : env) (message : string) :
  ipify e = Rejected message ->
  ~ In "Unknown" (addresses e)
  /\ (rtc_available e = true ->
      ~ In (geo_url "Unknown") (fetches (requests e)))
  /\ (forall ip label, In (ip, label) (labels e) ->
                       label <> "Public (Primary)")
  /\ (ice_events e = [] ->
      addresses e = []
      /\ ip_section (primary_of e) (geoResults e)
         = nl ++ "--- IP Information ---" ++ nl).
Proof.
  intros P.
  assert (U : ~ In "Unknown" (addresses e)).
  { intros I. apply addresses_in in I. destruct I as [W _].
    discriminate W. }
  split; [exact U|]. split; [|split].
  - intros H I. rewrite (fetches_run e H) in I. destruct I as [I | I].
    + discriminate I.
    + apply in_map_iff in I. destruct I as (ip & E & I).
      apply geo_url_inj in E. subst ip. contradiction.
  - intros ip label I. rewrite labels_by_address in I.
    apply in_map_iff in I. destruct I as (ip' & E & I).
    injection E as -> <-. unfold label_of, primary_of. rewrite P. simpl.
    destruct (String.eqb ip "Unknown") eqn:E.
    + apply String.eqb_eq in E. subst ip. contradiction.
    + destruct (isPrivateIP ip); discriminate.
  - intros E.
    assert (A : addresses e = []).
    { unfold addresses, allUniqueIps, primary_of. now rewrite P, E. }
    split; [exact A|]. unfold ip_section, geoResults. now rewrite A.
Qed.

Lemma failed_primary_lookup_is_filtered_witness :
  ~ In "Unknown" (addresses (sample [] (Rejected "Failed to fetch") all_fail))
  /\ ip_section (primary_of (sample [] (Rejected "Failed to fetch") all_fail))
                (geoResults (sample [] (Rejected "Failed to fetch") all_fail))
     = nl ++ "--- IP Information ---" ++ nl.
Proof.
  destruct (@failed_primary_lookup_is_filtered
              (sample [] (Rejected "Failed to fetch") all_fail)
              "Failed to fetch" eq_refl) as (A & _ & _ & B).
  split; [exact A|]. apply B. reflexivity.
Defined.

(** C2, as stated, fails on the tally: in the scenario of the
    specification the tally is not [{host:1, srflx:1}]; it keeps the
    [relay] count it starts with, and the report that is posted is not
    the one with the tally of the specification. *)
Lemma scenario_tally_keeps_relay :
  iceCandidateTypes (collect (ice_events scenario))
  <> [("host", CNum 1); ("srflx", CNum 1)]
  /\ posts (requests scenario)
     <> [report_text scenario
           ("{" ++ dq ++ "host" ++ dq ++ ":1," ++ dq ++ "srflx" ++ dq ++ ":1}")
           []
           [ ("8.8.8.8", "Public (Primary)");
             ("203.0.113.9", "Leaked");
             ("192.168.1.5", "Local (Private)") ]].
Proof. split; vm_compute; discriminate. Qed.

(** C2, amended.  The report that a run posts, written out, has one
    block per member of [allUniqueIps], in the order of the set, and
    every block is labelled [Public (Primary)] when its address is the
    primary public address, else [Local (Private)] when [isPrivateIP]
    holds of it, else [Leaked].  In the scenario of the specification
    (primary address [8.8.8.8], a [srflx] candidate with [203.0.113.9],
    a [host] candidate with [192.168.1.5]) the report posted has three
    blocks and no other, labelled [Public (Primary)], [Leaked] and
    [Local (Private)] in this order, whatever the geo lookups answer,
    and the tally printed in it is [{"host":1,"srflx":1,"relay":0}].
    When the [host] candidate comes first the three addresses have the
    same labels and the tally is the same; the two candidate blocks swap
    places. *)
Theorem report_labels_and_scenario :
  (forall e, labels e
             = map (fun ip => (ip, label_of (primary_of e) ip))
                   (addresses e))
  /\ (forall e,
         rtc_available e = true ->
         posts (requests e)
         = [report_text e
              (json_tally (iceCandidateTypes (collect (ice_events e))))
              (localHostnames (collect (ice_events e)))
              (map (fun ip => (ip, label_of (primary_of e) ip))
                   (addresses e))])
  /\ (forall primary ip,
         (label_of primary ip = "Public (Primary)" <-> primary = Some ip)
         /\ (label_of primary ip = "Local (Private)"
             <-> primary <> Some ip /\ isPrivateIP ip = true)
         /\ (label_of primary ip = "Leaked"
             <-> primary <> Some ip /\ isPrivateIP ip = false))
  /\ (forall e,
         ice_events e = [Some srflx_line; Some host_line] ->
         ipify e = Resolved (Some "8.8.8.8") ->
         labels e = [ ("8.8.8.8", "Public (Primary)");
                      ("203.0.113.9", "Leaked");
                      ("192.168.1.5", "Local (Private)") ]
         /\ ip_section (primary_of e) (geoResults e)
            = nl ++ "--- IP Information ---" ++ nl
              ++ "IP: 8.8.8.8" ++ nl ++ "  - Type: Public (Primary)" ++ nl
              ++ geo_lines (geo_result e "8.8.8.8")
              ++ "IP: 203.0.113.9" ++ nl ++ "  - Type: Leaked" ++ nl
              ++ geo_lines (geo_result e "203.0.113.9")
              ++ "IP: 192.168.1.5" ++ nl ++ "  - Type: Local (Private)" ++ nl
              ++ geo_lines (geo_result e "192.168.1.5")
         /\ webrtc_section (collect (ice_events e))
            = "--- WebRTC Information ---" ++ nl
              ++ "ICE Candidate Types: " ++ tally_text ++ nl
         /\ (rtc_available e = true -> posts (requests e) = [final_report e])
         /\ (rtc_available e = true ->
             posts (requests e)
             = [report_text e tally_text []
                  [ ("8.8.8.8", "Public (Primary)");
                    ("203.0.113.9", "Leaked");
                    ("192.168.1.5", "Local (Private)") ]]))
  /\ (forall e,
         ice_events e = [Some host_line; Some srflx_line] ->
         ipify e = Resolved (Some "8.8.8.8") ->
         labels e = [ ("8.8.8.8", "Public (Primary)");
                      ("192.168.1.5", "Local (Private)");
                      ("203.0.113.9", "Leaked") ]
         /\ webrtc_section (collect (ice_events e))
            = "--- WebRTC Information ---" ++ nl
              ++ "ICE Candidate Types: " ++ tally_text ++ nl
         /\ (rtc_available e = true ->
             posts (requests e)
             = [report_text e tally_text []
                  [ ("8.8.8.8", "Public (Primary)");
                    ("192.168.1.5", "Local (Private)");
                    ("203.0.113.9", "Leaked") ]])).
Proof.
  assert (L1 : label_of (Some "8.8.8.8") "8.8.8.8" = "Public (Primary)")
    by (vm_compute; reflexivity).
  assert (L2 : label_of (Some "8.8.8.8") "203.0.113.9" = "Leaked")
    by (vm_compute; reflexivity).
  assert (L3 : label_of (Some "8.8.8.8") "192.168.1.5" = "Local (Private)")
    by (vm_compute; reflexivity).
  split; [exact labels_by_address|]. split; [exact posts_text|].
  split; [|split].
  - intros primary ip.
    assert (S : strict_eq (VStr ip) primary = true <-> primary = Some ip).
    { unfold strict_eq. destruct primary as [q|].
      - rewrite String.eqb_eq. split; [now intros -> | now intros [= ->]].
      - split; discriminate. }
    unfold label_of.
    destruct (strict_eq (VStr ip) primary) eqn:E.
    + assert (Q : primary = Some ip) by now apply S.
      split; [tauto|]. split; (split; [discriminate | tauto]).
    + assert (Q : primary <> Some ip).
      { intros Q. apply S in Q. discriminate Q. }
      destruct (isPrivateIP ip).
      * split; [split; [discriminate | contradiction]|].
        split; [tauto|]. split; [discriminate | intros [_ F]; discriminate F].
      * split; [split; [discriminate | contradiction]|].
        split; [split; [discriminate | intros [_ F]; discriminate F]|].
        tauto.
  - intros e E P.
    assert (A : addresses e = ["8.8.8.8"; "203.0.113.9"; "192.168.1.5"]).
    { unfold addresses, primary_of. rewrite E, P.
      vm_compute. reflexivity. }
    assert (Q : primary_of e = Some "8.8.8.8").
    { unfold primary_of. now rewrite P. }
    split; [|split; [|split; [|split]]].
    + rewrite labels_by_address, A, Q. cbn [map]. now rewrite L1, L2, L3.
    + unfold ip_section, geoResults. rewrite A, Q. cbn [map String.concat].
      rewrite !block_geo_result, L1, L2, L3.
      rewrite !append_assoc. cbn [append]. reflexivity.
    + rewrite E. vm_compute. reflexivity.
    + apply posts_run.
    + intros H. rewrite (posts_text e H), A, Q. cbn [map].
      rewrite L1, L2, L3, E. reflexivity.
  - intros e E P.
    assert (A : addresses e = ["8.8.8.8"; "192.168.1.5"; "203.0.113.9"]).
    { unfold addresses, primary_of. rewrite E, P.
      vm_compute. reflexivity. }
    assert (Q : primary_of e = Some "8.8.8.8").
    { unfold primary_of. now rewrite P. }
    split; [|split].
    + rewrite labels_by_address, A, Q. cbn [map]. now rewrite L1, L2, L3.
    + rewrite E. vm_compute. reflexivity.
    + intros H. rewrite (posts_text e H), A, Q. cbn [map].
      rewrite L1, L2, L3, E. reflexivity.
Qed.

Lemma report_labels_and_scenario_witness :
  posts (requests scenario)
  = [report_text scenario tally_text []
       [ ("8.8.8.8", "Public (Primary)");
         ("203.0.113.9", "Leaked");
         ("192.168.1.5", "Local (Private)") ]]
  /\ webrtc_section (collect (ice_events scenario))
     = "--- WebRTC Information ---" ++ nl
       ++ "ICE Candidate Types: " ++ tally_text ++ nl.
Proof.
  destruct report_labels_and_scenario as (_ & _ & _ & A & _).
  destruct (A scenario eq_refl eq_refl) as (_ & _ & C & _ & D).
  split; [exact (D eq_refl) | exact C].
Defined.

(** C3, as stated, fails on a lookup that fails entirely: the record has
    no [country] at all, where the specification has the sentinel
    [Unknown]. *)
Lemma failed_lookup_record_has_no_sentinel :
  fst (run (getGeoData (sample [] (Resolved (Some "8.8.8.8")) all_fail)
                       "8.8.8.8"))
  = [("error", VStr "Error fetching GeoIP: Failed to fetch")]
  /\ get (fst (run (getGeoData
                      (sample [] (Resolved (Some "8.8.8.8")) all_fail)
                      "8.8.8.8"))) "country"
     <> VStr "Unknown".
Proof. split; [reflexivity | vm_compute; discriminate]. Qed.

(** C3, amended.  [getGeoData] issues one lookup and builds its record
    from the answer.  When the lookup fails entirely (network error,
    status that is not a success, malformed payload) the record is an
    error annotation and nothing else.  When it succeeds the record has
    no error annotation and, field by field, carries the value of the
    payload when the payload supplies a truthy one and the default when
    the payload has none: [Unknown], and [false] for the proxy flag. *)
Theorem getGeoData_record (e : env) (ip : string) :
  run (getGeoData e ip)
  = (geo_of_outcome ip (ipapi e (geo_url ip)), [Fetch (geo_url ip)])
  /\ (lookup_failed (ipapi e (geo_url ip)) = true ->
      exists message,
        geo_of_outcome ip (ipapi e (geo_url ip))
        = [("error", VStr message)])
  /\ (lookup_failed (ipapi e (geo_url ip)) = false ->
      exists r data,
        ipapi e (geo_url ip) = Resolved r
        /\ json r = Resolved data
        /\ has (geo_of_outcome ip (ipapi e (geo_url ip))) "error" = false
        /\ forall key upstream default,
             In (key, upstream, default) geo_fields ->
             (truthy (field data upstream) = true ->
              get (geo_of_outcome ip (ipapi e (geo_url ip))) key
              = field data upstream)
             /\ (field data upstream = VUndefined ->
                 get (geo_of_outcome ip (ipapi e (geo_url ip))) key
                 = default)).
Proof.
  split; [reflexivity|].
  destruct (ipapi e (geo_url ip)) as [[k st tx js]|message]; simpl.
  - destruct k; simpl.
    + destruct js as [data|message]; simpl.
      * assert (G : lookup_failed
                      (Resolved (Response true st tx (Resolved data)))
                    = false ->
                    geo_of_outcome ip
                      (Resolved (Response true st tx (Resolved data)))
                    = geo_record data).
        { destruct data; simpl; intros F; try discriminate; reflexivity. }
        split.
        { destruct data; simpl; intros F; try discriminate;
            eexists; reflexivity. }
        intros F. exists (Response true st tx (Resolved data)), data.
        split; [reflexivity|]. split; [reflexivity|].
        change (match data with
                | VUndefined => error_record (null_read_message "undefined")
                | VNull => error_record (null_read_message "null")
                | _ => geo_record data
                end)
          with (geo_of_outcome ip
                  (Resolved (Response true st tx (Resolved data)))).
        rewrite (G F). split; [reflexivity|].
        intros key upstream default I. simpl in I.
        repeat (destruct I as [I | I];
                [injection I as <- <- <-; split; intros T;
                 [cbn [geo_record get String.eqb Ascii.eqb Bool.eqb];
                  unfold or_else; now rewrite T
                 |cbn [geo_record get String.eqb Ascii.eqb Bool.eqb];
                  now rewrite T]|]).
        contradiction.
      * split; [intros _; eexists; reflexivity | discriminate].
    + split; [|discriminate]. intros _. destruct tx; eexists; reflexivity.
  - split; [intros _; eexists; reflexivity | discriminate].
Qed.

Lemma getGeoData_record_witness :
  (exists message,
      geo_of_outcome "8.8.8.8" (all_fail (geo_url "8.8.8.8"))
      = [("error", VStr message)])
  /\ get (geo_of_outcome "8.8.8.8" (all_resolve (geo_url "8.8.8.8")))
         "country"
     = VStr "United States"
  /\ get (geo_of_outcome "8.8.8.8" (all_resolve (geo_url "8.8.8.8")))
         "postal_code"
     = VStr "Unknown".
Proof.
  split.
  - apply (getGeoData_record
             (sample [] (Resolved (Some "8.8.8.8")) all_fail) "8.8.8.8").
    reflexivity.
  - destruct (getGeoData_record
                (sample [] (Resolved (Some "8.8.8.8")) all_resolve)
                "8.8.8.8") as (_ & _ & A).
    destruct (A eq_refl) as (r & data & E1 & E2 & _ & F).
    injection E1 as <-. injection E2 as <-.
    split.
    + apply (F "country" "country_name" (VStr "Unknown")).
      * simpl. auto.
      * reflexivity.
    + apply (F "postal_code" "postal" (VStr "Unknown")).
      * simpl. auto 10.
      * reflexivity.
Defined.

(* ================================================================== *)
(** * Further properties of the script and of the log server *)

Import Js Server Fingerprint Views.

(** ** The handler, event by event *)

Lemma onicecandidate_skips (st : collected) (ice : option string) :
  line_of ice = None -> onicecandidate st ice = st.
Proof.
  unfold line_of, onicecandidate. destruct ice as [c|]; [|reflexivity].
  destruct (String.eqb c ""); [reflexivity | discriminate].
Qed.

Lemma onicecandidate_ips (st : collected) (ice : option string) :
  uniqueLeakedIPs (onicecandidate st ice)
  = fold_left set_add (extracted_of ice) (uniqueLeakedIPs st).
Proof.
  unfold extracted_of, line_of, onicecandidate.
  destruct ice as [c|]; [|reflexivity].
  destruct (String.eqb c ""); [reflexivity|]. simpl.
  destruct (extract c); reflexivity.
Qed.

Lemma onicecandidate_hostnames (st : collected) (ice : option string) :
  localHostnames (onicecandidate st ice)
  = fold_left set_add (hostname_of ice) (localHostnames st).
Proof.
  unfold hostname_of, line_of, onicecandidate.
  destruct ice as [c|]; [|reflexivity].
  destruct (String.eqb c ""); [reflexivity|]. simpl.
  destruct (includes c ".local "); [|reflexivity].
  destruct (group1 _); reflexivity.
Qed.

Lemma onicecandidate_types (st : collected) (ice : option string) :
  iceCandidateTypes (onicecandidate st ice)
  = match type_of ice with
    | Some t => bump (iceCandidateTypes st) t
    | None => iceCandidateTypes st
    end.
Proof.
  unfold type_of, line_of, onicecandidate.
  destruct ice as [c|]; [|reflexivity].
  destruct (String.eqb c ""); [reflexivity|]. reflexivity.
Qed.

Lemma fold_ips (events : list (option string)) (st : collected) :
  uniqueLeakedIPs (fold_left onicecandidate events st)
  = fold_left set_add (flat_map extracted_of events) (uniqueLeakedIPs st).
Proof.
  revert st; induction events as [|ev events IH]; intros st; simpl;
    [reflexivity|].
  now rewrite IH, onicecandidate_ips, fold_left_app.
Qed.

Lemma fold_hostnames (events : list (option string)) (st : collected) :
  localHostnames (fold_left onicecandidate events st)
  = fold_left set_add (flat_map hostname_of events) (localHostnames st).
Proof.
  revert st; induction events as [|ev events IH]; intros st; simpl;
    [reflexivity|].
  now rewrite IH, onicecandidate_hostnames, fold_left_app.
Qed.

(** X1.  The address set of a run is the addresses extracted from its
    candidate lines, in the order of arrival, each kept at its first
    occurrence; the set of hostnames likewise.  Events without a
    candidate add nothing. *)
Theorem collected_in_order_of_arrival (events : list (option string)) :
  uniqueLeakedIPs (collect events) = set_of (flat_map extracted_of events)
  /\ localHostnames (collect events) = set_of (flat_map hostname_of events).
Proof.
  unfold collect, set_of. now rewrite fold_ips, fold_hostnames.
Qed.

(** ** The members of [allUniqueIps] in order *)

Lemma fold_set_add_filter (l s : list string) :
  NoDup l ->
  fold_left set_add l s
  = (s ++ filter (fun x => negb (set_has s x)) l)%list.
Proof.
  revert s; induction l as [|x l IH]; intros s D; simpl.
  - now rewrite app_nil_r.
  - inversion D as [|? ? Hx Hl]; subst. rewrite (IH _ Hl).
    unfold set_add. destruct (set_has s x) eqn:E; simpl; [reflexivity|].
    rewrite <- app_assoc. simpl. do 2 f_equal.
    apply filter_ext_in. intros y Hy. unfold set_has.
    rewrite existsb_app. simpl. rewrite orb_false_r.
    destruct (String.eqb_spec y x) as [-> | N]; [contradiction|].
    now rewrite orb_false_r.
Qed.

Lemma set_of_fixed (l : list string) : NoDup l -> set_of l = l.
Proof.
  intros D. unfold set_of. rewrite (fold_set_add_filter [] D). simpl.
  induction l as [|x l IH]; simpl; [reflexivity|].
  inversion D; subst. f_equal. auto.
Qed.

Lemma strings_all_wanted (l : list string) :
  (forall x, In x l -> wanted (Some x) = true) ->
  strings (filter wanted (map Some l)) = l.
Proof.
  induction l as [|x l IH]; intros H; [reflexivity|].
  cbn [map filter]. rewrite (H x (or_introl eq_refl)).
  unfold strings in *. cbn [flat_map app]. f_equal.
  apply IH. intros y Hy. apply H. now right.
Qed.

(** X2.  The members of [allUniqueIps], in order: the primary public
    address first, when the lookup gave one (not empty, not [Unknown]),
    then the collected addresses in the order they were first seen,
    without the primary address. *)
Theorem addresses_in_order (e : env) :
  addresses e
  = match primary_of e with
    | Some p =>
        if wanted (Some p)
        then p :: filter (fun ip => negb (String.eqb ip p))
                         (uniqueLeakedIPs (collect (ice_events e)))
        else uniqueLeakedIPs (collect (ice_events e))
    | None => uniqueLeakedIPs (collect (ice_events e))
    end.
Proof.
  unfold addresses, allUniqueIps.
  set (leaked := uniqueLeakedIPs (collect (ice_events e))).
  assert (D : NoDup leaked) by (apply fold_onicecandidate_nodup; constructor).
  assert (W : strings (filter wanted (map Some leaked)) = leaked).
  { apply strings_all_wanted. intros x Hx.
    eapply address_like_wanted, collected_address_like, Hx. }
  destruct (primary_of e) as [p|]; cbn [filter].
  - destruct (wanted (Some p)).
    + unfold strings in *. cbn [flat_map app]. fold (strings (filter wanted (map Some leaked))).
      unfold strings in W |- *. rewrite W. unfold set_of. cbn [fold_left].
      change (set_add [] p) with [p].
      rewrite (fold_set_add_filter [p] D). simpl. f_equal.
      apply filter_ext. intros x. now rewrite orb_false_r.
    + rewrite W. now apply set_of_fixed.
  - cbn [wanted]. rewrite W. now apply set_of_fixed.
Qed.

(** ** The tally of candidate types *)

Lemma tally_get_set (t : tally) (key key' : string) (v : count) :
  tally_get (tally_set t key v) key'
  = if String.eqb key key' then Some v else tally_get t key'.
Proof.
  induction t as [|[k w] t IH]; simpl.
  - reflexivity.
  - destruct (String.eqb_spec k key) as [-> | N]; simpl.
    + destruct (String.eqb key key'); reflexivity.
    + rewrite IH. destruct (String.eqb_spec k key') as [-> | N'];
        [|reflexivity].
      destruct (String.eqb_spec key key') as [E | _]; [congruence|].
      reflexivity.
Qed.

Lemma tally_keys_set (t : tally) (key : string) (v : count) :
  map fst (tally_set t key v) = set_add (map fst t) key.
Proof.
  unfold set_add, set_has.
  induction t as [|[k w] t IH]; simpl; [reflexivity|].
  rewrite (String.eqb_sym key k).
  destruct (String.eqb k key); simpl; [reflexivity|].
  rewrite IH. destruct (existsb (String.eqb key) (map fst t)); reflexivity.
Qed.

Lemma bump_other (t : tally) (key key' : string) :
  key <> key' -> tally_get (bump t key) key' = tally_get t key'.
Proof.
  intros N. unfold bump. rewrite tally_get_set.
  now destruct (String.eqb_spec key key').
Qed.

Lemma occurrences_cons (t : string) (ev : option string)
      (events : list (option string)) :
  occurrences t (ev :: events)
  = match type_of ev with
    | Some u => if String.eqb u t then 1 else 0
    | None => 0
    end + occurrences t events.
Proof.
  unfold occurrences. cbn [filter].
  destruct (type_of ev) as [u|]; [|reflexivity].
  destruct (String.eqb u t); reflexivity.
Qed.

Lemma fold_types_count (t : string) (b : bool)
      (events : list (option string)) :
  t <> "constructor" ->
  forall st n,
    tally_get (iceCandidateTypes st) t = counted b n ->
    tally_get (iceCandidateTypes (fold_left onicecandidate events st)) t
    = counted b (n + occurrences t events).
Proof.
  intros Nc. induction events as [|ev events IH]; intros st n H.
  - unfold occurrences; simpl. now rewrite Nat.add_0_r.
  - rewrite occurrences_cons. cbn [fold_left].
    specialize (IH (onicecandidate st ev)).
    rewrite onicecandidate_types in IH.
    destruct (type_of ev) as [u|] eqn:Eu.
    + destruct (String.eqb_spec u t) as [-> | N].
      * rewrite Nat.add_assoc. apply IH.
        unfold bump. rewrite tally_get_set, String.eqb_refl, H.
        unfold counted. replace (0 <? n + 1)%nat with true
          by (symmetry; apply Nat.ltb_lt; lia).
        rewrite orb_true_r.
        destruct (b || (0 <? n)%nat) eqn:E; [reflexivity|].
        apply String.eqb_neq in Nc. rewrite Nc.
        apply orb_false_iff in E. destruct E as [_ E].
        apply Nat.ltb_ge in E. now replace n with 0 by lia.
      * rewrite Nat.add_0_l. apply IH. now rewrite bump_other.
    + rewrite Nat.add_0_l. apply IH, H.
Qed.

(** X3.  The tally counts: after any candidate events, the count of a
    type label other than [constructor] is the number of events that
    carried it; [host], [srflx] and [relay] have a count even at zero,
    any other label has one from its first event on. *)
Theorem tally_counts (events : list (option string)) (t : string) :
  t <> "constructor" ->
  tally_get (iceCandidateTypes (collect events)) t
  = if existsb (String.eqb t) ["host"; "srflx"; "relay"]
       || (0 <? occurrences t events)%nat
    then Some (CNum (occurrences t events))
    else None.
Proof.
  intros Nc. unfold collect.
  apply (@fold_types_count t (existsb (String.eqb t) ["host"; "srflx"; "relay"])
           events Nc start 0).
  unfold counted, start.
  cbn [iceCandidateTypes tally_get existsb]. rewrite !(String.eqb_sym t).
  destruct (String.eqb "host" t); [reflexivity|].
  destruct (String.eqb "srflx" t); [reflexivity|].
  destruct (String.eqb "relay" t); reflexivity.
Qed.

Lemma tally_counts_witness :
  "srflx" <> "constructor"
  /\ tally_get (iceCandidateTypes (collect [Some srflx_line; Some host_line]))
               "srflx"
     = Some (CNum 1).
Proof.
  assert (N : "srflx" <> "constructor") by discriminate.
  split; [exact N|].
  rewrite (@tally_counts [Some srflx_line; Some host_line] "srflx" N).
  reflexivity.
Defined.


Lemma set_of_app (a b : list string) :
  set_of (a ++ b) = fold_left set_add b (set_of a).
Proof. unfold set_of. apply fold_left_app. Qed.

Lemma fold_types_keys (events : list (option string)) (st : collected) :
  map fst (iceCandidateTypes (fold_left onicecandidate events st))
  = fold_left set_add (labels_seen events) (map fst (iceCandidateTypes st)).
Proof.
  revert st; induction events as [|ev events IH]; intros st;
    [reflexivity|].
  cbn [fold_left]. rewrite IH, onicecandidate_types.
  unfold labels_seen. cbn [flat_map].
  destruct (type_of ev) as [t|]; [|reflexivity].
  rewrite fold_left_app. cbn [fold_left]. unfold bump.
  now rewrite tally_keys_set.
Qed.

(** X5.  The keys of the tally, in the order [JSON.stringify] prints
    them: [host], [srflx], [relay], then every other label in the order
    it was first seen; each key once. *)
Theorem tally_keys_in_order (events : list (option string)) :
  map fst (iceCandidateTypes (collect events))
  = set_of ("host" :: "srflx" :: "relay" :: labels_seen events)
  /\ NoDup (map fst (iceCandidateTypes (collect events))).
Proof.
  assert (E : map fst (iceCandidateTypes (collect events))
              = set_of ("host" :: "srflx" :: "relay" :: labels_seen events)).
  { unfold collect. rewrite fold_types_keys.
    change ("host" :: "srflx" :: "relay" :: labels_seen events)
      with (["host"; "srflx"; "relay"] ++ labels_seen events)%list.
    now rewrite set_of_app. }
  split; [exact E|]. rewrite E. apply set_of_nodup.
Qed.

(** X4.  A candidate whose type label is [constructor] is not counted by
    a number: the key finds the function [Object] on the prototype of the
    tally, and [+ 1] appends the character [1] to its text, once per
    event. *)
Theorem tally_of_constructor (events : list (option string)) :
  tally_get (iceCandidateTypes (collect events)) "constructor"
  = match occurrences "constructor" events with
    | 0 => None
    | S n => Some (CStr (object_constructor_text ++ ones (S n)))
    end.
Proof.
  unfold collect.
  assert (G : forall evs st n,
             tally_get (iceCandidateTypes st) "constructor"
             = match n with
               | 0 => None
               | S n' => Some (CStr (object_constructor_text ++ ones (S n')))
               end ->
             tally_get (iceCandidateTypes (fold_left onicecandidate evs st))
                       "constructor"
             = match n + occurrences "constructor" evs with
               | 0 => None
               | S n' => Some (CStr (object_constructor_text ++ ones (S n')))
               end).
  { induction evs as [|ev evs IH]; intros st n H.
    - unfold occurrences; simpl. now rewrite Nat.add_0_r.
    - rewrite occurrences_cons. cbn [fold_left].
      specialize (IH (onicecandidate st ev)).
      rewrite onicecandidate_types in IH.
      destruct (type_of ev) as [u|] eqn:Eu.
      + destruct (String.eqb_spec u "constructor") as [-> | N].
        * rewrite Nat.add_assoc. apply IH.
          unfold bump. rewrite tally_get_set, String.eqb_refl, H.
          rewrite Nat.add_1_r. destruct n as [|n']; [reflexivity|].
          change (object_constructor_text ++ ones (S n') =? "")
            with false.
          cbn [ones]. now rewrite !append_assoc.
        * rewrite Nat.add_0_l. apply IH. now rewrite bump_other.
      + rewrite Nat.add_0_l. apply IH, H. }
  apply (G events start 0). reflexivity.
Qed.

(** ** A lookup that fails *)

Lemma failed_lookup_record (ip : string) (o : outcome response) :
  lookup_failed o = true ->
  exists message, geo_of_outcome ip o = [("error", VStr message)].
Proof.
  unfold lookup_failed, geo_of_outcome, error_record.
  destruct o as [r | message]; [|eauto].
  destruct (ok r); cbn [negb orb].
  - destruct (json r) as [[| | | | | |]|]; intros H;
      try discriminate H; eauto.
  - intros _. destruct (text r); eauto.
Qed.

(** X14.  The block of an address whose lookup failed: the address and its
    type, then every geo line with the text [undefined]; the message of
    the error is not printed. *)
Theorem failed_lookup_prints_undefined (e : env) (primary : option string)
        (ip : string) :
  lookup_failed (ipapi e (geo_url ip)) = true ->
  block primary (geo_result e ip)
  = "IP: " ++ ip ++ nl ++ "  - Type: " ++ label_of primary ip ++ nl
    ++ undefined_lines.
Proof.
  intros H. rewrite block_geo_result. do 4 f_equal.
  unfold geo_result.
  destruct (failed_lookup_record ip _ H) as (message & ->).
  reflexivity.
Qed.

Lemma failed_lookup_prints_undefined_witness :
  lookup_failed (ipapi (sample [] (Resolved None) all_fail)
                       (geo_url "8.8.8.8")) = true
  /\ block None (geo_result (sample [] (Resolved None) all_fail) "8.8.8.8")
     = "IP: 8.8.8.8" ++ nl ++ "  - Type: Leaked" ++ nl ++ undefined_lines.
Proof.
  split; [reflexivity|].
  exact (@failed_lookup_prints_undefined
           (sample [] (Resolved None) all_fail) None "8.8.8.8" eq_refl).
Defined.

(** ** The log server *)

Lemma handle_frame (file : string) (rq : post) :
  handle file rq = (reply_of rq, file ++ entry_of rq).
Proof.
  unfold reply_of, entry_of, handle.
  destruct (body rq); cbn [fst snd]; rewrite ?append_empty_r;
    try reflexivity;
    (destruct (negb (truthy _)); cbn [fst snd]; rewrite ?append_empty_r;
     [reflexivity|];
     destruct (write_ok rq); cbn [fst snd]; rewrite ?append_empty_r;
     reflexivity).
Qed.

Lemma concat_cons (x : string) (l : list string) :
  String.concat "" (x :: l) = x ++ String.concat "" l.
Proof.
  destruct l as [|y l]; simpl; [now rewrite append_empty_r | reflexivity].
Qed.

(** X16.  The log under any sequence of posts: the replies are those each
    post gets on its own, and the log is the old content followed by the
    entries of the posts in order; nothing already logged is changed or
    removed. *)
Theorem serve_appends (file : string) (rqs : list post) :
  serve file rqs
  = (map reply_of rqs, file ++ String.concat "" (map entry_of rqs)).
Proof.
  unfold serve.
  assert (G : forall rs f,
             fold_left (fun acc rq =>
                          let (r, f') := handle (snd acc) rq in
                          ((fst acc ++ [r])%list, f')) rqs (rs, f)
             = ((rs ++ map reply_of rqs)%list,
                f ++ String.concat "" (map entry_of rqs))).
  { induction rqs as [|rq rqs IH]; intros rs f.
    - simpl. now rewrite app_nil_r, append_empty_r.
    - cbn [fold_left map fst snd]. rewrite handle_frame, IH.
      rewrite <- app_assoc, concat_cons, append_assoc. reflexivity. }
  apply (G [] file).
Qed.

(** X17.  The reply and the log go together: the handler answers 200
    exactly when it has appended an entry, and then the entry holds the
    content between the header line of the server and an empty line. *)
Theorem handle_acknowledges_what_it_logs (file : string) (rq : post) :
  (fst (handle file rq) = Reply 200 "Log received."
   <-> snd (handle file rq) <> file)
  /\ (fst (handle file rq) = Reply 200 "Log received." ->
      snd (handle file rq)
      = file ++ "--- New Client Entry: " ++ now rq ++ " ---" ++ nl
        ++ to_string (field (body rq) "logContent") ++ nl ++ nl).
Proof.
  assert (N : forall a b, file ++ String a b <> file).
  { intros a b E.
    assert (L : String.length (file ++ String a b) = String.length file)
      by now rewrite E.
    rewrite length_append in L. simpl in L. lia. }
  unfold handle.
  destruct (body rq); cbn [fst snd];
    try (split; [split; [discriminate | congruence] | discriminate]);
    (destruct (negb (truthy _)); cbn [fst snd];
     [split; [split; [discriminate | congruence] | discriminate]|];
     destruct (write_ok rq); cbn [fst snd];
     [|split; [split; [discriminate | congruence] | discriminate]];
     split; [split; [intros _; apply N | reflexivity] | reflexivity]).
Qed.

Lemma handle_acknowledges_what_it_logs_witness :
  fst (handle "" (Post (body_of "report") "2026-11-02T10:00:00.000Z" true))
  = Reply 200 "Log received."
  /\ snd (handle "" (Post (body_of "report") "2026-11-02T10:00:00.000Z" true))
     = "--- New Client Entry: 2026-11-02T10:00:00.000Z ---" ++ nl
       ++ "report" ++ nl ++ nl.
Proof.
  split; [reflexivity|].
  exact (proj2 (handle_acknowledges_what_it_logs ""
                  (Post (body_of "report") "2026-11-02T10:00:00.000Z" true))
               eq_refl).
Defined.

Lemma final_report_truthy (e : env) :
  truthy (VStr (final_report e)) = true.
Proof. reflexivity. Qed.

(** X18.  Client and server together: whatever a run posts, the server
    accepts when the append succeeds, and logs it whole after its own
    header line; no report of the script is refused as empty. *)
Theorem every_report_is_logged (e : env) (content file time : string) :
  In content (posts (requests e)) ->
  handle file (Post (body_of content) time true)
  = (Reply 200 "Log received.",
     file ++ "--- New Client Entry: " ++ time ++ " ---" ++ nl
     ++ content ++ nl ++ nl).
Proof.
  intros H.
  assert (T : truthy (VStr content) = true).
  { destruct (page e) eqn:R.
    - unfold requests in H. rewrite (run_without_rtc e R) in H.
      destruct H as [<- | []]. reflexivity.
    - unfold requests in H. rewrite (run_setup_throws e R) in H.
      destruct H.
    - rewrite posts_run in H by (unfold rtc_available; now rewrite R).
      destruct H as [<- | []]. reflexivity. }
  unfold handle, body_of.
  cbn [body field get write_ok now]. 
  rewrite String.eqb_refl, T. reflexivity.
Qed.

Lemma every_report_is_logged_witness :
  In (final_report scenario) (posts (requests scenario))
  /\ handle "" (Post (body_of (final_report scenario))
                     "2026-11-02T10:00:00.000Z" true)
     = (Reply 200 "Log received.",
        "" ++ "--- New Client Entry: " ++ "2026-11-02T10:00:00.000Z"
        ++ " ---" ++ nl ++ final_report scenario ++ nl ++ nl).
Proof.
  assert (I : In (final_report scenario) (posts (requests scenario))).
  { rewrite (posts_run scenario eq_refl). left. reflexivity. }
  split; [exact I|].
  exact (@every_report_is_logged scenario (final_report scenario) ""
           "2026-11-02T10:00:00.000Z" I).
Defined.

(** ** The navigator part of the fingerprint *)

Lemma keys_set_fresh (o : obj) (key : string) (v : value) :
  ~ In key (map fst o) -> set o key v = (o ++ [(key, v)])%list.
Proof.
  induction o as [|[k w] o IH]; intros H; simpl; [reflexivity|].
  simpl in H. destruct (String.eqb_spec k key) as [-> | N].
  - exfalso. apply H. now left.
  - rewrite IH; [reflexivity|]. intros I. apply H. now right.
Qed.

Lemma probe_all_from (nav : navigator) (props : list string) (acc : obj) :
  NoDup props ->
  (forall p, In p props -> ~ In p (map fst acc)) ->
  fold_left (probe nav) props acc
  = (acc ++ map (fun p => (p, read nav p)) (filter (readable nav) props))%list.
Proof.
  revert acc; induction props as [|p props IH]; intros acc D F.
  - simpl. now rewrite app_nil_r.
  - inversion D as [|? ? Hp Hd]; subst. cbn [fold_left filter].
    assert (P : probe nav acc p
                = if readable nav p then set acc p (read nav p) else acc).
    { unfold probe, readable, read.
      destruct (nav p) as [[v | message]|]; reflexivity. }
    rewrite P. destruct (readable nav p).
    + rewrite keys_set_fresh by (apply F; now left).
      rewrite IH; [|exact Hd|].
      * rewrite <- app_assoc. reflexivity.
      * intros q Hq. rewrite map_app, in_app_iff. simpl.
        intros [I | [-> | []]]; [|contradiction].
        apply (F q); [now right | exact I].
    + apply IH; [exact Hd|]. intros q Hq. apply F. now right.
Qed.

(** X15.  The navigator part of the fingerprint holds the names of the
    allow-list that the navigator has and lets read, in the order of the
    list, each with the value read; a name whose getter throws and a
    name the navigator lacks are left out, and no other name gets in. *)
Theorem fingerprint_follows_allow_list (nav : navigator) :
  navigator_fingerprint nav
  = map (fun p => (p, read nav p)) (filter (readable nav) properties).
Proof.
  unfold navigator_fingerprint, probe_all.
  assert (D : NoDup properties).
  { assert (E : nodup string_dec properties = properties)
      by (vm_compute; reflexivity).
    rewrite <- E. apply NoDup_nodup. }
  rewrite (@probe_all_from nav properties [] D); [reflexivity|].
  intros p _ [].
Qed.

(** ** The earlier variant of the client *)

Lemma legacy_fold (events : list (option string)) (st : collected) :
  fold_left Legacy.onicecandidate events (uniqueLeakedIPs st)
  = uniqueLeakedIPs (fold_left onicecandidate events st).
Proof.
  revert st; induction events as [|ev events IH]; intros st;
    [reflexivity|].
  cbn [fold_left]. rewrite <- IH. f_equal.
  unfold Legacy.onicecandidate, onicecandidate.
  destruct ev as [c|]; [|reflexivity].
  destruct (String.eqb c ""); reflexivity.
Qed.

Lemma legacy_mapM_resolve (e : env) (ips : list string) (tr : list request) :
  mapM (Legacy.resolve e) ips tr
  = (map (Legacy.geo_result e) ips,
     (tr ++ map (fun ip => Fetch (Legacy.geo_url ip)) ips)%list).
Proof.
  revert tr; induction ips as [|ip ips IH]; intros tr; simpl.
  - unfold ret. now rewrite app_nil_r.
  - unfold bind at 1. unfold Legacy.resolve at 1, Legacy.getGeoData, bind,
      issue, ret.
    rewrite IH. rewrite <- app_assoc. reflexivity.
Qed.

Lemma legacy_spread_keeps_ip (ip : string) (o : outcome response) :
  get (spread [("ip", VStr ip)] (Legacy.geo_of_outcome ip o)) "ip" = VStr ip.
Proof.
  destruct o as [[k st tx js]|message]; [|reflexivity].
  unfold Legacy.geo_of_outcome; simpl. destruct k; simpl.
  - destruct js as [data|message]; [|reflexivity].
    destruct data; reflexivity.
  - destruct tx; reflexivity.
Qed.

Lemma legacy_blocks_text (e : env) (primary : option string)
      (ips : list string) :
  map (block primary) (map (Legacy.geo_result e) ips)
  = map (fun b => block_text (Legacy.geo_result e (fst b)) (fst b) (snd b))
        (map (fun ip => (ip, label_of primary ip)) ips).
Proof.
  rewrite !map_map. apply map_ext. intros ip.
  unfold block, ipType, label_of, Legacy.geo_result.
  now rewrite legacy_spread_keeps_ip.
Qed.

Lemma legacy_run_trace (e : env) :
  rtc_available e = true ->
  snd (run (Legacy.runLeakTest e))
  = Fetch ipify_url
    :: (map (fun ip => Fetch (Legacy.geo_url ip)) (Legacy.addresses e)
        ++ [PostLog (Legacy.final_report e)])%list.
Proof.
  unfold rtc_available, run, Legacy.runLeakTest.
  destruct (page e); try discriminate. intros _.
  unfold Legacy.report, bind, fetch_primary, issue, ret. simpl.
  rewrite legacy_mapM_resolve. reflexivity.
Qed.

(** X19.  The earlier variant of the client and the current script agree
    on the addresses: after any candidate events the earlier handler
    holds the address set of the current one.  In a run that reaches the
    timer, either variant issues the lookup of the primary address, one
    lookup per address in the same order, each at its own service, and
    then posts one report; the two reports, written out, have their
    blocks for the same addresses with the same types in the same
    order.  A run that does not reach the timer makes the same calls in
    both variants. *)
Theorem legacy_collects_the_same (e : env) :
  Legacy.collect (ice_events e) = uniqueLeakedIPs (collect (ice_events e))
  /\ Legacy.labels e = labels e
  /\ (rtc_available e = true ->
      snd (run (Legacy.runLeakTest e))
      = Fetch ipify_url
        :: (map (fun ip => Fetch (Legacy.geo_url ip)) (addresses e)
            ++ [PostLog
                  (Legacy.report_text e
                     (map (fun ip => (ip, label_of (primary_of e) ip))
                          (addresses e)))])%list
      /\ requests e
         = Fetch ipify_url
           :: (map (fun ip => Fetch (geo_url ip)) (addresses e)
               ++ [PostLog
                     (report_text e
                        (json_tally
                           (iceCandidateTypes (collect (ice_events e))))
                        (localHostnames (collect (ice_events e)))
                        (map (fun ip => (ip, label_of (primary_of e) ip))
                             (addresses e)))])%list)
  /\ (rtc_available e = false ->
      snd (run (Legacy.runLeakTest e)) = requests e).
Proof.
  assert (E : Legacy.collect (ice_events e)
              = uniqueLeakedIPs (collect (ice_events e))).
  { unfold Legacy.collect, collect. apply (legacy_fold (ice_events e) start). }
  assert (A : Legacy.addresses e = addresses e).
  { unfold Legacy.addresses, addresses. now rewrite E. }
  split; [exact E|]. split; [|split].
  - rewrite labels_by_address. unfold Legacy.labels. rewrite A, map_map.
    apply map_ext. intros ip. unfold ipType, label_of, Legacy.geo_result.
    now rewrite legacy_spread_keeps_ip.
  - intros H. split; [|exact (requests_text e H)].
    rewrite (legacy_run_trace e H), A. do 3 f_equal.
    unfold Legacy.final_report, Legacy.logContent, Legacy.report_text.
    now rewrite legacy_blocks_text, A.
  - unfold rtc_available, requests, run, Legacy.runLeakTest, runLeakTest.
    destruct (page e); [reflexivity | reflexivity | discriminate].
Qed.

Lemma legacy_collects_the_same_witness :
  rtc_available scenario = true
  /\ Legacy.labels scenario = labels scenario
  /\ snd (run (Legacy.runLeakTest scenario))
     = Fetch ipify_url
       :: (map (fun ip => Fetch (Legacy.geo_url ip)) (addresses scenario)
           ++ [PostLog
                 (Legacy.report_text scenario
                    (map (fun ip => (ip, label_of (primary_of scenario) ip))
                         (addresses scenario)))])%list.
Proof.
  destruct (legacy_collects_the_same scenario) as (_ & A & B & _).
  split; [reflexivity|]. split; [exact A | exact (proj1 (B eq_refl))].
Defined.

(** ** The matcher finds what the pattern describes *)

Lemma append_cancel_l (a b c : string) : a ++ b = a ++ c -> b = c.
Proof.
  induction a as [|x a IH]; simpl; intros H; [exact H|].
  injection H as H. auto.
Qed.

Lemma append_self (a b : string) : a = a ++ b -> b = "".
Proof.
  intros H. apply (append_cancel_l a). now rewrite append_empty_r.
Qed.

Lemma pow_length (P : string -> Prop) :
  (forall u, P u -> u <> "") ->
  forall n w, pow P n w -> n <= String.length w.
Proof.
  intros N. induction n as [|n IH]; intros w H; [lia|].
  destruct H as (u & v & -> & Hu & Hv). rewrite length_append.
  specialize (IH _ Hv). apply N in Hu.
  destruct u; [congruence | simpl; lia].
Qed.

Lemma step_if_complete (b : ascii -> bool) (k : cont) (x : mstate)
      (a : ascii) (rest : string) :
  b a = true -> remaining x = String a rest ->
  (forall y, reads x (String a "") y -> exists z, k y = Some z) ->
  exists z, step_if b k x = Some z.
Proof.
  intros B R K. unfold step_if. rewrite R, B. apply K.
  split; [exact R | reflexivity].
Qed.

Lemma repeat_complete (mr : cont -> cont) (P : string -> Prop) :
  (forall u, P u -> u <> "") ->
  (forall u rest k x,
      P u -> remaining x = u ++ rest ->
      (forall y, reads x u y -> exists z, k y = Some z) ->
      exists z, mr k x = Some z) ->
  forall fuel min n w rest k x,
    pow P n w -> Nat.min min fuel <= n <= fuel ->
    remaining x = w ++ rest ->
    (forall y, reads x w y -> exists z, k y = Some z) ->
    exists z, repeat mr k fuel min x = Some z.
Proof.
  intros N M. induction fuel as [|fuel IH]; intros min n w rest k x Hp B R K.
  - assert (n = 0) by lia. subst n. simpl in Hp. subst w.
    simpl. apply K, reads_refl.
  - cbn [repeat]. destruct n as [|n].
    + simpl in Hp. subst w.
      assert (min = 0) by lia. subst min. cbn [Nat.eqb].
      destruct (mr _ x) as [z|]; [eauto|]. apply K, reads_refl.
    + destruct Hp as (u & v & -> & Hu & Hv).
      rewrite append_assoc in R.
      assert (D : exists z,
                 mr (fun y =>
                       if (min =? 0)%nat && same_index y x then None
                       else repeat mr k fuel (Nat.pred min) y) x = Some z).
      { apply (M u (v ++ rest)); [exact Hu | exact R |].
        intros y Ry.
        assert (S : same_index y x = false).
        { unfold same_index. apply Nat.eqb_neq.
          pose proof (reads_length Ry) as L. apply N in Hu.
          destruct u; [congruence | simpl in L; lia]. }
        rewrite S, andb_false_r.
        apply (IH (Nat.pred min) n v rest); [exact Hv | lia | |].
        - destruct Ry as [Ry _]. rewrite R in Ry.
          now apply append_cancel_l in Ry.
        - intros y' Ry'. apply K. eapply reads_trans; eauto. }
      destruct D as (z & D). rewrite D.
      destruct (min =? 0)%nat; eauto.
Qed.

(** A pattern without assertions matches, at any place, every string of
    its language that the input goes on with, if the continuation takes
    it. *)
Lemma m_complete (ic : bool) (r : regex) :
  plain_pattern r = true ->
  forall w rest k x,
    language ic r w -> remaining x = w ++ rest ->
    (forall y, reads x w y -> exists z, k y = Some z) ->
    exists z, m ic r k x = Some z.
Proof.
  induction r as [c|ranges| | |r1 IH1 r2 IH2|r1 IH1 r2 IH2|r IH min max
                  |n r IH|r IH]; intros Hp w rest k x L R K;
    cbn [plain_pattern] in Hp; try discriminate Hp; cbn [m language] in *.
  - destruct L as (a & -> & E). eapply step_if_complete; eauto.
  - destruct L as (a & -> & E). eapply step_if_complete; eauto.
  - destruct L as (a & -> & E). eapply step_if_complete; eauto.
  - apply andb_prop in Hp. destruct Hp as [H1 H2].
    destruct L as (u & v & -> & Lu & Lv). rewrite append_assoc in R.
    apply (IH1 H1 u (v ++ rest)); [exact Lu | exact R |].
    intros y Ry. apply (IH2 H2 v rest); [exact Lv | |].
    + destruct Ry as [Ry _]. rewrite R in Ry.
      now apply append_cancel_l in Ry.
    + intros y' Ry'. apply K. eapply reads_trans; eauto.
  - apply andb_prop in Hp. destruct Hp as [H1 H2].
    destruct L as [L | L].
    + destruct (IH1 H1 w rest k x L R K) as (z & ->). eauto.
    + destruct (m ic r1 k x) as [z|]; [eauto|].
      apply (IH2 H2 w rest); auto.
  - apply andb_prop in Hp. destruct Hp as [H1 H2].
    apply negb_true_iff in H2.
    destruct L as (n & B & Hn).
    assert (N : forall u, language ic r u -> u <> "").
    { intros u Lu ->. destruct (language_static _ _ _ Lu) as [E _].
      rewrite H2 in E. discriminate (E eq_refl). }
    apply (@repeat_complete (m ic r) (language ic r) N) with (n := n) (w := w) (rest := rest);
      auto.
    + intros u rest' k' x' Lu. apply (IH H1 u rest' k' x' Lu).
    + pose proof (@pow_length (language ic r) N n w Hn) as Ln.
      assert (Lw : String.length (remaining x)
                   = String.length w + String.length rest)
        by now rewrite R, length_append.
      unfold iterations, count_ok in *. destruct max; lia.
  - apply (IH Hp w rest); [exact L | exact R |].
    intros y Ry. apply K. split; simpl; apply Ry.
Qed.

(** For such a pattern, matching a whole string decides the language. *)
Lemma whole_complete (ic : bool) (r : regex) (s : string) :
  plain_pattern r = true -> language ic r s -> whole ic r s = true.
Proof.
  intros Hp L. unfold whole.
  destruct (@m_complete ic r Hp s "" 
              (fun y => match remaining y with
                        | "" => Some y
                        | String _ _ => None
                        end) (MState "" s []) L) as (z & ->);
    [simpl; now rewrite append_empty_r | | reflexivity].
  intros y [Ry _]. simpl in Ry. apply append_self in Ry. rewrite Ry. eauto.
Qed.

(** ** The classifier on dotted quads *)

(** The decimal text of every number up to 255 is an octet of the
    pattern and reads back as the number. *)
Lemma octet_text (n : nat) :
  n <= 255 ->
  language false octet4 (nat_to_string n)
  /\ decimal (nat_to_string n) = Some n.
Proof.
  intros H.
  assert (A : forallb (fun n => whole false octet4 (nat_to_string n)
                                && match decimal (nat_to_string n) with
                                   | Some k => (k =? n)%nat
                                   | None => false
                                   end) (seq 0 256) = true)
    by (vm_compute; reflexivity).
  rewrite forallb_forall in A.
  specialize (A n (proj2 (in_seq 256 0 n) ltac:(lia))).
  apply andb_prop in A. destruct A as [W D]. split.
  - now apply whole_language.
  - destruct (decimal (nat_to_string n)) as [k|]; [|discriminate].
    apply Nat.eqb_eq in D. now subst.
Qed.

Lemma dotted_is_literal (a b c d : nat) :
  a <= 255 -> b <= 255 -> c <= 255 -> d <= 255 ->
  ipv4_literal (dotted a b c d) = true.
Proof.
  intros Ha Hb Hc Hd.
  destruct (octet_text Ha) as [La _], (octet_text Hb) as [Lb _],
    (octet_text Hc) as [Lc _], (octet_text Hd) as [Ld _].
  apply whole_complete; [reflexivity|].
  assert (O : forall n, language false octet4 (nat_to_string n) ->
                        language false (Seq octet4 (Chr "."))
                                 (nat_to_string n ++ ".")).
  { intros n L. exists (nat_to_string n), ".". repeat split; [exact L|].
    exists "."%char. split; reflexivity. }
  exists ((nat_to_string a ++ ".") ++ (nat_to_string b ++ ".")
          ++ (nat_to_string c ++ ".") ++ ""), (nat_to_string d).
  split; [|split; [|exact Ld]].
  - unfold dotted. rewrite append_empty_r, !append_assoc. reflexivity.
  - exists 3. split; [unfold count_ok; simpl; lia|].
    cbn [pow]. repeat (eexists; eexists; split; [reflexivity|]; split;
                       [apply O; assumption|]).
    reflexivity.
Qed.

(** The policy of the specification on a dotted quad is on its first two
    numbers. *)
Lemma spec_private_dotted (a b c d : nat) :
  a <= 255 -> b <= 255 -> c <= 255 -> d <= 255 ->
  spec_private (dotted a b c d) = rfc1918 a b.
Proof.
  intros Ha Hb Hc Hd. unfold spec_private.
  rewrite (dotted_is_literal Ha Hb Hc Hd).
  destruct (octet_text Ha) as [La Da], (octet_text Hb) as [Lb Db],
    (octet_text Hc) as [Lc Dc], (octet_text Hd) as [Ld Dd].
  apply octet4_digits in La, Lb, Lc, Ld.
  destruct La as [_ La], Lb as [_ Lb], Lc as [_ Lc], Ld as [_ Ld].
  assert (S : split "." (dotted a b c d)
              = [nat_to_string a; nat_to_string b; nat_to_string c;
                 nat_to_string d]).
  { unfold split, dotted. cbn [append].
    rewrite (@split_go_digits _ _ _ La), (@split_go_digits _ _ _ Lb),
      (@split_go_digits _ _ _ Lc), (@split_go_last _ _ Ld).
    reflexivity. }
  rewrite S. cbn [map]. rewrite Da, Db. reflexivity.
Qed.

(** ** What the extraction yields *)

(** Every string of a scan is in the language of the pattern, and a
    scan leaves the input cut into its matches and the text between
    them. *)
Lemma match_at_language (re : regexp) (before after : string) (e : mstate) :
  match_at re before after = Some e ->
  language (ignoreCase re) (source re)
           (between (MState before after []) e)
  /\ reads (MState before after []) (between (MState before after []) e) e.
Proof.
  intros H. apply m_language in H.
  destruct H as (w & y & R & K & L). injection K as <-.
  rewrite (between_reads R). auto.
Qed.

Lemma scan_language (re : regexp) (after : string) :
  forall skip before w,
    In w (scan re skip before after) ->
    language (ignoreCase re) (source re) w.
Proof.
  induction after as [|c after IH]; intros skip before w H.
  - destruct skip; simpl in H; [|contradiction].
    destruct (match_at re before "") as [e|] eqn:E; [|contradiction].
    destruct H as [<- | []]. now apply match_at_language.
  - destruct skip; simpl in H.
    + destruct (match_at re before (String c after)) as [e|] eqn:E.
      * destruct H as [<- | H]; [now apply match_at_language|].
        eapply IH; eauto.
      * eapply IH; eauto.
    + eapply IH; eauto.
Qed.

Lemma skip_chars_all (w rest : string) :
  skip_chars (String.length w) (w ++ rest) = rest.
Proof. induction w as [|c w IH]; simpl; [now destruct rest | exact IH]. Qed.

Lemma weave_head (c : ascii) (gaps matches : list string) :
  exists gaps',
    List.length gaps' = List.length gaps
    /\ (gaps <> [] -> weave gaps' matches = String c (weave gaps matches)).
Proof.
  destruct gaps as [|g gaps].
  - exists []. split; [reflexivity | congruence].
  - exists (String c g :: gaps). split; [reflexivity|]. intros _.
    destruct matches; reflexivity.
Qed.

Lemma scan_weave (re : regexp) :
  nullable (source re) = false ->
  forall after skip before,
    exists gaps,
      List.length gaps = S (List.length (scan re skip before after))
      /\ weave gaps (scan re skip before after) = skip_chars skip after.
Proof.
  intros Hn. induction after as [|c after IH]; intros skip before.
  - destruct skip; simpl.
    + destruct (match_at re before "") as [e|] eqn:E.
      * exfalso. apply match_at_language in E. destruct E as [L [R _]].
        simpl in R. destruct (between _ e); [|discriminate R].
        destruct (language_static _ _ _ L) as [N _].
        rewrite Hn in N. discriminate (N eq_refl).
      * exists [""]. auto.
    + exists [""]. auto.
  - destruct skip; cbn [scan skip_chars].
    + destruct (match_at re before (String c after)) as [e|] eqn:E.
      * apply match_at_language in E. destruct E as [L [R _]].
        cbn [remaining] in R.
        set (w := between (MState before (String c after) []) e) in *.
        destruct w as [|a w'] eqn:Ew.
        { destruct (language_static _ _ _ L) as [N _].
          rewrite Hn in N. discriminate (N eq_refl). }
        cbn [append] in R. injection R as Ec Ea.
        destruct (IH (Nat.pred (String.length (String a w')))
                     (String c before)) as (gaps & Lg & Wg).
        exists ("" :: gaps). split; [simpl; now rewrite Lg|].
        cbn [weave append]. rewrite Wg. cbn [String.length Nat.pred].
        rewrite Ea at 1. rewrite skip_chars_all. now rewrite Ec, Ea.
      * destruct (IH 0 (String c before)) as (gaps & Lg & Wg).
        destruct (weave_head c gaps (scan re 0 (String c before) after))
          as (gaps' & Lg' & Wg').
        exists gaps'. split; [congruence|].
        rewrite Wg'; [now rewrite Wg|].
        intros ->. discriminate Lg.
    + apply IH.
Qed.

Lemma extract_scan (candidate : string) (ips : list string) :
  extract candidate = Some ips -> scan regexAnyIP 0 "" candidate = ips.
Proof.
  unfold extract, match_all.
  destruct (scan regexAnyIP 0 "" candidate); [discriminate|].
  now intros [= <-].
Qed.

(** The [i] flag only adds matches. *)
Lemma class_match_flag (ranges : list (ascii * ascii)) (a : ascii) :
  class_match false ranges a = true -> class_match true ranges a = true.
Proof. unfold class_match. intros H. apply orb_prop in H.
  destruct H as [-> | H]; [reflexivity | discriminate H].
Qed.

Lemma char_eq_flag (a c : ascii) :
  char_eq false a c = true -> char_eq true a c = true.
Proof.
  unfold char_eq. intros H. apply Ascii.eqb_eq in H. subst.
  apply Ascii.eqb_refl.
Qed.

Lemma pow_impl (P Q : string -> Prop) :
  (forall w, P w -> Q w) -> forall n w, pow P n w -> pow Q n w.
Proof.
  intros PQ. induction n as [|n IH]; intros w H; [exact H|].
  destruct H as (u & v & -> & Hu & Hv). exists u, v. auto.
Qed.

Lemma language_flag (r : regex) :
  forall w, language false r w -> language true r w.
Proof.
  induction r as [c|ranges| | |r1 IH1 r2 IH2|r1 IH1 r2 IH2|r IH min max
                  |n r IH|r IH]; intros w H; cbn [language] in *; auto.
  - destruct H as (a & -> & E). exists a. split; [reflexivity|].
    now apply char_eq_flag.
  - destruct H as (a & -> & E). exists a. split; [reflexivity|].
    now apply class_match_flag.
  - destruct H as (u & v & -> & Hu & Hv). exists u, v. auto.
  - destruct H as [H | H]; auto.
  - destruct H as (n & B & H). exists n. split; [exact B|].
    eapply pow_impl; eauto.
Qed.

Lemma address_pattern_language (w : string) :
  language false (source regexAnyIP) w ->
  ipv4_literal w = true \/ ipv6_literal w = true.
Proof.
  intros [L | L].
  - left. apply whole_complete; [reflexivity|].
    change (exists u v, w = u ++ v /\ u = ""
            /\ exists u1 v1, v = u1 ++ v1
               /\ language false (times (Seq octet4 (Chr ".")) 3 3) u1
               /\ exists u2 v2, v1 = u2 ++ v2
                  /\ language false octet4 u2 /\ v2 = "") in L.
    destruct L as (u & v & -> & -> & u1 & v1 & -> & L1
                   & u2 & v2 & -> & L2 & ->).
    exists u1, u2. rewrite append_empty_r. auto.
  - right. apply whole_complete; [reflexivity|].
    change (exists u v, w = u ++ v /\ language false ipv6_any u /\ v = "")
      in L.
    destruct L as (u & v & -> & L & ->). rewrite append_empty_r.
    now apply language_flag.
Qed.

(** ** The type label and the hostname of a candidate line *)

Lemma search_found (re : regexp) (after : string) :
  forall before x e,
    search re before after = Some (x, e) ->
    exists b a,
      x = MState b a [] /\ match_at re b a = Some e
      /\ rev_append b a = rev_append before after.
Proof.
  induction after as [|c after IH]; intros before x e H; cbn [search] in H.
  - destruct (match_at re before "") as [e'|] eqn:E; [|discriminate].
    injection H as <- <-. exists before, "". auto.
  - destruct (match_at re before (String c after)) as [e'|] eqn:E.
    + injection H as <- <-. exists before, (String c after). auto.
    + apply IH in H. destruct H as (b & a & -> & M & R).
      exists b, a. auto.
Qed.

Lemma step_if_found (b : ascii -> bool) (k : cont) (x z : mstate) :
  step_if b k x = Some z ->
  exists a t, remaining x = String a t /\ b a = true
              /\ k (advance a t x) = Some z.
Proof.
  unfold step_if. destruct (remaining x) as [|a t]; [discriminate|].
  destruct (b a) eqn:B; [|discriminate]. eauto.
Qed.

Lemma chr_found (c : ascii) (k : cont) (x z : mstate) :
  m false (Chr c) k x = Some z ->
  exists t, remaining x = String c t /\ k (advance c t x) = Some z.
Proof.
  intros H. apply step_if_found in H. destruct H as (a & t & R & E & K).
  apply Ascii.eqb_eq in E. subst a. eauto.
Qed.

Lemma get_group_set (n : nat) (w : string) (g : list (nat * string)) :
  get_group n (set_group n w g) = Some w.
Proof.
  induction g as [|[i v] g IH]; simpl.
  - now rewrite Nat.eqb_refl.
  - destruct (i =? n)%nat eqn:E; simpl; [now rewrite Nat.eqb_refl|].
    now rewrite E.
Qed.

(** A greedy repetition of a class before a continuation that takes
    every state: it reads characters of the class as long as there are
    any. *)
Lemma repeat_class_greedy (b : ascii -> bool) (k : cont) :
  (forall y, exists z, k y = Some z) ->
  forall fuel min x z,
    String.length (remaining x) < fuel ->
    repeat (step_if b) k fuel min x = Some z ->
    exists w y,
      reads x w y /\ k y = Some z /\ string_forall b w = true
      /\ min <= String.length w
      /\ forall a p, remaining y = String a p -> b a = false.
Proof.
  intros T. induction fuel as [|fuel IH]; intros min x z Hl H; [lia|].
  cbn [repeat] in H.
  set (d := fun y => if (min =? 0)%nat && same_index y x then None
                     else repeat (step_if b) k fuel (Nat.pred min) y) in H.
  assert (Stop : step_if b d x = None ->
                 exists w y,
                   reads x w y /\ k y = Some z /\ string_forall b w = true
                   /\ min <= String.length w
                   /\ forall a p, remaining y = String a p -> b a = false).
  { intros S. rewrite S in H.
    destruct (min =? 0)%nat eqn:E; [|discriminate].
    apply Nat.eqb_eq in E. subst min.
    exists "", x. split; [apply reads_refl|].
    split; [exact H|]. split; [reflexivity|]. split; [simpl; lia|].
    intros a p R. unfold step_if in S. rewrite R in S.
    destruct (b a) eqn:B; [|reflexivity]. exfalso.
    unfold d in S. cbn [Nat.eqb andb Nat.pred] in S.
    assert (I : same_index (advance a p x) x = false).
    { unfold same_index. apply Nat.eqb_neq. rewrite R. simpl. lia. }
    rewrite I in S. destruct fuel as [|fuel'].
    - simpl in S. destruct (T (advance a p x)) as (z' & Z). congruence.
    - cbn [repeat Nat.eqb] in S.
      destruct (step_if b _ (advance a p x)); [discriminate|].
      destruct (T (advance a p x)) as (z' & Z). congruence. }
  destruct (step_if b d x) as [z'|] eqn:S; [|now apply Stop].
  assert (Hz : z' = z) by (destruct (min =? 0)%nat; congruence).
  subst z'. clear H Stop.
  apply step_if_found in S. destruct S as (a & t & R & B & D).
  unfold d in D.
  assert (I : same_index (advance a t x) x = false).
  { unfold same_index. apply Nat.eqb_neq. rewrite R. simpl. lia. }
  rewrite I, andb_false_r in D.
  apply IH in D; [|rewrite R in Hl; simpl in *; lia].
  destruct D as (w & y & [R1 R2] & K & F & Lm & Mx).
  exists (String a w), y. repeat split; auto.
  - rewrite R. simpl in R1. now rewrite R1.
  - simpl. now rewrite B, F.
  - simpl. lia.
Qed.

Lemma lower_class (c : ascii) :
  class_match false [("a", "z")%char] c = is_lower c.
Proof. unfold class_match, class_mem. simpl. now rewrite !orb_false_r. Qed.

Lemma string_forall_ext (p q : ascii -> bool) (w : string) :
  (forall c, p c = q c) -> string_forall p w = string_forall q w.
Proof.
  intros E. induction w as [|c w IH]; simpl; [reflexivity|].
  now rewrite E, IH.
Qed.

Lemma chars_language (s : string) :
  forall c w, language false (seqs (Chr c) (chars s)) w -> w = String c s.
Proof.
  induction s as [|c' s IH]; intros c w L; cbn [chars seqs language] in L.
  - destruct L as (a & -> & E). apply Ascii.eqb_eq in E. now subst.
  - destruct L as (u & v & -> & (a & -> & E) & Lv).
    apply Ascii.eqb_eq in E. subst a. now rewrite (IH _ _ Lv).
Qed.

Lemma hostname_class (c : ascii) :
  class_match false [("a", "f"); ("0", "9"); ("-", "-")]%char c
  = hostname_char c.
Proof.
  destruct c as [[] [] [] [] [] [] [] []]; reflexivity.
Qed.

Lemma hostname_found (candidate h : string) :
  group1 (exec regexHostname candidate) = Some h ->
  exists p pre post,
    h = p ++ ".local" /\ p <> "" /\ string_forall hostname_char p = true
    /\ candidate = pre ++ h ++ post.
Proof.
  unfold group1, exec.
  destruct (search regexHostname "" candidate) as [[x e]|] eqn:S;
    [|discriminate].
  intros G. apply search_found in S. destruct S as (b & a & -> & M & R).
  unfold match_at, regexHostname in M. cbn [source ignoreCase] in M.
  cbn [m] in M. fold m in M.
  change (m false (seqs (plus (Cls [("a", "f"); ("0", "9"); ("-", "-")]%char))
                        (chars ".local"))
            (fun y => Some (MState (consumed y) (remaining y)
                              (set_group 1 (between (MState b a []) y)
                                         (groups y))))
            (MState b a []) = Some e) in M.
  apply m_language in M. destruct M as (w & y & Ry & K & L).
  injection K as <-. cbn [groups] in G.
  rewrite get_group_set, (between_reads Ry) in G. injection G as <-.
  change (exists u v,
             w = u ++ v
             /\ language false
                  (plus (Cls [("a", "f"); ("0", "9"); ("-", "-")]%char)) u
             /\ language false (seqs (Chr ".") (chars "local")) v) in L.
  destruct L as (u & v & -> & Lu & Lv).
  apply chars_language in Lv. subst v.
  exists u, (rev_append b ""), (remaining y). repeat split.
  - intros ->. destruct (language_static _ _ _ Lu) as [E _].
    discriminate (E eq_refl).
  - apply language_alphabet in Lu. rewrite <- Lu.
    apply string_forall_ext. intros c. symmetry. apply hostname_class.
  - destruct Ry as [Ry _]. cbn [remaining] in Ry. subst a.
    simpl in R. rewrite <- R. now rewrite (rev_append_spec b).
Qed.

(** ** A dotted quad between spaces is found *)

(** Two runs of digits that end at a dot, or where no word character
    follows, are the same run. *)
Lemma digits_to_dot (o n s s' : string) :
  string_forall is_digit o = true -> string_forall is_digit n = true ->
  o ++ String "." s = n ++ String "." s' -> o = n /\ s = s'.
Proof.
  revert n; induction o as [|c o IH]; intros n Ho Hn E.
  - destruct n as [|c' n]; simpl in E.
    + injection E as ->. auto.
    + injection E as <- _. simpl in Hn. discriminate Hn.
  - simpl in Ho. apply andb_prop in Ho. destruct Ho as [Dc Ho].
    destruct n as [|c' n]; simpl in E.
    + injection E as -> _. discriminate Dc.
    + injection E as <- E. simpl in Hn. apply andb_prop in Hn.
      destruct Hn as [_ Hn]. destruct (IH n Ho Hn E) as [-> ->]. auto.
Qed.

Lemma digits_to_space (o n r rest : string) :
  string_forall is_digit o = true -> string_forall is_digit n = true ->
  o ++ r = n ++ String " " rest ->
  match r with String a _ => is_word a | "" => false end = false ->
  o = n.
Proof.
  revert n; induction o as [|c o IH]; intros n Ho Hn E W.
  - destruct n as [|c' n]; [reflexivity|]. simpl in E. subst r.
    simpl in Hn. apply andb_prop in Hn. destruct Hn as [Dc _].
    destruct (@digit_facts c' Dc) as (Wc & _). congruence.
  - simpl in Ho. apply andb_prop in Ho. destruct Ho as [Dc Ho].
    destruct n as [|c' n]; simpl in E.
    + injection E as -> _. discriminate Dc.
    + injection E as <- E. simpl in Hn. apply andb_prop in Hn.
      destruct Hn as [_ Hn]. now rewrite (IH n Ho Hn E W).
Qed.

Lemma dotted_language (a b c d : nat) :
  a <= 255 -> b <= 255 -> c <= 255 -> d <= 255 ->
  language false (Seq (times (Seq octet4 (Chr ".")) 3 3) octet4)
           (dotted a b c d).
Proof.
  intros Ha Hb Hc Hd. apply whole_language.
  now apply dotted_is_literal.
Qed.

Lemma octet_digits (n : nat) :
  n <= 255 ->
  nat_to_string n <> "" /\ string_forall is_digit (nat_to_string n) = true.
Proof. intros H. apply octet4_digits. now apply octet_text. Qed.

(** Where the input goes on, after a space, with a dotted quad and a
    space, the address pattern matches the quad. *)
Lemma match_at_dotted (before rest : string) (a b c d : nat) :
  a <= 255 -> b <= 255 -> c <= 255 -> d <= 255 ->
  exists e,
    match_at regexAnyIP (String " " before)
             (dotted a b c d ++ String " " rest) = Some e
    /\ between (MState (String " " before)
                       (dotted a b c d ++ String " " rest) []) e
       = dotted a b c d.
Proof.
  intros Ha Hb Hc Hd.
  set (quad := dotted a b c d).
  set (x := MState (String " " before) (quad ++ String " " rest) []).
  destruct (octet_digits Ha) as [Na Da], (octet_digits Hb) as [Nb Db],
    (octet_digits Hc) as [Nc Dc], (octet_digits Hd) as [Nd Dd].
  set (P := Seq (times (Seq octet4 (Chr ".")) 3 3) octet4).
  assert (B0 : xorb (word_before x) (word_after x) = true).
  { unfold word_before, word_after, x, quad, dotted; simpl.
    destruct (nat_to_string a) as [|c0 t0]; [congruence|]. simpl.
    simpl in Da. apply andb_prop in Da. destruct Da as [Da _].
    now destruct (@digit_facts c0 Da) as (-> & _). }
  assert (M4 : m false regexIPv4_source Some x
               = m false P (m false WordB Some) x).
  { change (m false regexIPv4_source Some x)
      with (if xorb (word_before x) (word_after x)
            then m false P (m false WordB Some) x else None).
    now rewrite B0. }
  assert (C : exists z, m false P (m false WordB Some) x = Some z).
  { apply (@m_complete false P eq_refl quad (String " " rest)).
    - now apply dotted_language.
    - reflexivity.
    - intros y [R1 R2]. cbn [remaining consumed x] in R1, R2.
      apply append_cancel_l in R1.
      cbn [m]. unfold word_before, word_after. rewrite <- R1, R2.
      unfold quad, dotted. rewrite <- !append_assoc, rev_append_app.
      destruct (@rev_append_digit (nat_to_string d)
                  (rev_append
                     (((((nat_to_string a ++ ".") ++ nat_to_string b) ++ ".")
                       ++ nat_to_string c) ++ ".")
                     (String " " before)) Nd Dd) as (c0 & t0 & -> & D0).
      destruct (@digit_facts c0 D0) as (-> & _). simpl. eauto. }
  destruct C as (z & Mz).
  exists z. split.
  - unfold match_at, regexAnyIP. cbn [source ignoreCase]. fold x.
    change (m false (Alt regexIPv4_source regexIPv6_source) Some x)
      with (match m false regexIPv4_source Some x with
            | Some z => Some z
            | None => m false regexIPv6_source Some x
            end).
    now rewrite M4, Mz.
  - fold x. apply m_language in Mz.
    destruct Mz as (w & y & Ry & K & L).
    cbn [m] in K.
    destruct (xorb (word_before y) (word_after y)) eqn:By; [|discriminate].
    injection K as <-. rewrite (between_reads Ry).
    assert (W : ipv4_literal w = true)
      by (apply whole_complete; [reflexivity | exact L]).
    destruct (@ipv4_literal_shape w W)
      as (o1 & o2 & o3 & o4 & -> & L1 & L2 & L3 & L4).
    apply octet4_digits in L1, L2, L3, L4.
    destruct L1 as [N1 D1], L2 as [N2 D2], L3 as [N3 D3], L4 as [N4 D4].
    destruct Ry as [R1 R2]. cbn [remaining consumed x] in R1, R2.
    unfold quad, dotted in R1 |- *.
    rewrite !append_assoc in R1. cbn [append] in R1.
    destruct (@digits_to_dot _ _ _ _ Da D1 R1) as [<- R1'].
    destruct (@digits_to_dot _ _ _ _ Db D2 R1') as [<- R1''].
    destruct (@digits_to_dot _ _ _ _ Dc D3 R1'') as [<- R1'''].
    assert (E4 : o4 = nat_to_string d).
    { apply (@digits_to_space o4 (nat_to_string d) (remaining y) rest
               D4 Dd (eq_sym R1''')).
      unfold word_before, word_after in By. rewrite R2 in By.
      rewrite <- !append_assoc, rev_append_app in By.
      destruct (@rev_append_digit o4
                  (rev_append
                     (((((nat_to_string a ++ ".") ++ nat_to_string b) ++ ".")
                       ++ nat_to_string c) ++ ".")
                     (String " " before)) N4 D4) as (c0 & t0 & E0 & D0).
      rewrite E0 in By.
      destruct (@digit_facts c0 D0) as (W0 & _). rewrite W0 in By.
      destruct (remaining y) as [|a0 r0]; [reflexivity|].
      simpl in By. now destruct (is_word a0). }
    now rewrite E4.
Qed.

Lemma prefix_without (p : ascii -> bool) (sep : ascii) (w r pre t : string) :
  p sep = false -> string_forall p w = true ->
  w ++ r = pre ++ String sep t -> String.length w <= String.length pre.
Proof.
  intros Hs. revert pre; induction w as [|c w IH]; intros pre Hw E;
    [simpl; lia|].
  simpl in Hw. apply andb_prop in Hw. destruct Hw as [Hc Hw].
  destruct pre as [|c' pre]; simpl in E.
  - injection E as -> _. congruence.
  - injection E as _ E. simpl. specialize (IH pre Hw E). lia.
Qed.

(** A scan gets to the place after a space with nothing to step over:
    no match holds a space. *)
Lemma scan_reaches (re : regexp) :
  nullable (source re) = false ->
  alphabet (ignoreCase re) (source re) " " = false ->
  forall pre skip before tail,
    skip <= String.length pre ->
    exists found,
      scan re skip before (pre ++ String " " tail)
      = (found ++ scan re 0 (String " " (rev_append pre before)) tail)%list.
Proof.
  intros Hn Ha.
  assert (Hm : forall before after e,
             match_at re before after = Some e ->
             exists c w r, between (MState before after []) e = String c w
                           /\ after = String c w ++ r
                           /\ string_forall
                                (alphabet (ignoreCase re) (source re))
                                (String c w) = true).
  { intros before after e H. apply match_at_language in H.
    destruct H as [L [R _]]. cbn [remaining] in R.
    destruct (between (MState before after []) e) as [|c w] eqn:E.
    - destruct (language_static _ _ _ L) as [N _].
      rewrite Hn in N. discriminate (N eq_refl).
    - exists c, w, (remaining e). split; [reflexivity|]. split; [exact R|].
      now apply language_alphabet. }
  induction pre as [|c pre IH]; intros skip before tail Hs.
  - assert (skip = 0) by (simpl in Hs; lia). subst skip.
    cbn [append scan rev_append].
    destruct (match_at re before (String " " tail)) as [e|] eqn:E.
    + exfalso. apply Hm in E. destruct E as (c & w & r & _ & E & F).
      simpl in E. injection E as <- _. simpl in F.
      rewrite Ha in F. discriminate F.
    + exists []. reflexivity.
  - cbn [append rev_append]. destruct skip as [|skip]; cbn [scan].
    + destruct (match_at re before (String c (pre ++ String " " tail)))
        as [e|] eqn:E.
      * apply Hm in E. destruct E as (c0 & w & r & -> & E & F).
        assert (Lw : String.length (String c0 w)
                     <= String.length (String c pre)).
        { apply (@prefix_without _ " "%char (String c0 w) r (String c pre)
                   tail Ha F). symmetry. exact E. }
        destruct (IH (Nat.pred (String.length (String c0 w)))
                     (String c before) tail) as (found & ->);
          [simpl in *; lia|].
        exists (String c0 w :: found). reflexivity.
      * apply IH. lia.
    + apply IH. simpl in Hs. lia.
Qed.

Lemma extract_dotted (pre post : string) (a b c d : nat) :
  a <= 255 -> b <= 255 -> c <= 255 -> d <= 255 ->
  exists ips,
    extract (pre ++ " " ++ dotted a b c d ++ " " ++ post) = Some ips
    /\ In (dotted a b c d) ips.
Proof.
  intros Ha Hb Hc Hd.
  destruct (@scan_reaches regexAnyIP eq_refl eq_refl pre 0 ""
              (dotted a b c d ++ " " ++ post) ltac:(lia)) as (found & S).
  destruct (@match_at_dotted (rev_append pre "") post a b c d Ha Hb Hc Hd)
    as (e & M & B).
  assert (I : In (dotted a b c d)
                 (scan regexAnyIP 0 ""
                       (pre ++ " " ++ dotted a b c d ++ " " ++ post))).
  { change (pre ++ " " ++ dotted a b c d ++ " " ++ post)
      with (pre ++ String " " (dotted a b c d ++ String " " post)).
    change (dotted a b c d ++ " " ++ post)
      with (dotted a b c d ++ String " " post) in S.
    rewrite S. apply in_or_app. right.
    destruct (dotted a b c d ++ String " " post) as [|c0 t0] eqn:Q.
    - destruct (dotted a b c d); discriminate Q.
    - cbn [scan]. rewrite M, B. now left. }
  unfold extract, match_all.
  destruct (scan regexAnyIP 0 "" _) as [|w l]; [contradiction|].
  eexists. split; [reflexivity | exact I].
Qed.

(** ** From the candidate line to the report *)

(** X11.  [isPrivateIP] on the dotted quads: for any four numbers up to
    255, the address written in decimal is private exactly when it is in
    10.0.0.0/8, 172.16.0.0/12 or 192.168.0.0/16. *)
Theorem isPrivateIP_on_dotted_quads (a b c d : nat) :
  a <= 255 -> b <= 255 -> c <= 255 -> d <= 255 ->
  isPrivateIP (dotted a b c d) = rfc1918 a b.
Proof.
  intros Ha Hb Hc Hd.
  rewrite (@isPrivateIP_on_ipv4_literals (dotted a b c d))
    by now apply dotted_is_literal.
  now apply spec_private_dotted.
Qed.

Lemma isPrivateIP_on_dotted_quads_witness :
  172 <= 255 /\ 31 <= 255 /\ 0 <= 255 /\ 9 <= 255
  /\ isPrivateIP "172.31.0.9" = true.
Proof.
  assert (A : 172 <= 255) by lia. assert (B : 31 <= 255) by lia.
  assert (C : 0 <= 255) by lia. assert (D : 9 <= 255) by lia.
  exact (conj A (conj B (conj C (conj D
           (@isPrivateIP_on_dotted_quads 172 31 0 9 A B C D))))).
Defined.

Lemma weave_in (ips : list string) :
  forall gaps ip,
    List.length gaps = S (List.length ips) -> In ip ips ->
    exists pre post, weave gaps ips = pre ++ ip ++ post.
Proof.
  induction ips as [|w ips IH]; intros gaps ip L I; [contradiction|].
  destruct gaps as [|g gaps]; [discriminate L|]. cbn [weave].
  destruct I as [-> | I].
  - exists g, (weave gaps ips). reflexivity.
  - injection L as L. destruct (IH gaps ip L I) as (pre & post & ->).
    exists (g ++ w ++ pre), post. now rewrite !append_assoc.
Qed.

Lemma collected_from (events : list (option string)) (ip : string) :
  In ip (uniqueLeakedIPs (collect events)) ->
  exists candidate ips,
    In (Some candidate) events /\ extract candidate = Some ips /\ In ip ips.
Proof.
  unfold collect. rewrite fold_ips. intros H.
  apply fold_set_add_in in H. destruct H as [[] | H].
  apply in_flat_map in H. destruct H as (ev & I & H).
  unfold extracted_of, line_of in H.
  destruct ev as [c|]; [|contradiction].
  destruct (String.eqb c ""); [contradiction|].
  destruct (extract c) as [ips|] eqn:E; [|contradiction].
  exists c, ips. auto.
Qed.

(** X8.  Every collected address is an address literal that stands in a
    candidate line: an IPv4 literal of [regexIPv4] or one of the twelve
    forms of [regexIPv6]. *)
Theorem collected_are_literals (events : list (option string))
        (ip : string) :
  In ip (uniqueLeakedIPs (collect events)) ->
  (ipv4_literal ip = true \/ ipv6_literal ip = true)
  /\ exists candidate pre post,
      In (Some candidate) events /\ candidate = pre ++ ip ++ post.
Proof.
  intros H. apply collected_from in H.
  destruct H as (c & ips & I & E & J).
  apply extract_scan in E. split.
  - apply address_pattern_language.
    apply (@scan_language regexAnyIP c 0 "" ip). now rewrite E.
  - destruct (@scan_weave regexAnyIP eq_refl c 0 "") as (gaps & L & W).
    rewrite E in L, W. cbn [skip_chars] in W.
    destruct (@weave_in ips gaps ip L J) as (pre & post & Q).
    exists c, pre, post. split; [exact I | congruence].
Qed.

Lemma collected_are_literals_witness :
  In "192.168.1.5" (uniqueLeakedIPs (collect [Some host_line]))
  /\ (ipv4_literal "192.168.1.5" = true \/ ipv6_literal "192.168.1.5" = true).
Proof.
  assert (I : In "192.168.1.5" (uniqueLeakedIPs (collect [Some host_line])))
    by (vm_compute; auto).
  split; [exact I|].
  exact (proj1 (@collected_are_literals [Some host_line] "192.168.1.5" I)).
Defined.

(** X9.  The extraction cuts the candidate line: the strings it yields
    are pieces of the line that do not overlap, in the order they stand
    in it; when it yields anything, it yields at least one. *)
Theorem extract_cuts_the_line (candidate : string) (ips : list string) :
  extract candidate = Some ips ->
  ips <> []
  /\ exists gaps,
      List.length gaps = S (List.length ips)
      /\ weave gaps ips = candidate.
Proof.
  intros E. split.
  - unfold extract, match_all in E.
    destruct (scan regexAnyIP 0 "" candidate); [discriminate|].
    injection E as <-. discriminate.
  - apply extract_scan in E.
    destruct (@scan_weave regexAnyIP eq_refl candidate 0 "")
      as (gaps & L & W).
    rewrite E in L, W. exists gaps. auto.
Qed.

Lemma extract_cuts_the_line_witness :
  extract host_line = Some ["192.168.1.5"]
  /\ exists gaps,
      List.length gaps = 2 /\ weave gaps ["192.168.1.5"] = host_line.
Proof.
  assert (E : extract host_line = Some ["192.168.1.5"])
    by (vm_compute; reflexivity).
  split; [exact E|].
  exact (proj2 (@extract_cuts_the_line host_line ["192.168.1.5"] E)).
Defined.

(** X6.  The type label of a candidate line: the lowercase letters that
    follow [typ ] in the line, all of them up to the first character
    that is not a lowercase letter, and at least one. *)
Theorem candidate_type_shape (candidate t : string) :
  candidate_type candidate = Some t ->
  t <> ""
  /\ string_forall is_lower t = true
  /\ exists pre post,
      candidate = pre ++ "typ " ++ t ++ post
      /\ forall a p, post = String a p -> is_lower a = false.
Proof.
  unfold candidate_type, group1, exec.
  destruct (search regexType "" candidate) as [[x e]|] eqn:S;
    [|discriminate].
  destruct (get_group 1 (groups e)) as [t'|] eqn:G; [|discriminate].
  destruct (String.eqb_spec t' "") as [|N]; [discriminate|].
  intros [= ->].
  apply search_found in S. destruct S as (b & a & -> & M & R).
  unfold match_at, regexType in M. cbn [source ignoreCase seqs chars app] in M.
  cbn [m] in M.
  apply step_if_found in M. destruct M as (c1 & t1 & R1 & E1 & M).
  apply step_if_found in M. destruct M as (c2 & t2 & R2 & E2 & M).
  apply step_if_found in M. destruct M as (c3 & t3 & R3 & E3 & M).
  apply step_if_found in M. destruct M as (c4 & t4 & R4 & E4 & M).
  apply Ascii.eqb_eq in E1, E2, E3, E4. subst c1 c2 c3 c4.
  cbn [remaining advance] in R1, R2, R3, R4. subst a t1 t2 t3.
  unfold iterations in M.
  apply repeat_class_greedy in M;
    [| intros y0; eexists; reflexivity | unfold iterations; cbn [remaining advance]; lia].
  destruct M as (w & y & Ry & K & F & Lm & Mx).
  injection K as <-. cbn [groups] in G.
  rewrite get_group_set, (between_reads Ry) in G. injection G as ->.
  split; [exact N|]. split.
  - rewrite <- F. apply string_forall_ext. intros c.
    symmetry. apply lower_class.
  - destruct Ry as [Ry _]. cbn [remaining advance] in Ry. subst t4.
    exists (rev_append b ""), (remaining y). split.
    + simpl in R. rewrite <- R. now rewrite (rev_append_spec b).
    + intros a p E. rewrite <- lower_class. exact (Mx a p E).
Qed.

Lemma candidate_type_shape_witness :
  candidate_type srflx_line = Some "srflx"
  /\ string_forall is_lower "srflx" = true.
Proof.
  assert (E : candidate_type srflx_line = Some "srflx")
    by (vm_compute; reflexivity).
  split; [exact E|].
  exact (proj1 (proj2 (@candidate_type_shape srflx_line "srflx" E))).
Defined.

(** X7.  Every collected mDNS hostname is a run of the characters
    [a-f], [0-9] and [-], at least one, followed by [.local], and stands
    in a candidate line that holds [.local ] (with the space). *)
Theorem hostnames_shape (events : list (option string)) (h : string) :
  In h (localHostnames (collect events)) ->
  exists p candidate pre post,
    h = p ++ ".local" /\ p <> "" /\ string_forall hostname_char p = true
    /\ In (Some candidate) events
    /\ includes candidate ".local " = true
    /\ candidate = pre ++ h ++ post.
Proof.
  unfold collect. rewrite fold_hostnames. intros H.
  apply fold_set_add_in in H. destruct H as [[] | H].
  apply in_flat_map in H. destruct H as (ev & I & H).
  unfold hostname_of, line_of in H.
  destruct ev as [c|]; [|contradiction].
  destruct (String.eqb c ""); [contradiction|].
  destruct (includes c ".local ") eqn:Inc; [|contradiction].
  destruct (group1 (exec regexHostname c)) as [h'|] eqn:G; [|contradiction].
  destruct H as [-> | []].
  destruct (@hostname_found c h G) as (p & pre & post & E & N & F & Q).
  exists p, c, pre, post.
  exact (conj E (conj N (conj F (conj I (conj Inc Q))))).
Qed.

Lemma hostnames_shape_witness :
  In "3f2a-9c.local"
     (localHostnames
        (collect [Some "candidate:1 1 udp 2113937151 3f2a-9c.local 54321 typ host"]))
  /\ exists p, "3f2a-9c.local" = p ++ ".local" /\ p <> "".
Proof.
  assert (I : In "3f2a-9c.local"
                 (localHostnames
                    (collect [Some "candidate:1 1 udp 2113937151 3f2a-9c.local 54321 typ host"])))
    by (vm_compute; auto).
  split; [exact I|].
  destruct (@hostnames_shape _ _ I) as (p & _ & _ & _ & E & N & _).
  exists p. auto.
Defined.

Lemma line_not_empty (pre rest : string) :
  String.eqb (pre ++ String " " rest) "" = false.
Proof. now destruct pre. Qed.

Lemma extracted_dotted (pre post : string) (a b c d : nat) :
  a <= 255 -> b <= 255 -> c <= 255 -> d <= 255 ->
  In (dotted a b c d)
     (extracted_of (Some (pre ++ " " ++ dotted a b c d ++ " " ++ post))).
Proof.
  intros Ha Hb Hc Hd.
  destruct (@extract_dotted pre post a b c d Ha Hb Hc Hd) as (ips & E & J).
  unfold extracted_of, line_of.
  change (pre ++ " " ++ dotted a b c d ++ " " ++ post)
    with (pre ++ String " " (dotted a b c d ++ " " ++ post)) in E |- *.
  now rewrite line_not_empty, E.
Qed.

(** X10.  The extraction finds the IPv4 addresses of a candidate line: a
    dotted quad of four numbers up to 255 that stands between two spaces
    of a line is collected, whatever else the line holds. *)
Theorem dotted_quads_are_collected (events : list (option string))
        (pre post : string) (a b c d : nat) :
  a <= 255 -> b <= 255 -> c <= 255 -> d <= 255 ->
  In (Some (pre ++ " " ++ dotted a b c d ++ " " ++ post)) events ->
  In (dotted a b c d) (uniqueLeakedIPs (collect events)).
Proof.
  intros Ha Hb Hc Hd I.
  unfold collect. rewrite fold_ips. apply fold_set_add_in. right.
  apply in_flat_map. eexists. split; [exact I|].
  now apply extracted_dotted.
Qed.

Lemma dotted_quads_are_collected_witness :
  203 <= 255 /\ 0 <= 255 /\ 113 <= 255 /\ 9 <= 255
  /\ In (Some srflx_line) [Some srflx_line]
  /\ In "203.0.113.9" (uniqueLeakedIPs (collect [Some srflx_line])).
Proof.
  assert (A : 203 <= 255) by lia. assert (B : 0 <= 255) by lia.
  assert (C : 113 <= 255) by lia. assert (D : 9 <= 255) by lia.
  assert (I : In (Some srflx_line) [Some srflx_line]) by (left; reflexivity).
  exact (conj A (conj B (conj C (conj D (conj I
           (@dotted_quads_are_collected [Some srflx_line]
              "candidate:2 1 UDP 1686052607" "54321 typ srflx"
              203 0 113 9 A B C D I)))))).
Defined.

(** X12.  From the candidate line to the report: in a run that reaches
    the timer, a dotted quad that stands between two spaces of a
    candidate line, and is not the primary public address, has one block
    in the report that the run posts, and no other: written out, the
    report is the blocks before it, its block, of type Local (Private)
    when it is in 10.0.0.0/8, 172.16.0.0/12 or 192.168.0.0/16 and of
    type Leaked otherwise, and the blocks after it. *)
Theorem dotted_quad_is_reported (e : env) (pre post : string)
        (a b c d : nat) :
  a <= 255 -> b <= 255 -> c <= 255 -> d <= 255 ->
  rtc_available e = true ->
  In (Some (pre ++ " " ++ dotted a b c d ++ " " ++ post)) (ice_events e) ->
  primary_of e <> Some (dotted a b c d) ->
  In (dotted a b c d,
      if rfc1918 a b then "Local (Private)" else "Leaked")
     (labels e)
  /\ exists before after,
      ~ In (dotted a b c d) (map fst before)
      /\ ~ In (dotted a b c d) (map fst after)
      /\ posts (requests e)
         = [report_text e
              (json_tally (iceCandidateTypes (collect (ice_events e))))
              (localHostnames (collect (ice_events e)))
              (before
               ++ (dotted a b c d,
                   if rfc1918 a b then "Local (Private)" else "Leaked")
                  :: after)].
Proof.
  intros Ha Hb Hc Hd H I Np.
  assert (J : In (dotted a b c d) (addresses e)).
  { apply addresses_in.
    assert (J : In (dotted a b c d)
                   (uniqueLeakedIPs (collect (ice_events e)))).
    { unfold collect. rewrite fold_ips. apply fold_set_add_in. right.
      apply in_flat_map. eexists. split; [exact I|].
      now apply extracted_dotted. }
    split; [|now right].
    eapply address_like_wanted, collected_address_like, J. }
  assert (L : label_of (primary_of e) (dotted a b c d)
              = if rfc1918 a b then "Local (Private)" else "Leaked").
  { unfold label_of.
    rewrite (@isPrivateIP_on_ipv4_literals (dotted a b c d))
      by now apply dotted_is_literal.
    rewrite (spec_private_dotted Ha Hb Hc Hd).
    assert (S : strict_eq (VStr (dotted a b c d)) (primary_of e) = false).
    { unfold strict_eq. destruct (primary_of e) as [p|]; [|reflexivity].
      apply String.eqb_neq. congruence. }
    now rewrite S. }
  split.
  - rewrite labels_by_address. apply in_map_iff.
    exists (dotted a b c d). split; [now rewrite L | exact J].
  - pose proof (addresses_nodup e) as D.
    destruct (in_split _ _ J) as (l1 & l2 & A). rewrite A in D.
    apply NoDup_remove_2 in D.
    exists (map (fun ip => (ip, label_of (primary_of e) ip)) l1),
           (map (fun ip => (ip, label_of (primary_of e) ip)) l2).
    rewrite !map_map. cbn [fst]. rewrite !map_id.
    split; [intros K; apply D, in_or_app; now left|].
    split; [intros K; apply D, in_or_app; now right|].
    rewrite (posts_text e H), A, map_app. cbn [map]. now rewrite L.
Qed.

Lemma dotted_quad_is_reported_witness :
  exists before after,
    posts (requests scenario)
    = [report_text scenario
         (json_tally (iceCandidateTypes (collect (ice_events scenario))))
         (localHostnames (collect (ice_events scenario)))
         (before ++ ("192.168.1.5", "Local (Private)") :: after)].
Proof.
  assert (A : 192 <= 255) by lia. assert (B : 168 <= 255) by lia.
  assert (C : 1 <= 255) by lia. assert (D : 5 <= 255) by lia.
  assert (I : In (Some host_line) (ice_events scenario))
    by (right; left; reflexivity).
  assert (N : primary_of scenario <> Some "192.168.1.5") by discriminate.
  destruct (@dotted_quad_is_reported scenario
              "candidate:1 1 UDP 2122260223" "54321 typ host"
              192 168 1 5 A B C D eq_refl I N)
    as (_ & before & after & _ & _ & E).
  exists before, after. exact E.
Defined.

(** X13.  No collected address is held back from the geo service: in a
    run that reaches the timer callback the lookup URL of every
    collected address is fetched, of an address that [isPrivateIP]
    classifies private as of any other. *)
Theorem collected_addresses_are_looked_up (e : env) (ip : string) :
  rtc_available e = true ->
  In ip (uniqueLeakedIPs (collect (ice_events e))) ->
  In (Fetch (geo_url ip)) (requests e)
  /\ In (geo_url ip) (fetches (requests e)).
Proof.
  intros H I.
  assert (A : In ip (addresses e)).
  { apply addresses_in. split; [|now right].
    eapply address_like_wanted, collected_address_like, I. }
  split.
  - unfold requests. rewrite (run_trace e H). cbn [snd]. right.
    apply in_or_app. left.
    apply (in_map (fun ip => Fetch (geo_url ip))), A.
  - rewrite (fetches_run e H). right. apply in_map, A.
Qed.

Lemma collected_addresses_are_looked_up_witness :
  isPrivateIP "192.168.1.5" = true
  /\ In (Fetch (geo_url "192.168.1.5")) (requests scenario).
Proof.
  split; [vm_compute; reflexivity|].
  assert (I : In "192.168.1.5"
                 (uniqueLeakedIPs (collect (ice_events scenario))))
    by (vm_compute; auto).
  exact (proj1 (@collected_addresses_are_looked_up scenario "192.168.1.5"
                  eq_refl I)).
Defined.

(** ** The octets of an IPv4 literal *)

Lemma digit_char (c : ascii) :
  is_digit c = true -> exists d, d < 10 /\ c = digit_of d.
Proof.
  intros H. exists (code c - 48).
  destruct c as [[] [] [] [] [] [] [] []]; try discriminate H;
    (split; [vm_compute; lia | reflexivity]).
Qed.

Lemma digits_up_to_three (o : string) :
  o <> "" -> string_forall is_digit o = true -> String.length o <= 3 ->
  exists n, n < 3 /\ exists d1 d2 d3,
    d1 < 10 /\ d2 < 10 /\ d3 < 10 /\ o = digits_text n d1 d2 d3.
Proof.
  intros N D L.
  destruct o as [|c1 [|c2 [|c3 [|c4 o]]]]; [congruence | | | | simpl in L; lia];
    simpl in D;
    repeat match goal with
           | H : _ && _ = true |- _ => apply andb_prop in H; destruct H
           end;
    repeat match goal with
           | H : is_digit ?c = true |- _ =>
               apply digit_char in H; destruct H as (? & ? & ->)
           end.
  - exists 0. split; [lia|]. eexists _, _, _.
    repeat apply conj; only 4: reflexivity;
      try assumption; apply Nat.lt_0_succ.
  - exists 1. split; [lia|]. eexists _, _, _.
    repeat apply conj; only 4: reflexivity;
      try assumption; apply Nat.lt_0_succ.
  - exists 2. split; [lia|]. eexists _, _, _.
    repeat apply conj; only 4: reflexivity; assumption.
Qed.

(** The pattern of an octet takes a run of one to three digits exactly
    when the number it spells is at most 255. *)
Lemma octet_table (n d1 d2 d3 : nat) :
  n < 3 -> d1 < 10 -> d2 < 10 -> d3 < 10 ->
  whole false octet4 (digits_text n d1 d2 d3)
  = match decimal (digits_text n d1 d2 d3) with
    | Some k => (k <=? 255)%nat
    | None => false
    end.
Proof.
  intros Hn H1 H2 H3.
  assert (T : forallb (fun n => forallb (fun d1 => forallb (fun d2 =>
                forallb (fun d3 =>
                  Bool.eqb (whole false octet4 (digits_text n d1 d2 d3))
                           match decimal (digits_text n d1 d2 d3) with
                           | Some k => (k <=? 255)%nat
                           | None => false
                           end)
                  (seq 0 10)) (seq 0 10)) (seq 0 10)) (seq 0 3) = true)
    by (vm_compute; reflexivity).
  rewrite forallb_forall in T.
  specialize (T n (proj2 (in_seq 3 0 n) ltac:(lia))).
  rewrite forallb_forall in T.
  specialize (T d1 (proj2 (in_seq 10 0 d1) ltac:(lia))).
  rewrite forallb_forall in T.
  specialize (T d2 (proj2 (in_seq 10 0 d2) ltac:(lia))).
  rewrite forallb_forall in T.
  specialize (T d3 (proj2 (in_seq 10 0 d3) ltac:(lia))).
  now apply Bool.eqb_prop in T.
Qed.

Lemma octet4_length (o : string) :
  language false octet4 o -> String.length o <= 3.
Proof.
  unfold octet4, digit, opt. cbn [alts seqs language].
  intros [L | [L | L]].
  - destruct L as (u & v & -> & (a & -> & _) & u' & v' & ->
                   & (b & -> & _) & (c & -> & _)). simpl. lia.
  - destruct L as (u & v & -> & (a & -> & _) & u' & v' & ->
                   & (b & -> & _) & (c & -> & _)). simpl. lia.
  - destruct L as (u & v & -> & (n1 & B1 & P1) & u' & v' & ->
                   & (b & -> & _) & (n2 & B2 & P2)).
    unfold count_ok in B1, B2. simpl in B1, B2.
    assert (L1 : String.length u <= 1).
    { destruct n1 as [|[|n1]]; [| |lia]; cbn [pow] in P1.
      - subst u. simpl. lia.
      - destruct P1 as (x & y & -> & (a & -> & _) & ->). simpl. lia. }
    assert (L2 : String.length v' <= 1).
    { destruct n2 as [|[|n2]]; [| |lia]; cbn [pow] in P2.
      - subst v'. simpl. lia.
      - destruct P2 as (x & y & -> & (a & -> & _) & ->). simpl. lia. }
    rewrite !length_append. simpl. lia.
Qed.

Lemma decimal_digits (o : string) (n : nat) :
  decimal o = Some n -> o <> "" /\ string_forall is_digit o = true.
Proof.
  unfold decimal. destruct o as [|c t]; [discriminate|]. intros H.
  split; [discriminate|]. revert H. generalize 0. generalize (String c t).
  clear. induction s as [|a s IH]; intros acc H; [reflexivity|].
  simpl in H |- *. destruct (is_digit a); [|discriminate]. eauto.
Qed.

Lemma octet_language (o : string) :
  language false octet4 o <-> octet o.
Proof.
  split.
  - intros L. pose proof (octet4_length L) as Len.
    destruct (octet4_digits L) as [N D].
    destruct (digits_up_to_three N D Len)
      as (n & Hn & d1 & d2 & d3 & H1 & H2 & H3 & ->).
    pose proof (octet_table Hn H1 H2 H3) as T.
    rewrite (@whole_complete false octet4 _ eq_refl L) in T.
    split; [exact Len|].
    destruct (decimal (digits_text n d1 d2 d3)) as [k|]; [|discriminate].
    exists k. split; [reflexivity|]. symmetry in T. now apply Nat.leb_le in T.
  - intros [Len (k & Dk & Hk)].
    destruct (decimal_digits _ Dk) as [N D].
    destruct (digits_up_to_three N D Len)
      as (n & Hn & d1 & d2 & d3 & H1 & H2 & H3 & ->).
    pose proof (octet_table Hn H1 H2 H3) as T. rewrite Dk in T.
    apply whole_language. rewrite T. now apply Nat.leb_le.
Qed.

Lemma quad_language (o1 o2 o3 o4 : string) :
  language false octet4 o1 -> language false octet4 o2 ->
  language false octet4 o3 -> language false octet4 o4 ->
  language false (Seq (times (Seq octet4 (Chr ".")) 3 3) octet4)
           (o1 ++ "." ++ o2 ++ "." ++ o3 ++ "." ++ o4).
Proof.
  intros L1 L2 L3 L4.
  assert (O : forall o, language false octet4 o ->
                        language false (Seq octet4 (Chr ".")) (o ++ ".")).
  { intros o L. exists o, ".". repeat split; [exact L|].
    exists "."%char. split; reflexivity. }
  exists ((o1 ++ ".") ++ (o2 ++ ".") ++ (o3 ++ ".") ++ ""), o4.
  split; [|split; [|exact L4]].
  - rewrite append_empty_r, !append_assoc. reflexivity.
  - exists 3. split; [unfold count_ok; simpl; lia|].
    cbn [pow]. repeat (eexists; eexists; split; [reflexivity|]; split;
                       [apply O; assumption|]).
    reflexivity.
Qed.

(** X20.  What [regexIPv4] takes as a whole string: four octets joined
    by dots, an octet being one to three digits that spell a number up
    to 255 (so [010.1.1.1] is a literal and [256.1.1.1] is none). *)
Theorem ipv4_literal_octets (s : string) :
  ipv4_literal s = true <->
  exists o1 o2 o3 o4,
    s = o1 ++ "." ++ o2 ++ "." ++ o3 ++ "." ++ o4
    /\ octet o1 /\ octet o2 /\ octet o3 /\ octet o4.
Proof.
  split.
  - intros H.
    destruct (@ipv4_literal_shape s H)
      as (o1 & o2 & o3 & o4 & E & L1 & L2 & L3 & L4).
    exists o1, o2, o3, o4. rewrite <- !octet_language. auto.
  - intros (o1 & o2 & o3 & o4 & -> & L1 & L2 & L3 & L4).
    rewrite <- octet_language in L1, L2, L3, L4.
    apply whole_complete; [reflexivity|]. now apply quad_language.
Qed.

Lemma ipv4_literal_octets_witness :
  ipv4_literal "010.1.1.1" = true /\ ipv4_literal "256.1.1.1" = false.
Proof.
  assert (O : forall o n, String.length o <= 3 -> decimal o = Some n ->
                          n <= 255 -> octet o).
  { intros o n L D H. split; [exact L|]. exists n. auto. }
  split; [|reflexivity].
  apply (proj2 (ipv4_literal_octets "010.1.1.1")).
  exists "010", "1", "1", "1". split; [reflexivity|].
  repeat apply conj;
    (eapply O; [simpl; lia | reflexivity | simpl; lia]).
Defined.
